(** * GoBuffer_DB: a shallow embedding of the storage core

    The development follows the Go packages of the repository:
    [config] (page identifiers and parameters), [disk] (the paged file
    manager with per-segment allocation bitmaps), [buffer] (the frame pool
    with pin counts, dirty bits and LRU/MRU ordering) and [relation] (the
    record codec and the heap-file manager built on a header page and two
    singly linked page lists).

    Modelling conventions.
    - A Go [byte] is a [Z] in [0, 256); a [[]byte] and a Go [string] are
      [list byte], a slice having its length as capacity.  A Go [int] is a
      [Z]: offsets and lengths stay far below [2^63], so the 64-bit
      arithmetic on them does not wrap; the explicit conversions of the
      source ([int32(..)], [uint32(..)]) are written out as wrap-arounds.
    - The operating system never fails on its own: the only I/O errors are
      the ones a missing file produces ([os.OpenFile] without [O_CREATE],
      [os.ReadFile]).
    - Every mutable object of the source (the disk manager, the frames, the
      replacement list, the lookup map) lives in an explicit state that the
      operations take and return; an operation that returns an error still
      returns the state as it left it.
    - A run-time panic of the source (an index out of range, a negative
      [make]) is the error [Panic]. *)

From stdpp Require Import gmap list strings.
From Stdlib Require Import ZArith Lia.

Local Open Scope Z_scope.

(** ** Bytes, errors and results *)

Definition byte := Z.

Definition gostring := list byte.

Definition zeros (n : nat) : list byte := replicate n 0.

(** The built-in [copy(dst, src)]: the first [min(len dst, len src)] bytes of
    [dst] are replaced. *)
Definition copy (dst src : list byte) : list byte :=
  take (length dst) src ++ drop (length src) dst.

(** The bytes of a literal, for readable examples. *)
Fixpoint str (s : string) : gostring :=
  match s with
  | EmptyString => []
  | String a rest => Z.of_nat (Ascii.nat_of_ascii a) :: str rest
  end.

(** The errors of the source, named after the message of [errors.New]. *)
Inductive error :=
| ErrInvalidPagesize      (* "invalid pagesize" *)
| ErrNoSpace              (* "no space: reached dm_maxfilecount" *)
| ErrInvalidFileIdx       (* "invalid file idx" *)
| ErrInvalidPageIdx       (* "invalid page idx" *)
| ErrDataTooLarge         (* "data too large" *)
| ErrNotExist             (* the error of os.OpenFile / os.ReadFile on a missing file *)
| ErrNoFrame              (* "no available frame to evict" *)
| ErrAllFramesPinned      (* "all frames pinned" *)
| ErrNotResident          (* "page not found in buffers" *)
| ErrArity                (* "record arity mismatch" *)
| ErrBadBuffer            (* "buffer too small or pos out of range" *)
| ErrBadFieldInt          (* "col %s: invalid int: ..." *)
| ErrBadFieldFloat        (* "col %s: invalid float: ..." *)
| ErrInvalidHeader        (* "invalid header metadata" *)
| ErrInvalidSlot          (* "invalid slot index" *)
| ErrSlotFree             (* "slot already free" *)
| ErrHeaderUninit         (* "header not initialized" *)
| ErrPageTooSmall         (* "page too small for records" *)
| ErrCouldNotInsert       (* "could not insert record" *)
| Panic                   (* a run-time panic of the Go program *)
| OutOfFuel.              (* the model's loop bound was reached *)

Inductive res (A : Type) :=
| Ok (a : A)
| Err (e : error).
Arguments Ok {A} a.
Arguments Err {A} e.

(** ** The standard library functions the packages call *)

Module strconv.

(** [strconv.Atoi] and [strconv.FormatInt] on a 64-bit platform.

    [Atoi] accepts an optional sign followed by at least one decimal digit
    and fails (syntax or range error) on anything else and on a value
    outside [int64]. *)

Definition digitVal (c : byte) : option Z :=
  if (48 <=? c) && (c <=? 57) then Some (c - 48) else None.

Fixpoint parseDigits (acc : Z) (s : gostring) : option Z :=
  match s with
  | [] => Some acc
  | c :: rest =>
      match digitVal c with
      | Some d => parseDigits (acc * 10 + d) rest
      | None => None
      end
  end.

Definition Atoi (s : gostring) : option Z :=
  match s with
  | [] => None
  | c :: rest =>
      let '(neg, ds) := if decide (c = 45) then (true, rest)
                        else if decide (c = 43) then (false, rest)
                        else (false, s) in
      match ds with
      | [] => None
      | _ =>
          match parseDigits 0 ds with
          | None => None
          | Some n =>
              let v := if neg then - n else n in
              if (- 2 ^ 63 <=? v) && (v <=? 2 ^ 63 - 1) then Some v else None
          end
      end
  end.

Fixpoint digitsOf (fuel : nat) (n : Z) (acc : gostring) : gostring :=
  match fuel with
  | O => acc
  | S fuel' =>
      let acc' := (48 + n mod 10) :: acc in
      if n <? 10 then acc' else digitsOf fuel' (n / 10) acc'
  end.

(** [strconv.FormatInt(v, 10)] for [v] in [int64] (at most 19 digits). *)
Definition FormatInt (v : Z) : gostring :=
  if v <? 0 then 45 :: digitsOf 20 (- v) [] else digitsOf 20 v [].

(** [strconv.Itoa(i)] is [FormatInt(int64(i), 10)]. *)
Definition Itoa (i : Z) : gostring := FormatInt i.

End strconv.

(** ** Package config *)

Module config.

Record PageId := { FileIdx : Z; PageIdx : Z }.

#[export] Instance PageId_eq_dec : EqDecision PageId.
Proof. solve_decision. Defined.

#[export] Instance PageId_countable : Countable PageId.
Proof.
  refine (inj_countable' (fun p => (FileIdx p, PageIdx p))
                         (fun q => {| FileIdx := q.1; PageIdx := q.2 |}) _).
  intros []; reflexivity.
Defined.

Record DBConfig := {
  PageSize : Z;
  DMMaxFileCount : Z;
  BMBufferCount : Z;
  BMPolicy : string;
}.

End config.

(** ** Package disk *)

Module disk.
Import config.

(** The manager together with the files it owns.  [bitmaps] is the field of
    the Go struct; [bitmapFiles] and [dataFiles] are the files
    [BinData/Data<i>.bitmap] and [BinData/Data<i>.bin], absent from the map
    when the file does not exist. *)
Record DiskManager := {
  cfg : DBConfig;
  bitmaps : gmap Z (list byte);
  bitmapFiles : gmap Z (list byte);
  dataFiles : gmap Z (list byte);
}.

Definition set_bitmaps (f : gmap Z (list byte) -> gmap Z (list byte)) (m : DiskManager) :=
  {| cfg := cfg m; bitmaps := f (bitmaps m);
     bitmapFiles := bitmapFiles m; dataFiles := dataFiles m |}.
Definition set_bitmapFiles (f : gmap Z (list byte) -> gmap Z (list byte)) (m : DiskManager) :=
  {| cfg := cfg m; bitmaps := bitmaps m;
     bitmapFiles := f (bitmapFiles m); dataFiles := dataFiles m |}.
Definition set_dataFiles (f : gmap Z (list byte) -> gmap Z (list byte)) (m : DiskManager) :=
  {| cfg := cfg m; bitmaps := bitmaps m;
     bitmapFiles := bitmapFiles m; dataFiles := f (dataFiles m) |}.

(** [m.bitmaps[idx]], the nil slice when the key is absent. *)
Definition bitmap (idx : Z) (m : DiskManager) : list byte :=
  default [] (bitmaps m !! idx).

(** [loadBitmap]: a missing bitmap file gives the empty bitmap and is
    created empty; otherwise the bitmap is the contents of the file. *)
Definition loadBitmap (idx : Z) (m : DiskManager) : DiskManager :=
  match bitmapFiles m !! idx with
  | None => set_bitmapFiles (insert idx []) (set_bitmaps (insert idx []) m)
  | Some data => set_bitmaps (insert idx data) m
  end.

Definition NewDiskManager (c : DBConfig) : DiskManager :=
  {| cfg := c; bitmaps := ∅; bitmapFiles := ∅; dataFiles := ∅ |}.

(** [Init]: [Data0.bin] is created empty when it is missing, and the bitmap
    of segment 0 is loaded. *)
Definition Init (m : DiskManager) : DiskManager :=
  let m1 := match dataFiles m !! 0 with
            | None => set_dataFiles (insert 0 []) m
            | Some _ => m
            end in
  loadBitmap 0 m1.

Definition persistBitmap (idx : Z) (m : DiskManager) : DiskManager :=
  set_bitmapFiles (insert idx (bitmap idx m)) m.

(** [if _, ok := m.bitmaps[idx]; !ok { loadBitmap(idx) }] *)
Definition ensureLoaded (idx : Z) (m : DiskManager) : DiskManager :=
  match bitmaps m !! idx with
  | Some _ => m
  | None => loadBitmap idx m
  end.

(** Index of the first zero byte: [for i, b := range bmp { if b == 0 ... }]. *)
Fixpoint firstZero (bmp : list byte) : option nat :=
  match bmp with
  | [] => None
  | b :: rest => if decide (b = 0) then Some O else S <$> firstZero rest
  end.

(** What one iteration of a [for] loop does to the control flow: it returns
    from the function or goes on to the next iteration. *)
Inductive flow (A : Type) :=
| Return (r : A)
| Continue.
Arguments Return {A} r.
Arguments Continue {A}.

(** The body of the loop of [AllocatePage] for segment [idx]: claim the first
    zero byte of the bitmap, or else append one page of zero bytes to the
    segment file ([O_APPEND|O_CREATE]) and a 1 to the bitmap. *)
Definition allocateIn (idx : Z) (m : DiskManager) : flow (res PageId) * DiskManager :=
  let m1 := ensureLoaded idx m in
  let bmp := bitmap idx m1 in
  match firstZero bmp with
  | Some i =>
      let m2 := set_bitmaps (insert idx (<[i := 1]> bmp)) m1 in
      (Return (Ok {| FileIdx := idx; PageIdx := Z.of_nat i |}), persistBitmap idx m2)
  | None =>
      let old := default [] (dataFiles m1 !! idx) in
      let m2 := set_dataFiles (insert idx (old ++ zeros (Z.to_nat (PageSize (cfg m))))) m1 in
      let m3 := set_bitmaps (insert idx (bmp ++ [1])) m2 in
      (Return (Ok {| FileIdx := idx; PageIdx := Z.of_nat (length (bmp ++ [1])) - 1 |}),
       persistBitmap idx m3)
  end.

(** [for idx := 0; idx < m.cfg.DMMaxFileCount; idx++ { ... }] over the
    segments [idxs] still to visit, and the [return] after the loop. *)
Fixpoint allocateLoop (idxs : list Z) (m : DiskManager) : res PageId * DiskManager :=
  match idxs with
  | [] => (Err ErrNoSpace, m)
  | idx :: rest =>
      match allocateIn idx m with
      | (Return r, m1) => (r, m1)
      | (Continue, m1) => allocateLoop rest m1
      end
  end.

Definition segments (m : DiskManager) : list Z :=
  Z.of_nat <$> seq 0 (Z.to_nat (DMMaxFileCount (cfg m))).

Definition AllocatePage (m : DiskManager) : res PageId * DiskManager :=
  if PageSize (cfg m) <=? 0 then (Err ErrInvalidPagesize, m)
  else allocateLoop (segments m) m.

(** The range checks shared by [FreePage], [WritePage] and [ReadPage]; the
    bitmap of the segment is loaded between the two checks. *)
Definition checkPage (pid : PageId) (m : DiskManager) : res unit * DiskManager :=
  if (FileIdx pid <? 0) || (DMMaxFileCount (cfg m) <=? FileIdx pid)
  then (Err ErrInvalidFileIdx, m)
  else
    let m1 := ensureLoaded (FileIdx pid) m in
    if (PageIdx pid <? 0) || (Z.of_nat (length (bitmap (FileIdx pid) m1)) <=? PageIdx pid)
    then (Err ErrInvalidPageIdx, m1)
    else (Ok tt, m1).

Definition FreePage (pid : PageId) (m : DiskManager) : res unit * DiskManager :=
  match checkPage pid m with
  | (Err e, m1) => (Err e, m1)
  | (Ok _, m1) =>
      let bmp := <[Z.to_nat (PageIdx pid) := 0]> (bitmap (FileIdx pid) m1) in
      (Ok tt, persistBitmap (FileIdx pid) (set_bitmaps (insert (FileIdx pid) bmp) m1))
  end.

Definition padToPage (data : list byte) (size : Z) : list byte :=
  if decide (Z.of_nat (length data) = size) then data
  else copy (zeros (Z.to_nat size)) data.

(** [f.WriteAt(d, off)] on the contents of a file. *)
Definition writeAt (file : list byte) (off : nat) (d : list byte) : list byte :=
  take off file ++ zeros (off - length file) ++ d ++ drop (off + length d) file.

(** [f.ReadAt(buf, off)] into a fresh zeroed buffer of [n] bytes: a short
    read leaves the tail of the buffer zero. *)
Definition readAt (file : list byte) (off n : nat) : list byte :=
  copy (zeros n) (take n (drop off file)).

Definition WritePage (pid : PageId) (data : list byte) (m : DiskManager)
  : res unit * DiskManager :=
  if PageSize (cfg m) <? Z.of_nat (length data) then (Err ErrDataTooLarge, m)
  else
    match checkPage pid m with
    | (Err e, m1) => (Err e, m1)
    | (Ok _, m1) =>
        match dataFiles m1 !! FileIdx pid with
        | None => (Err ErrNotExist, m1)
        | Some file =>
            let ps := PageSize (cfg m) in
            let off := PageIdx pid * ps in
            let size := Z.of_nat (length file) in
            let file1 := if size <? off + ps
                         then file ++ zeros (Z.to_nat (off + ps - size))
                         else file in
            let file2 := writeAt file1 (Z.to_nat off) (padToPage data ps) in
            (Ok tt, set_dataFiles (insert (FileIdx pid) file2) m1)
        end
    end.

Definition ReadPage (pid : PageId) (m : DiskManager) : res (list byte) * DiskManager :=
  match checkPage pid m with
  | (Err e, m1) => (Err e, m1)
  | (Ok _, m1) =>
      match dataFiles m1 !! FileIdx pid with
      | None => (Err ErrNotExist, m1)
      | Some file =>
          let ps := PageSize (cfg m) in
          if ps <? 0 then (Err Panic, m1)
          else (Ok (readAt file (Z.to_nat (PageIdx pid * ps)) (Z.to_nat ps)), m1)
      end
  end.

(** [Finish]: [persistBitmap] for every key of [m.bitmaps]; the order of the
    iteration does not matter, each call writes its own file. *)
Definition Finish (m : DiskManager) : DiskManager :=
  foldr (fun kv acc => persistBitmap kv.1 acc) m (map_to_list (bitmaps m)).

End disk.

(** ** Package buffer *)

Module buffer.
Import config.

Definition PolicyLRU : string := "LRU".
Definition PolicyMRU : string := "MRU".

Record BufferFrame := {
  PageId : config.PageId;
  Data : list byte;
  PinCount : Z;
  Dirty : bool;
}.

(** A [*list.Element] of the replacement list.  [elId] is the identity of
    the allocated element, [Value] the frame it points to (an index into
    [frames], the model of a [*BufferFrame]). *)
Record Element := { elId : nat; Value : nat }.

(** [pageKey]: the two indices in decimal, separated by a colon. *)
Definition pageKey (pid : config.PageId) : gostring :=
  strconv.Itoa (FileIdx pid) ++ [58] ++ strconv.Itoa (PageIdx pid).

#[export] Instance Element_eq_dec : EqDecision Element.
Proof. solve_decision. Defined.

(** [dm] is the disk manager the pool points to; [repl] is the
    [container/list] from front to back; [lookup], a map from [pageKey pid]
    in the source, is keyed by [pid] itself, [pageKey] being injective
    ([pageKey_inj] below); [nextEl] numbers the elements allocated by
    [PushBack]. *)
Record BufferManager := {
  dm : disk.DiskManager;
  frames : list BufferFrame;
  policy : string;
  repl : list Element;
  lookup : gmap config.PageId Element;
  nextEl : nat;
}.

Definition empty : config.PageId := {| FileIdx := -1; PageIdx := -1 |}.

(** [NewBufferManager]: [make] panics on a negative frame count, and on a
    negative page size as soon as there is a frame to allocate. *)
Definition NewBufferManager (c : DBConfig) (d : disk.DiskManager) : res BufferManager :=
  if (BMBufferCount c <? 0) || ((0 <? BMBufferCount c) && (PageSize c <? 0))
  then Err Panic
  else
    Ok {| dm := d;
          frames := replicate (Z.to_nat (BMBufferCount c))
                      {| PageId := empty; Data := zeros (Z.to_nat (PageSize c));
                         PinCount := 0; Dirty := false |};
          policy := if decide (BMPolicy c = "") then PolicyLRU else BMPolicy c;
          repl := [];
          lookup := ∅;
          nextEl := O |}.

Definition set_dm (d : disk.DiskManager) (bm : BufferManager) :=
  {| dm := d; frames := frames bm; policy := policy bm; repl := repl bm;
     lookup := lookup bm; nextEl := nextEl bm |}.
Definition set_frames (fs : list BufferFrame) (bm : BufferManager) :=
  {| dm := dm bm; frames := fs; policy := policy bm; repl := repl bm;
     lookup := lookup bm; nextEl := nextEl bm |}.
Definition set_repl (l : list Element) (bm : BufferManager) :=
  {| dm := dm bm; frames := frames bm; policy := policy bm; repl := l;
     lookup := lookup bm; nextEl := nextEl bm |}.
Definition set_lookup (lk : gmap config.PageId Element) (bm : BufferManager) :=
  {| dm := dm bm; frames := frames bm; policy := policy bm; repl := repl bm;
     lookup := lk; nextEl := nextEl bm |}.
Definition set_nextEl (n : nat) (bm : BufferManager) :=
  {| dm := dm bm; frames := frames bm; policy := policy bm; repl := repl bm;
     lookup := lookup bm; nextEl := n |}.

(** [l.MoveToBack(e)] and [l.MoveToFront(e)]; an element that is not in the
    list leaves it unchanged. *)
Definition MoveToBack (e : Element) (l : list Element) : list Element :=
  if decide (e ∈ l) then filter (fun x => x ≠ e) l ++ [e] else l.
Definition MoveToFront (e : Element) (l : list Element) : list Element :=
  if decide (e ∈ l) then e :: filter (fun x => x ≠ e) l else l.

(** The move both the hit path and the eviction path of [GetPage] make. *)
Definition touch (pol : string) (e : Element) (l : list Element) : list Element :=
  if decide (pol = PolicyLRU) then MoveToBack e l else MoveToFront e l.

(** The element the eviction path picks: [Front()] under LRU, [Back()]
    otherwise. *)
Definition victimOf (pol : string) (l : list Element) : option Element :=
  if decide (pol = PolicyLRU) then head l else last l.

Definition isFree (f : BufferFrame) : bool :=
  bool_decide (PinCount f = 0) &&
  (bool_decide (FileIdx (PageId f) = -1) && bool_decide (PageIdx (PageId f) = -1)).

(** First frame, in index order, that is unpinned and holds the sentinel. *)
Fixpoint findFree (fs : list BufferFrame) : option nat :=
  match fs with
  | [] => None
  | f :: rest => if isFree f then Some O else S <$> findFree rest
  end.

(** The frame after [copy(f.Data, data); f.PageId = pid; f.PinCount = 1;
    f.Dirty = false]. *)
Definition loadInto (f : BufferFrame) (pid : config.PageId) (data : list byte) : BufferFrame :=
  {| PageId := pid; Data := copy (Data f) data; PinCount := 1; Dirty := false |}.

Definition pin (f : BufferFrame) : BufferFrame :=
  {| PageId := PageId f; Data := Data f; PinCount := PinCount f + 1; Dirty := Dirty f |}.

Definition GetPage (pid : config.PageId) (bm : BufferManager) : res nat * BufferManager :=
  match lookup bm !! pid with
  | Some el =>
      let bm1 := set_repl (touch (policy bm) el (repl bm)) bm in
      match frames bm1 !! Value el with
      | None => (Err Panic, bm1)
      | Some fr => (Ok (Value el), set_frames (<[Value el := pin fr]> (frames bm1)) bm1)
      end
  | None =>
      match findFree (frames bm) with
      | Some i =>
          match frames bm !! i with
          | None => (Err Panic, bm)
          | Some f =>
              match disk.ReadPage pid (dm bm) with
              | (Err e, d1) => (Err e, set_dm d1 bm)
              | (Ok data, d1) =>
                  let el := {| elId := nextEl bm; Value := i |} in
                  (Ok i,
                   set_lookup (<[pid := el]> (lookup bm))
                     (set_nextEl (S (nextEl bm))
                        (set_repl (repl bm ++ [el])
                           (set_frames (<[i := loadInto f pid data]> (frames bm))
                              (set_dm d1 bm)))))
              end
          end
      | None =>
          match victimOf (policy bm) (repl bm) with
          | None => (Err ErrNoFrame, bm)
          | Some victimEl =>
              match frames bm !! Value victimEl with
              | None => (Err Panic, bm)
              | Some victim =>
                  if decide (PinCount victim ≠ 0) then (Err ErrAllFramesPinned, bm)
                  else
                    let wb := if Dirty victim
                              then disk.WritePage (PageId victim) (Data victim) (dm bm)
                              else (Ok tt, dm bm) in
                    match wb with
                    | (Err e, d1) => (Err e, set_dm d1 bm)
                    | (Ok _, d1) =>
                        let bm1 := set_lookup (delete (PageId victim) (lookup bm))
                                     (set_dm d1 bm) in
                        match disk.ReadPage pid d1 with
                        | (Err e, d2) => (Err e, set_dm d2 bm1)
                        | (Ok data, d2) =>
                            (Ok (Value victimEl),
                             set_lookup (<[pid := victimEl]> (lookup bm1))
                               (set_repl (touch (policy bm) victimEl (repl bm))
                                  (set_frames
                                     (<[Value victimEl := loadInto victim pid data]> (frames bm))
                                     (set_dm d2 bm1))))
                        end
                    end
              end
          end
      end
  end.

(** [if f.PinCount > 0 { f.PinCount-- }; if valdirty { f.Dirty = true }] *)
Definition unpin (valdirty : bool) (f : BufferFrame) : BufferFrame :=
  {| PageId := PageId f; Data := Data f;
     PinCount := if 0 <? PinCount f then PinCount f - 1 else PinCount f;
     Dirty := if valdirty then true else Dirty f |}.

Definition FreePage (pid : config.PageId) (valdirty : bool) (bm : BufferManager)
  : res unit * BufferManager :=
  match lookup bm !! pid with
  | None => (Err ErrNotResident, bm)
  | Some el =>
      match frames bm !! Value el with
      | None => (Err Panic, bm)
      | Some f => (Ok tt, set_frames (<[Value el := unpin valdirty f]> (frames bm)) bm)
      end
  end.

Definition SetCurrentReplacementPolicy (pol : string) (bm : BufferManager) : BufferManager :=
  {| dm := dm bm; frames := frames bm; policy := pol; repl := repl bm;
     lookup := lookup bm; nextEl := nextEl bm |}.

(** The end of one iteration of [FlushBuffers]: [f.PageId = (-1,-1);
    f.PinCount = 0; f.Data[i] = 0] for every [i].  The dirty bit is not
    assigned here. *)
Definition resetFrame (f : BufferFrame) : BufferFrame :=
  {| PageId := empty; Data := zeros (length (Data f)); PinCount := 0; Dirty := Dirty f |}.

Definition clean (f : BufferFrame) : BufferFrame :=
  {| PageId := PageId f; Data := Data f; PinCount := PinCount f; Dirty := false |}.

(** [config.PageId{}], the zero value the loop of [FlushBuffers] compares
    with. *)
Definition zeroPageId : config.PageId := {| FileIdx := 0; PageIdx := 0 |}.

(** [for _, f := range bm.frames { ... }] of [FlushBuffers]: the frames
    after the loop (those after a failed write are untouched), and the disk
    manager. *)
Fixpoint flushFrames (fs : list BufferFrame) (d : disk.DiskManager)
  : res unit * list BufferFrame * disk.DiskManager :=
  match fs with
  | [] => (Ok tt, [], d)
  | f :: rest =>
      if Dirty f && negb (bool_decide (PageId f = zeroPageId)) then
        match disk.WritePage (PageId f) (Data f) d with
        | (Err e, d1) => (Err e, f :: rest, d1)
        | (Ok _, d1) =>
            let '(r, rest', d2) := flushFrames rest d1 in
            (r, resetFrame (clean f) :: rest', d2)
        end
      else
        let '(r, rest', d1) := flushFrames rest d in
        (r, resetFrame f :: rest', d1)
  end.

Definition FlushBuffers (bm : BufferManager) : res unit * BufferManager :=
  match flushFrames (frames bm) (dm bm) with
  | (Err e, fs, d) => (Err e, set_frames fs (set_dm d bm))
  | (Ok _, fs, d) =>
      (Ok tt, set_lookup ∅ (set_repl [] (set_frames fs (set_dm d bm))))
  end.

End buffer.

(** ** Package relation: the record codec *)

Module relation.
Import config strconv.

Inductive ColumnKind := KindInt | KindFloat | KindChar | KindVarchar.

Record ColumnInfo := { Name : string; Kind : ColumnKind; Size : Z }.

Record Relation := { RelName : string; Columns : list ColumnInfo; RecordSize : Z }.

Record Record_ := { Values : list gostring }.

Definition width (c : ColumnInfo) : Z :=
  match Kind c with
  | KindInt | KindFloat => 4
  | KindChar | KindVarchar => Size c
  end.

Definition NewRelation (name : string) (cols : list ColumnInfo) : Relation :=
  {| RelName := name; Columns := cols;
     RecordSize := foldl (fun sz c => sz + width c) 0 cols |}.

(** *** Integer conversions and little-endian words *)

Definition uint32 (v : Z) : Z := v mod 2 ^ 32.
Definition int32 (v : Z) : Z := (v + 2 ^ 31) mod 2 ^ 32 - 2 ^ 31.

Definition le32 (u : Z) : list byte :=
  [u mod 256; (u / 256) mod 256; (u / 65536) mod 256; (u / 16777216) mod 256].

Definition ofLe32 (bs : list byte) : Z :=
  match bs with
  | [b0; b1; b2; b3] => b0 + 256 * b1 + 65536 * b2 + 16777216 * b3
  | _ => 0
  end.

(** [buf[off:off+len bs]] overwritten with [bs]; the caller checks the
    bounds. *)
Definition store (buf : list byte) (off : nat) (bs : list byte) : list byte :=
  take off buf ++ bs ++ drop (off + length bs) buf.

Definition slice (buf : list byte) (off n : nat) : list byte :=
  take n (drop off buf).

Section Codec.

(** The floating-point library calls of the codec, kept abstract:
    [ParseFloat32 s] is [math.Float32bits(float32(f))] when
    [strconv.ParseFloat(s, 32)] returns [f] without error, and
    [FormatG bits] is [fmt.Sprintf("%g", math.Float32frombits(bits))]. *)
Variable ParseFloat32 : gostring -> option Z.
Variable FormatG : Z -> gostring.

(** The bytes one field occupies, or the error of the field.  For
    CHAR/VARCHAR: [b[:Size]] when the value is longer, then zero
    padding. *)
Definition encodeField (col : ColumnInfo) (val : gostring) : res (list byte) :=
  match Kind col with
  | KindInt =>
      match Atoi val with
      | None => Err ErrBadFieldInt
      | Some v => Ok (le32 (uint32 (int32 v)))
      end
  | KindFloat =>
      match ParseFloat32 val with
      | None => Err ErrBadFieldFloat
      | Some bits => Ok (le32 bits)
      end
  | KindChar | KindVarchar =>
      if Size col <? 0 then Err Panic
      else
        let b := if Size col <? Z.of_nat (length val)
                 then take (Z.to_nat (Size col)) val else val in
        Ok (b ++ zeros (Z.to_nat (Size col) - length b))
  end.

(** The loop of [WriteRecordToBuffer]; [off] is the running offset.  A
    field that fails leaves the fields before it written. *)
Fixpoint writeFields (cols : list ColumnInfo) (vals : list gostring)
         (buff : list byte) (off : nat) : res unit * list byte :=
  match cols with
  | [] => (Ok tt, buff)
  | col :: cols' =>
      match vals with
      | [] => (Err Panic, buff)
      | val :: vals' =>
          match encodeField col val with
          | Err e => (Err e, buff)
          | Ok bs =>
              if (off + length bs <=? length buff)%nat
              then writeFields cols' vals' (store buff off bs) (off + length bs)%nat
              else (Err Panic, buff)
          end
      end
  end.

Definition WriteRecordToBuffer (r : Relation) (rec : Record_) (buff : list byte) (pos : Z)
  : res unit * list byte :=
  if decide (length (Values rec) ≠ length (Columns r)) then (Err ErrArity, buff)
  else if (pos <? 0) || (Z.of_nat (length buff) <? pos + RecordSize r)
  then (Err ErrBadBuffer, buff)
  else writeFields (Columns r) (Values rec) buff (Z.to_nat pos).

(** [string(b[:end])] with [end] the index of the first zero byte of [b],
    or its length. *)
Fixpoint trimAtZero (b : list byte) : gostring :=
  match b with
  | [] => []
  | c :: rest => if decide (c = 0) then [] else c :: trimAtZero rest
  end.

Definition decodeField (col : ColumnInfo) (bs : list byte) : gostring :=
  match Kind col with
  | KindInt => FormatInt (int32 (ofLe32 bs))
  | KindFloat => FormatG (ofLe32 bs)
  | KindChar | KindVarchar => trimAtZero bs
  end.

Fixpoint readFields (cols : list ColumnInfo) (buff : list byte) (off : nat)
  : res (list gostring) :=
  match cols with
  | [] => Ok []
  | col :: cols' =>
      if width col <? 0 then Err Panic
      else
        let w := Z.to_nat (width col) in
        if (off + w <=? length buff)%nat then
          match readFields cols' buff (off + w)%nat with
          | Err e => Err e
          | Ok vs => Ok (decodeField col (slice buff off w) :: vs)
          end
        else Err Panic
  end.

Definition ReadFromBuffer (r : Relation) (buff : list byte) (pos : Z) : res Record_ :=
  if (pos <? 0) || (Z.of_nat (length buff) <? pos + RecordSize r)
  then Err ErrBadBuffer
  else
    match readFields (Columns r) buff (Z.to_nat pos) with
    | Err e => Err e
    | Ok vs => Ok {| Values := vs |}
    end.

End Codec.

(** *** The heap-file manager

    [bm] is the buffer manager [rm.bm] points to; [rm.dm] and [rm.bm.dm]
    are the same disk manager, [buffer.dm (bm rm)].  [hdrFile] is the
    contents of [BinData/<name>.hdr], [None] when the file is missing. *)
Record RelationManager := {
  Rel : Relation;
  HeaderPageId : config.PageId;
  SlotsPerPage : Z;
  bm : buffer.BufferManager;
  hdrFile : option (list byte);
}.

Record RecordId := { PageId : config.PageId; SlotIdx : Z }.

Definition invalidPage : config.PageId := {| FileIdx := -1; PageIdx := -1 |}.

Definition set_bm (b : buffer.BufferManager) (rm : RelationManager) :=
  {| Rel := Rel rm; HeaderPageId := HeaderPageId rm; SlotsPerPage := SlotsPerPage rm;
     bm := b; hdrFile := hdrFile rm |}.
Definition set_HeaderPageId (p : config.PageId) (rm : RelationManager) :=
  {| Rel := Rel rm; HeaderPageId := p; SlotsPerPage := SlotsPerPage rm;
     bm := bm rm; hdrFile := hdrFile rm |}.
Definition set_SlotsPerPage (n : Z) (rm : RelationManager) :=
  {| Rel := Rel rm; HeaderPageId := HeaderPageId rm; SlotsPerPage := n;
     bm := bm rm; hdrFile := hdrFile rm |}.
Definition set_hdrFile (f : option (list byte)) (rm : RelationManager) :=
  {| Rel := Rel rm; HeaderPageId := HeaderPageId rm; SlotsPerPage := SlotsPerPage rm;
     bm := bm rm; hdrFile := f |}.

(** Methods of the manager: state passing with early exit on an error. *)
Definition M (A : Type) : Type := RelationManager -> res A * RelationManager.

#[export] Instance M_ret : MRet M := fun A a rm => (Ok a, rm).
#[export] Instance M_bind : MBind M := fun A B k c rm =>
  match c rm with
  | (Ok a, rm1) => k a rm1
  | (Err e, rm1) => (Err e, rm1)
  end.

Definition fail {A} (e : error) : M A := fun rm => (Err e, rm).
Definition get : M RelationManager := fun rm => (Ok rm, rm).
Definition modify (f : RelationManager -> RelationManager) : M unit :=
  fun rm => (Ok tt, f rm).
Definition liftRes {A} (r : res A) : M A := fun rm => (r, rm).
(** [_ = call(...)]: the error of the call is dropped. *)
Definition ignoreErr {A} (c : M A) : M unit := fun rm => (Ok tt, (c rm).2).

Definition GetPage (pid : config.PageId) : M nat := fun rm =>
  let '(r, b) := buffer.GetPage pid (bm rm) in (r, set_bm b rm).
Definition FreePage (pid : config.PageId) (valdirty : bool) : M unit := fun rm =>
  let '(r, b) := buffer.FreePage pid valdirty (bm rm) in (r, set_bm b rm).
Definition AllocatePage : M config.PageId := fun rm =>
  let '(r, d) := disk.AllocatePage (buffer.dm (bm rm)) in
  (r, set_bm (buffer.set_dm d (bm rm)) rm).

(** Access to a frame through the pointer [bf] that [GetPage] returned. *)
Definition frameData (bf : nat) : M (list byte) := fun rm =>
  match buffer.frames (bm rm) !! bf with
  | Some f => (Ok (buffer.Data f), rm)
  | None => (Err Panic, rm)
  end.
Definition updFrame (bf : nat) (g : buffer.BufferFrame -> buffer.BufferFrame) : M unit :=
  modify (fun rm =>
    set_bm (buffer.set_frames (alter g bf (buffer.frames (bm rm))) (bm rm)) rm).
Definition setFrameData (bf : nat) (d : list byte) : M unit :=
  updFrame bf (fun f => {| buffer.PageId := buffer.PageId f; buffer.Data := d;
                           buffer.PinCount := buffer.PinCount f;
                           buffer.Dirty := buffer.Dirty f |}).
(** [bf.Dirty = true] *)
Definition setDirty (bf : nat) : M unit :=
  updFrame bf (fun f => {| buffer.PageId := buffer.PageId f; buffer.Data := buffer.Data f;
                           buffer.PinCount := buffer.PinCount f;
                           buffer.Dirty := true |}).

(** [binary.LittleEndian.Uint32(d[off:off+4])]; the slice expression
    panics when it is out of range. *)
Definition Uint32At (d : list byte) (off : nat) : res Z :=
  if (off + 4 <=? length d)%nat then Ok (ofLe32 (slice d off 4)) else Err Panic.
Definition readInt32 (d : list byte) (off : nat) : res Z :=
  match Uint32At d off with
  | Ok u => Ok (int32 u)
  | Err e => Err e
  end.
(** [binary.LittleEndian.PutUint32(d[off:off+4], u)] *)
Definition PutUint32At (d : list byte) (off : nat) (u : Z) : res (list byte) :=
  if (off + 4 <=? length d)%nat then Ok (store d off (le32 u)) else Err Panic.
Definition writeInt32 (d : list byte) (off : nat) (v : Z) : res (list byte) :=
  PutUint32At d off (uint32 v).
(** [d[i]] and [d[i] = v] for a non-negative or negative index. *)
Definition byteAt (d : list byte) (i : Z) : res byte :=
  if i <? 0 then Err Panic
  else match d !! Z.to_nat i with Some b => Ok b | None => Err Panic end.
Definition setByte (d : list byte) (i : Z) (v : byte) : res (list byte) :=
  if (i <? 0) || (Z.of_nat (length d) <=? i) then Err Panic
  else Ok (<[Z.to_nat i := v]> d).

(** [if fx == -1 && fy == -1 { invalidPage } else { PageId{fx, fy} }] *)
Definition pageOf (fx fy : Z) : config.PageId :=
  if decide (fx = -1 /\ fy = -1) then invalidPage
  else {| FileIdx := fx; PageIdx := fy |}.

(** The two words a pointer slot receives: [-1, -1] for the sentinel,
    otherwise [uint32] of each index. *)
Definition putPageId (d : list byte) (off : nat) (p : config.PageId) : res (list byte) :=
  if decide (p = invalidPage) then
    match writeInt32 d off (-1) with
    | Ok d1 => writeInt32 d1 (off + 4) (-1)
    | Err e => Err e
    end
  else
    match PutUint32At d off (uint32 (FileIdx p)) with
    | Ok d1 => PutUint32At d1 (off + 4) (uint32 (PageIdx p))
    | Err e => Err e
    end.

(** [int(math.Floor(float64(pageSize-20) / float64(1+recordSize)))]: the
    floor of the quotient, which the [float64] division gives exactly for
    operands below [2^53] and a divisor other than 0. *)
Definition computeSlotsPerPage (pageSize recordSize : Z) : Z :=
  (pageSize - 20) / (1 + recordSize).

Definition dmPageSize (rm : RelationManager) : Z :=
  PageSize (disk.cfg (buffer.dm (bm rm))).

Definition saveHeaderLocation (pid : config.PageId) : M unit :=
  modify (set_hdrFile (Some (le32 (uint32 (FileIdx pid)) ++ le32 (uint32 (PageIdx pid))))).

Definition NewRelationManager (rel : Relation) (b : buffer.BufferManager)
           (hdr : option (list byte)) : res RelationManager :=
  let rm0 := {| Rel := rel; HeaderPageId := invalidPage; SlotsPerPage := 0;
                bm := b; hdrFile := hdr |} in
  match hdr with
  | None => Ok rm0
  | Some data =>
      if (length data <? 8)%nat then Err ErrInvalidHeader
      else
        let hp := {| FileIdx := int32 (ofLe32 (slice data 0 4));
                     PageIdx := int32 (ofLe32 (slice data 4 4)) |} in
        let rm1 := set_HeaderPageId hp rm0 in
        if decide (hp ≠ invalidPage)
        then Ok (set_SlotsPerPage
                   (computeSlotsPerPage (dmPageSize rm1) (RecordSize rel)) rm1)
        else Ok rm1
  end.

Definition pageNext (pid : config.PageId) : M config.PageId :=
  bf ← GetPage pid;
  d ← frameData bf;
  fx ← liftRes (readInt32 d 8);
  fy ← liftRes (readInt32 d 12);
  FreePage pid false;;
  mret (pageOf fx fy).

Definition pageSetNext (pid next : config.PageId) : M unit :=
  bf ← GetPage pid;
  d ← frameData bf;
  d1 ← liftRes (putPageId d 8 next);
  setFrameData bf d1;;
  setDirty bf;;
  FreePage pid true.

(** Reads the list head stored at [off] of the header page; [off] is 8
    for the with-space list and 0 for the full list. *)
Definition headerRead (off : nat) (strict : bool) : M config.PageId :=
  rm ← get;
  hbf ← GetPage (HeaderPageId rm);
  d ← frameData hbf;
  fx ← liftRes (readInt32 d off);
  fy ← liftRes (readInt32 d (off + 4));
  (if strict then FreePage (HeaderPageId rm) false
   else ignoreErr (FreePage (HeaderPageId rm) false));;
  mret (pageOf fx fy).

Definition headerFirstWithSpace : M config.PageId :=
  rm ← get;
  if decide (HeaderPageId rm = invalidPage) then mret invalidPage
  else headerRead 8 true.

Definition headerWrite (off : nat) (pid : config.PageId) : M unit :=
  rm ← get;
  hbf ← GetPage (HeaderPageId rm);
  d ← frameData hbf;
  d1 ← liftRes (putPageId d off pid);
  setFrameData hbf d1;;
  setDirty hbf;;
  FreePage (HeaderPageId rm) true.

Definition headerSetFirstWithSpace (pid : config.PageId) : M unit :=
  rm ← get;
  if decide (HeaderPageId rm = invalidPage) then fail ErrHeaderUninit
  else headerWrite 8 pid.

(** [for i := 0; i < slots; i++ { if d[20+i] == 0 ... }]: the first free
    slot, [None] when every byte is set; the scan panics when it runs
    past the end of the page. *)
Definition scanBytemap (d : list byte) (slots : Z) : res (option nat) :=
  match disk.firstZero (slice d 20 (Z.to_nat slots)) with
  | Some i => Ok (Some i)
  | None =>
      if (0 <? slots) && (Z.of_nat (length d) <? 20 + slots) then Err Panic
      else Ok None
  end.

Definition firstFreeSlotInPage (pid : config.PageId) : M Z :=
  bf ← GetPage pid;
  d ← frameData bf;
  slots ← liftRes (Uint32At d 16);
  r ← liftRes (scanBytemap d slots);
  FreePage pid false;;
  mret (match r with Some i => Z.of_nat i | None => -1 end).

(** Four [writeInt32] calls in a row, then a fifth. *)
Definition writeInt32s (d : list byte) (ws : list (nat * Z)) : res (list byte) :=
  foldl (fun acc w => match acc with
                      | Ok d1 => writeInt32 d1 w.1 w.2
                      | Err e => Err e
                      end) (Ok d) ws.

Definition addDataPage : M config.PageId :=
  pid ← AllocatePage;
  rm ← get;
  let slots := computeSlotsPerPage (dmPageSize rm) (RecordSize (Rel rm)) in
  if slots <=? 0 then fail ErrPageTooSmall
  else
    bf ← GetPage pid;
    d ← frameData bf;
    d1 ← liftRes (writeInt32s d [(0%nat, -1); (4%nat, -1); (8%nat, -1);
                                 (12%nat, -1); (16%nat, int32 slots)]);
    d2 ← liftRes (if Z.of_nat (length d1) <? 20 + slots then Err Panic
                  else Ok (store d1 20 (zeros (Z.to_nat slots))));
    setFrameData bf d2;;
    setDirty bf;;
    FreePage pid true;;
    (if decide (HeaderPageId rm = invalidPage) then
       hpid ← AllocatePage;
       hbf ← GetPage hpid;
       hd ← frameData hbf;
       hd1 ← liftRes (writeInt32s hd [(0%nat, -1); (4%nat, -1);
                                      (8%nat, int32 (FileIdx pid));
                                      (12%nat, int32 (PageIdx pid))]);
       setFrameData hbf hd1;;
       setDirty hbf;;
       FreePage hpid true;;
       modify (set_HeaderPageId hpid);;
       saveHeaderLocation hpid
     else
       hbf ← GetPage (HeaderPageId rm);
       hd ← frameData hbf;
       oldFx ← liftRes (readInt32 hd 8);
       oldFy ← liftRes (readInt32 hd 12);
       hd1 ← liftRes (writeInt32s hd [(8%nat, int32 (FileIdx pid));
                                      (12%nat, int32 (PageIdx pid))]);
       setFrameData hbf hd1;;
       setDirty hbf;;
       FreePage (HeaderPageId rm) true;;
       npbf ← GetPage pid;
       nd ← frameData npbf;
       nd1 ← liftRes (writeInt32s nd [(8%nat, oldFx); (12%nat, oldFy)]);
       setFrameData npbf nd1;;
       setDirty npbf;;
       FreePage pid true);;
    modify (set_SlotsPerPage slots);;
    mret pid.

Definition EnsureHeader : M unit :=
  rm ← get;
  if decide (HeaderPageId rm ≠ invalidPage) then mret tt
  else addDataPage;; mret tt.

(** [for prev != invalidPage { ... }] of [unlinkFromWithSpace] and
    [unlinkFromFull]: walk to the predecessor of [target] and bypass it.
    [fuel] bounds the number of iterations. *)
Fixpoint unlinkWalk (fuel : nat) (target prev : config.PageId) : M unit :=
  match fuel with
  | O => fail OutOfFuel
  | S fuel' =>
      if decide (prev = invalidPage) then mret tt
      else
        curNext ← pageNext prev;
        if decide (curNext = target) then
          tnext ← pageNext target;
          pageSetNext prev tnext
        else unlinkWalk fuel' target curNext
  end.

Definition unlinkFromWithSpace (fuel : nat) (target : config.PageId) : M unit :=
  head ← headerFirstWithSpace;
  if decide (head = invalidPage) then mret tt
  else if decide (head = target) then
    nx ← pageNext head;
    headerSetFirstWithSpace nx
  else unlinkWalk fuel target head.

Definition prependToFullList (pid : config.PageId) : M unit :=
  rm ← get;
  if decide (HeaderPageId rm = invalidPage) then fail ErrHeaderUninit
  else
    old ← headerRead 0 false;
    if decide (old = pid) then mret tt
    else
      pageSetNext pid old;;
      hbf2 ← GetPage (HeaderPageId rm);
      d ← frameData hbf2;
      d1 ← liftRes (PutUint32At d 0 (uint32 (FileIdx pid)));
      d2 ← liftRes (PutUint32At d1 4 (uint32 (PageIdx pid)));
      setFrameData hbf2 d2;;
      setDirty hbf2;;
      FreePage (HeaderPageId rm) true.

Definition unlinkFromFull (fuel : nat) (target : config.PageId) : M unit :=
  rm ← get;
  if decide (HeaderPageId rm = invalidPage) then mret tt
  else
    head ← headerRead 0 false;
    if decide (head = invalidPage) then mret tt
    else if decide (head = target) then
      nx ← pageNext head;
      headerWrite 0 nx
    else unlinkWalk fuel target head.

Definition prependToWithSpace (pid : config.PageId) : M unit :=
  rm ← get;
  if decide (HeaderPageId rm = invalidPage) then fail ErrHeaderUninit
  else
    old ← headerRead 8 false;
    if decide (old = pid) then mret tt
    else
      pageSetNext pid old;;
      headerSetFirstWithSpace pid.

Section Insert.

(** The float parser of the codec, as in [Codec]. *)
Variable ParseFloat32 : gostring -> option Z.

(** The slot write of [InsertRecord] once [firstFreeSlotInPage] returned
    [slot >= 0]. *)
Definition insertAt (fuel : nat) (rec : Record_) (pid : config.PageId) (slot : Z)
  : M RecordId :=
  rm ← get;
  bf ← GetPage pid;
  d ← frameData bf;
  slots ← liftRes (Uint32At d 16);
  let pos := 20 + slots + slot * RecordSize (Rel rm) in
  match WriteRecordToBuffer ParseFloat32 (Rel rm) rec d pos with
  | (Err e, d1) =>
      setFrameData bf d1;;
      ignoreErr (FreePage pid false);;
      fail e
  | (Ok _, d1) =>
      d2 ← liftRes (setByte d1 (20 + slot) 1);
      full ← liftRes (scanBytemap d2 slots);
      setFrameData bf d2;;
      setDirty bf;;
      FreePage pid true;;
      (if full is None then
         unlinkFromWithSpace fuel pid;;
         prependToFullList pid
       else mret tt);;
      mret {| PageId := pid; SlotIdx := slot |}
  end.

(** [for pid := cur; pid != invalidPage; { ... }] of [InsertRecord]. *)
Fixpoint insertLoop (fuel : nat) (rec : Record_) (visited : gset config.PageId)
         (pid : config.PageId) : M RecordId :=
  match fuel with
  | O => fail OutOfFuel
  | S fuel' =>
      if decide (pid = invalidPage) then fail ErrCouldNotInsert
      else if decide (pid ∈ visited) then
        npid ← addDataPage;
        insertLoop fuel' rec visited npid
      else
        let visited1 := {[pid]} ∪ visited in
        slot ← firstFreeSlotInPage pid;
        if 0 <=? slot then insertAt fuel' rec pid slot
        else
          next ← pageNext pid;
          if decide (next = invalidPage) then
            npid ← addDataPage;
            insertLoop fuel' rec visited1 npid
          else insertLoop fuel' rec visited1 next
  end.

Definition InsertRecord (fuel : nat) (rec : Record_) : M RecordId :=
  rm ← get;
  (if decide (SlotsPerPage rm = 0)
   then modify (set_SlotsPerPage
                  (computeSlotsPerPage (dmPageSize rm) (RecordSize (Rel rm))))
   else mret tt);;
  (if decide (HeaderPageId rm = invalidPage) then addDataPage;; mret tt else mret tt);;
  cur ← headerFirstWithSpace;
  cur1 ← (if decide (cur = invalidPage) then addDataPage else mret cur);
  insertLoop fuel rec ∅ cur1.

End Insert.

Definition DeleteRecord (fuel : nat) (rid : RecordId) : M unit :=
  rm ← get;
  let pid := PageId rid in
  bf ← GetPage pid;
  d ← frameData bf;
  slots ← liftRes (Uint32At d 16);
  if (SlotIdx rid <? 0) || (slots <=? SlotIdx rid) then
    ignoreErr (FreePage pid false);; fail ErrInvalidSlot
  else
    b ← liftRes (byteAt d (20 + SlotIdx rid));
    if decide (b = 0) then
      ignoreErr (FreePage pid false);; fail ErrSlotFree
    else
      d1 ← liftRes (setByte d (20 + SlotIdx rid) 0);
      let rs := RecordSize (Rel rm) in
      let start := 20 + slots + SlotIdx rid * rs in
      d2 ← liftRes (if (0 <? rs) && (Z.of_nat (length d1) <? start + rs)
                    then Err Panic
                    else Ok (store d1 (Z.to_nat start) (zeros (Z.to_nat rs))));
      setFrameData bf d2;;
      setDirty bf;;
      FreePage pid true;;
      slot ← firstFreeSlotInPage pid;
      if 0 <=? slot then
        unlinkFromFull fuel pid;;
        prependToWithSpace pid
      else mret tt.

(** [for pid := head; pid != invalidPage; { ... }] of [AllPageIds]: the walk
    stops at the sentinel and at a page it has visited; [fuel] bounds the
    number of iterations. *)
Fixpoint collectPages (fuel : nat) (pid : config.PageId)
         (visited : gset config.PageId) (out : list config.PageId)
  : M (gset config.PageId * list config.PageId) :=
  match fuel with
  | O => fail OutOfFuel
  | S fuel' =>
      if decide (pid = invalidPage) then mret (visited, out)
      else if decide (pid ∈ visited) then mret (visited, out)
      else
        nx ← pageNext pid;
        collectPages fuel' nx ({[pid]} ∪ visited) (out ++ [pid])
  end.

Definition AllPageIds (fuel : nat) : M (list config.PageId) :=
  rm ← get;
  if decide (HeaderPageId rm = invalidPage) then mret []
  else
    whead ← headerFirstWithSpace;
    r ← collectPages fuel whead ∅ [];
    fhead ← headerRead 0 false;
    r2 ← collectPages fuel fhead r.1 r.2;
    mret r2.2.

Section Scan.

(** The formatter of the codec, as in [Codec]. *)
Variable FormatG : Z -> gostring.

(** [for i := 0; i < slots; i++ { if bf.Data[20+i] == 1 { ... } }] of
    [recordsInDataPage], from slot [i] on, with [n] slots to go: the records
    of the occupied slots, in slot order.  [Err Panic] is an index out of
    range; another error is the one [ReadFromBuffer] returned. *)
Fixpoint readSlots (r : Relation) (d : list byte) (dataStart : Z) (i : Z) (n : nat)
  : res (list Record_) :=
  match n with
  | O => Ok []
  | S n' =>
      match byteAt d (20 + i) with
      | Err e => Err e
      | Ok b =>
          if decide (b = 1) then
            match ReadFromBuffer FormatG r d (dataStart + i * RecordSize r) with
            | Err e => Err e
            | Ok rec =>
                match readSlots r d dataStart (i + 1) n' with
                | Err e => Err e
                | Ok recs => Ok (rec :: recs)
                end
            end
          else readSlots r d dataStart (i + 1) n'
      end
  end.

(** [recordsInDataPage]: the records of the page and its successor.  The
    page is released before the error of [ReadFromBuffer] is returned. *)
Definition recordsInDataPage (pid : config.PageId) : M (list Record_ * config.PageId) :=
  rm ← get;
  bf ← GetPage pid;
  d ← frameData bf;
  slots ← liftRes (Uint32At d 16);
  match readSlots (Rel rm) d (20 + slots) 0 (Z.to_nat slots) with
  | Err Panic => fail Panic
  | Err e => ignoreErr (FreePage pid false);; fail e
  | Ok recs =>
      nx ← liftRes (readInt32 d 8);
      ny ← liftRes (readInt32 d 12);
      FreePage pid false;;
      mret (recs, pageOf nx ny)
  end.

(** [for pid := head; pid != invalidPage; { ... }] of [GetAllRecords]: no
    page is remembered; [fuel] bounds the number of iterations. *)
Fixpoint recordsLoop (fuel : nat) (pid : config.PageId) (out : list Record_)
  : M (list Record_) :=
  match fuel with
  | O => fail OutOfFuel
  | S fuel' =>
      if decide (pid = invalidPage) then mret out
      else
        r ← recordsInDataPage pid;
        recordsLoop fuel' r.2 (out ++ r.1)
  end.

Definition GetAllRecords (fuel : nat) : M (list Record_) :=
  rm ← get;
  if decide (HeaderPageId rm = invalidPage) then mret []
  else
    whead ← headerFirstWithSpace;
    out ← recordsLoop fuel whead [];
    fhead ← headerRead 0 false;
    recordsLoop fuel fhead out.

End Scan.

End relation.

(** * Specification vocabulary *)

Module disk_spec.
Import config disk.

(** A page identifier the range checks accept: file index within
    [DMMaxFileCount] and page index within the bitmap of the segment once it
    is loaded. *)
Definition validPage (pid : PageId) (m : DiskManager) : Prop :=
  0 <= FileIdx pid < DMMaxFileCount (cfg m) /\
  0 <= PageIdx pid <
    Z.of_nat (length (bitmap (FileIdx pid) (ensureLoaded (FileIdx pid) m))).

(** Every segment with a page in its bitmap, loaded or on disk, has its data
    file. *)
Definition consistent (m : DiskManager) : Prop :=
  forall idx bmp,
    (bitmaps m !! idx = Some bmp \/ bitmapFiles m !! idx = Some bmp) ->
    bmp <> [] -> is_Some (dataFiles m !! idx).

(** The contents of a segment file after page number [n] received [data]:
    the file is first extended with zeros up to the page, then comes [data]
    followed by zeros, then what the file held after the page. *)
Definition withPage (file : list byte) (ps n : nat) (data : list byte) : list byte :=
  take (n * ps) (file ++ zeros (n * ps - length file))
    ++ (data ++ zeros (ps - length data))
    ++ drop (n * ps + ps) file.

(** What a call accepted by [WritePage] satisfies. *)
Definition accepted (pid : PageId) (data : list byte) (m : DiskManager) : Prop :=
  Z.of_nat (length data) <= PageSize (cfg m) /\ validPage pid m.

(** Two segments, four-byte pages: the state after [Init] and after three
    allocations. *)
Definition cfg2 : DBConfig :=
  {| PageSize := 4; DMMaxFileCount := 2; BMBufferCount := 2; BMPolicy := "LRU" |}.
Definition fresh2 : DiskManager := Init (NewDiskManager cfg2).
Definition three2 : DiskManager :=
  (AllocatePage (AllocatePage (AllocatePage fresh2).2).2).2.

End disk_spec.

Module buffer_spec.
Import config buffer.

(** A caller writing [d] into the page through the frame pointer [bf] that
    [GetPage] returned: [copy(bf.Data, d)]. *)
Definition poke (bf : nat) (d : list byte) (bm : BufferManager) : BufferManager :=
  set_frames
    (alter (fun f => {| PageId := PageId f; Data := copy (Data f) d;
                        PinCount := PinCount f; Dirty := Dirty f |}) bf (frames bm)) bm.

(** The pool with every pin count set to 0. *)
Definition unpinned (f : BufferFrame) : BufferFrame :=
  {| PageId := PageId f; Data := Data f; PinCount := 0; Dirty := Dirty f |}.
Definition clearPins (bm : BufferManager) : BufferManager :=
  set_frames (unpinned <$> frames bm) bm.

(** A frame as [FlushBuffers] leaves it: sentinel, unpinned, zeroed. *)
Definition isReset (f : BufferFrame) : Prop :=
  PageId f = empty /\ PinCount f = 0 /\ Data f = zeros (length (Data f)).

(** Sequences of [GetPage] and [FreePage] calls, and the log of the calls
    that returned without error, most recent first.  A successful [GetPage]
    is logged as a load when the page was not resident and as a hit when it
    was. *)
Inductive op :=
| OpGet (pid : config.PageId)
| OpFree (pid : config.PageId) (valdirty : bool).

Inductive event :=
| EvLoad (pid : config.PageId)
| EvHit (pid : config.PageId)
| EvFree (pid : config.PageId).

Definition step (s : BufferManager * list event) (o : op) : BufferManager * list event :=
  let '(bm, log) := s in
  match o with
  | OpGet pid =>
      match GetPage pid bm with
      | (Ok _, bm1) =>
          (bm1, (if lookup bm !! pid is Some _ then EvHit pid else EvLoad pid) :: log)
      | (Err _, bm1) => (bm1, log)
      end
  | OpFree pid valdirty =>
      match FreePage pid valdirty bm with
      | (Ok _, bm1) => (bm1, EvFree pid :: log)
      | (Err _, bm1) => (bm1, log)
      end
  end.

Definition run (ops : list op) (bm : BufferManager) : BufferManager * list event :=
  foldl step (bm, []) ops.

(** Number of [GetPage] calls minus number of [FreePage] calls on [pid]
    since [pid] was last loaded (the load is the first of the [GetPage]
    calls). *)
Fixpoint balance (pid : config.PageId) (log : list event) : Z :=
  match log with
  | [] => 0
  | EvLoad p :: rest => if decide (p = pid) then 1 else balance pid rest
  | EvHit p :: rest => if decide (p = pid) then balance pid rest + 1 else balance pid rest
  | EvFree p :: rest => if decide (p = pid) then balance pid rest - 1 else balance pid rest
  end.

(** The same count when a [FreePage] at 0 leaves the count at 0. *)
Fixpoint flooredBalance (pid : config.PageId) (log : list event) : Z :=
  match log with
  | [] => 0
  | EvLoad p :: rest => if decide (p = pid) then 1 else flooredBalance pid rest
  | EvHit p :: rest =>
      if decide (p = pid) then flooredBalance pid rest + 1 else flooredBalance pid rest
  | EvFree p :: rest =>
      if decide (p = pid) then Z.max 0 (flooredBalance pid rest - 1)
      else flooredBalance pid rest
  end.

(** Since [pid] was last loaded, [FreePage] was at no point called on it
    more often than [GetPage]: the count is not negative at any point of
    the log back to the last load of [pid]; what the log holds before that
    load does not matter. *)
Fixpoint neverOverFreed (pid : config.PageId) (log : list event) : Prop :=
  match log with
  | [] => True
  | EvLoad p :: rest => if decide (p = pid) then True else neverOverFreed pid rest
  | _ :: rest => 0 <= balance pid log /\ neverOverFreed pid rest
  end.

(** What the pool keeps about its resident pages along a run: a resident
    page is not the sentinel, its element points to a frame that holds that
    very page, and the pin count of the frame is the floored count of the
    log. *)
Definition tracked (bm : BufferManager) (log : list event) : Prop :=
  forall p el,
    lookup bm !! p = Some el ->
    p <> empty /\
    exists f, frames bm !! Value el = Some f /\ PageId f = p /\
              PinCount f = flooredBalance p log.

(** Pin count of the frame of a resident page. *)
Definition pinOf (pid : config.PageId) (bm : BufferManager) : option Z :=
  el ← lookup bm !! pid; f ← frames bm !! Value el; Some (PinCount f).

(** A pool of two frames over a disk with three allocated four-byte pages,
    as [NewBufferManager] returns it. *)
Definition cfgPool (pol : string) : DBConfig :=
  {| PageSize := 4; DMMaxFileCount := 2; BMBufferCount := 2; BMPolicy := pol |}.
Definition pool2 (pol : string) : BufferManager :=
  {| dm := disk_spec.three2;
     frames := replicate 2 {| PageId := empty; Data := zeros 4; PinCount := 0;
                              Dirty := false |};
     policy := pol; repl := []; lookup := ∅; nextEl := O |}.

Definition page (n : Z) : config.PageId := {| FileIdx := 0; PageIdx := n |}.

(** Page 0 is loaded and released twice, one time too many; pages 1 and 2
    then push it out of the pool; it is loaded again, after which a second
    [GetPage] hits it. *)
Definition reloadedTwice : list op :=
  [OpGet (page 0); OpFree (page 0) false; OpFree (page 0) false;
   OpGet (page 1); OpFree (page 1) false; OpGet (page 2); OpFree (page 2) false;
   OpGet (page 0); OpGet (page 0)].

(** Both frames filled with pages 0 and 1 and unpinned, then a hit on page 0
    that is unpinned again. *)
Definition hitOnPage0 : list op :=
  [OpGet (page 0); OpGet (page 1); OpFree (page 0) false; OpFree (page 1) false;
   OpGet (page 0); OpFree (page 0) false].

(** Pages 0 and 1 loaded, overwritten through their frames and released
    dirty. *)
Definition twoDirty : BufferManager :=
  let b1 := (GetPage (page 0) (pool2 "LRU")).2 in
  let b2 := (FreePage (page 0) true (poke 0 [1; 2; 3; 4] b1)).2 in
  let b3 := (GetPage (page 1) b2).2 in
  (FreePage (page 1) true (poke 1 [5; 6; 7; 8] b3)).2.

(** Page 1 loaded and still pinned. *)
Definition onePinned : BufferManager := (GetPage (page 1) (pool2 "LRU")).2.

End buffer_spec.

Module relation_spec.
Import config strconv relation.

(** Total width of a column list, the value [NewRelation] stores in
    [RecordSize]. *)
Definition sumWidths (cols : list ColumnInfo) : Z :=
  foldr (fun c sz => width c + sz) 0 cols.

Section CodecSpec.

Variable ParseFloat32 : gostring -> option Z.
Variable FormatG : Z -> gostring.

(** A field the codec encodes without error and without wrap-around: an INT
    value that [Atoi] parses into the [int32] range, a FLOAT value that parses
    to the 32 bits of a binary32, a CHAR/VARCHAR column of non-negative
    size. *)
Definition encodable (col : ColumnInfo) (val : gostring) : Prop :=
  match Kind col with
  | KindInt => exists v, Atoi val = Some v /\ - 2 ^ 31 <= v < 2 ^ 31
  | KindFloat => exists bits, ParseFloat32 val = Some bits /\ 0 <= bits < 2 ^ 32
  | KindChar | KindVarchar => 0 <= Size col
  end.

(** What a field reads back as: the decimal rendering of the parsed integer,
    the [%g] rendering of the parsed binary32, and for CHAR(n)/VARCHAR(n) the
    first [min(len, n)] bytes of the value cut at their first zero byte. *)
Definition readsBackAs (col : ColumnInfo) (val : gostring) : gostring :=
  match Kind col with
  | KindInt => if Atoi val is Some v then FormatInt v else []
  | KindFloat => if ParseFloat32 val is Some bits then FormatG bits else []
  | KindChar | KindVarchar => trimAtZero (take (Z.to_nat (Size col)) val)
  end.

End CodecSpec.

(** A parser and a formatter for schemas without FLOAT columns. *)
Definition noFloat (s : gostring) : option Z := None.
Definition noFormat (bits : Z) : gostring := [].

Definition intCol (n : string) : ColumnInfo := {| Name := n; Kind := KindInt; Size := 0 |}.
Definition charCol (n : string) (k : Z) : ColumnInfo :=
  {| Name := n; Kind := KindChar; Size := k |}.
Definition varcharCol (n : string) (k : Z) : ColumnInfo :=
  {| Name := n; Kind := KindVarchar; Size := k |}.

End relation_spec.

Module heap_spec.
Import config strconv relation relation_spec.

(** Pages of 30 bytes and records of one INT column: two slots per page.  The
    pool has four frames, so the header page and the two data pages of the
    scenario stay resident. *)
Definition cfg30 : DBConfig :=
  {| PageSize := 30; DMMaxFileCount := 1; BMBufferCount := 4; BMPolicy := "LRU" |}.

Definition rel1 : Relation := NewRelation "t" [intCol "a"].

(** The disk manager after [Init] in an empty directory, the pool
    [NewBufferManager] returns over it and the manager [NewRelationManager]
    returns when there is no header file. *)
Definition disk30 : disk.DiskManager := disk.Init (disk.NewDiskManager cfg30).
Definition pool30 : buffer.BufferManager :=
  {| buffer.dm := disk30;
     buffer.frames := replicate 4 {| buffer.PageId := buffer.empty;
                                     buffer.Data := zeros 30;
                                     buffer.PinCount := 0; buffer.Dirty := false |};
     buffer.policy := "LRU"; buffer.repl := []; buffer.lookup := ∅;
     buffer.nextEl := O |}.
Definition opened : RelationManager :=
  {| Rel := rel1; HeaderPageId := invalidPage; SlotsPerPage := 0;
     bm := pool30; hdrFile := None |}.

(** The manager of a newly created relation: [EnsureHeader] has allocated
    the first data page and the header page. *)
Definition created : RelationManager := (EnsureHeader opened).2.

Definition insert (v : string) : M RecordId :=
  InsertRecord noFloat 16 {| Values := [str v] |}.
Definition delete (p s : Z) : M unit :=
  DeleteRecord 16 {| PageId := {| FileIdx := 0; PageIdx := p |}; SlotIdx := s |}.

Definition dataPage (p : Z) : config.PageId := {| FileIdx := 0; PageIdx := p |}.

(** Four inserts fill data pages (0,0) and (0,2), which puts both on the
    full list; one record is then deleted from each, which brings both pages
    back to the free list. *)
Definition fourInserts : M unit :=
  insert "1";; insert "2";; insert "3";; insert "4";; mret tt.
Definition bothInFreeList : M unit :=
  fourInserts;; delete 0 0;; delete 2 0.

(** A list read through the manager: the pages from [pid] up to the
    sentinel; [OutOfFuel] when the sentinel is not reached in [fuel] steps. *)
Fixpoint walkList (fuel : nat) (pid : config.PageId) : M (list config.PageId) :=
  match fuel with
  | O => fail OutOfFuel
  | S fuel' =>
      if decide (pid = invalidPage) then mret []
      else nx ← pageNext pid; rest ← walkList fuel' nx; mret (pid :: rest)
  end.

Definition fullHead : M config.PageId := headerRead 0 false.

Definition freeList (fuel : nat) : M (list config.PageId) :=
  h ← headerFirstWithSpace; walkList fuel h.
Definition fullList (fuel : nat) : M (list config.PageId) :=
  h ← fullHead; walkList fuel h.

(** The state the scenario reaches, and the state after the third delete,
    which removes the last record of page (0,0) while that page is the
    second page of the free list. *)
Definition twoFull : RelationManager := (fourInserts created).2.
Definition twoFree : RelationManager := (bothInFreeList created).2.
Definition afterThirdDelete : RelationManager := (delete 0 1 twoFree).2.

(** The bytes of a resident page. *)
Definition pageBytes (pid : config.PageId) (rm : RelationManager) : option (list byte) :=
  el ← buffer.lookup (bm rm) !! pid;
  f ← buffer.frames (bm rm) !! buffer.Value el;
  Some (buffer.Data f).

(** The states the walk of the free list goes through after the third
    delete: after reading the head, and after each of the next three
    [pageNext] calls. *)
Definition walk0 : RelationManager := (headerFirstWithSpace afterThirdDelete).2.
Definition walk1 : RelationManager := (pageNext (dataPage 0) walk0).2.
Definition walk2 : RelationManager := (pageNext (dataPage 2) walk1).2.
Definition walk3 : RelationManager := (pageNext (dataPage 0) walk2).2.

End heap_spec.

Module disk_ops.
Import config disk disk_spec.

(** Every loaded bitmap is what its file holds. *)
Definition synced (m : DiskManager) : Prop :=
  forall idx bmp, bitmaps m !! idx = Some bmp -> bitmapFiles m !! idx = Some bmp.

(** A manager created by [NewDiskManager] in the directory another manager
    left behind: same files, nothing loaded. *)
Definition reopen (m : DiskManager) : DiskManager :=
  {| cfg := cfg m; bitmaps := ∅; bitmapFiles := bitmapFiles m; dataFiles := dataFiles m |}.

(** Calls on a disk manager, and a sequence of them from left to right. *)
Inductive call :=
| CallAllocate
| CallFree (pid : PageId)
| CallWrite (pid : PageId) (data : list byte)
| CallRead (pid : PageId)
| CallFinish.

Definition perform (m : DiskManager) (c : call) : DiskManager :=
  match c with
  | CallAllocate => (AllocatePage m).2
  | CallFree pid => (FreePage pid m).2
  | CallWrite pid data => (WritePage pid data m).2
  | CallRead pid => (ReadPage pid m).2
  | CallFinish => Finish m
  end.

Definition performAll (cs : list call) (m : DiskManager) : DiskManager :=
  foldl perform m cs.

(** The byte at offset [i] of a file as [ReadAt] sees it: zero past the
    end. *)
Definition byteOf (file : list byte) (i : nat) : byte :=
  match file !! i with Some b => b | None => 0 end.

End disk_ops.

Module pool_spec.
Import config buffer buffer_spec.

(** The frame a resident page sits in. *)
Definition frameOf (pid : config.PageId) (bm : BufferManager) : option BufferFrame :=
  el ← lookup bm !! pid; frames bm !! Value el.

(** What the pool keeps true of its own bookkeeping as long as no call
    fails: an entry of the lookup map is never for the sentinel, is an
    element of the replacement list and points to a frame that holds that
    very page; every element of the replacement list points to a frame and
    is the entry of the page in that frame; a frame that holds a page or is
    pinned is the one the entry of its page points to; no pin count is
    negative. *)
Definition wellFormed (bm : BufferManager) : Prop :=
  (forall p el, lookup bm !! p = Some el ->
     p <> empty /\ el ∈ repl bm /\
     exists f, frames bm !! Value el = Some f /\ PageId f = p) /\
  (forall el, el ∈ repl bm ->
     exists f, frames bm !! Value el = Some f /\ lookup bm !! PageId f = Some el) /\
  (forall i f, frames bm !! i = Some f -> PageId f <> empty \/ PinCount f <> 0 ->
     exists el, lookup bm !! PageId f = Some el /\ Value el = i) /\
  (forall f, f ∈ frames bm -> 0 <= PinCount f).

(** Every frame buffer has [n] bytes. *)
Definition sized (n : nat) (bm : BufferManager) : Prop :=
  forall f, f ∈ frames bm -> length (Data f) = n.

(** What never changes about the frames: how many there are, and how long
    the buffer of each is. *)
Definition shape (bm : BufferManager) : list nat :=
  (fun f => length (Data f)) <$> frames bm.

(** Calls on a pool: [GetPage], [FreePage], [SetCurrentReplacementPolicy],
    [FlushBuffers], and a caller writing into a frame. *)
Inductive call :=
| CallGet (pid : config.PageId)
| CallFree (pid : config.PageId) (valdirty : bool)
| CallPolicy (pol : string)
| CallFlush
| CallPoke (bf : nat) (d : list byte).

Definition perform (c : call) (bm : BufferManager) : res BufferManager :=
  match c with
  | CallGet pid =>
      match GetPage pid bm with (Ok _, bm') => Ok bm' | (Err e, _) => Err e end
  | CallFree pid valdirty =>
      match FreePage pid valdirty bm with (Ok _, bm') => Ok bm' | (Err e, _) => Err e end
  | CallPolicy pol => Ok (SetCurrentReplacementPolicy pol bm)
  | CallFlush =>
      match FlushBuffers bm with (Ok _, bm') => Ok bm' | (Err e, _) => Err e end
  | CallPoke bf d => Ok (poke bf d bm)
  end.

(** A client that makes the calls in turn and stops at the first error. *)
Fixpoint performAll (cs : list call) (bm : BufferManager) : res BufferManager :=
  match cs with
  | [] => Ok bm
  | c :: rest =>
      match perform c bm with
      | Ok bm' => performAll rest bm'
      | Err e => Err e
      end
  end.

(** What a client sees of a page through the pool: the bytes of its frame
    when it is resident, what [ReadPage] returns otherwise. *)
Definition content (pid : config.PageId) (bm : BufferManager) : res (list byte) :=
  match frameOf pid bm with
  | Some f => Ok (Data f)
  | None => (disk.ReadPage pid (dm bm)).1
  end.

(** The two ways the heap-file manager uses a page: [GetPage], look at the
    bytes, [FreePage(pid, false)]; and [GetPage], write into the frame,
    [FreePage(pid, true)]. *)
Definition readOp (pid : config.PageId) (bm : BufferManager)
  : res (list byte) * BufferManager :=
  match GetPage pid bm with
  | (Err e, bm1) => (Err e, bm1)
  | (Ok i, bm1) =>
      match frames bm1 !! i with
      | None => (Err Panic, bm1)
      | Some f =>
          match FreePage pid false bm1 with
          | (Err e, bm2) => (Err e, bm2)
          | (Ok _, bm2) => (Ok (Data f), bm2)
          end
      end
  end.
Definition writeOp (pid : config.PageId) (d : list byte) (bm : BufferManager)
  : res unit * BufferManager :=
  match GetPage pid bm with
  | (Err e, bm1) => (Err e, bm1)
  | (Ok i, bm1) => FreePage pid true (poke i d bm1)
  end.

(** A client that reads and writes pages through the pool, collecting what
    its reads returned, and stops at the first error. *)
Inductive access :=
| Read (pid : config.PageId)
| Write (pid : config.PageId) (d : list byte).

Fixpoint serve (accs : list access) (bm : BufferManager)
  : res (list (list byte)) * BufferManager :=
  match accs with
  | [] => (Ok [], bm)
  | Read p :: rest =>
      match readOp p bm with
      | (Err e, bm1) => (Err e, bm1)
      | (Ok data, bm1) =>
          match serve rest bm1 with
          | (Err e, bm2) => (Err e, bm2)
          | (Ok out, bm2) => (Ok (data :: out), bm2)
          end
      end
  | Write p d :: rest =>
      match writeOp p d bm with
      | (Err e, bm1) => (Err e, bm1)
      | (Ok _, bm1) => serve rest bm1
      end
  end.

(** What the same reads return from a plain store of pages, where a write
    replaces the bytes of its page. *)
Fixpoint expected (accs : list access) (st : config.PageId -> res (list byte))
  : list (res (list byte)) :=
  match accs with
  | [] => []
  | Read p :: rest => st p :: expected rest st
  | Write p d :: rest => expected rest (fun q => if decide (q = p) then Ok d else st q)
  end.

(** Every write is of a whole page of [n] bytes. *)
Definition wholePages (n : nat) (accs : list access) : Prop :=
  Forall (fun a => match a with Read _ => True | Write _ d => length d = n end) accs.

(** A pool that lost no update: its bookkeeping is well formed, the disk
    under it is consistent, the frame buffers have the page size of the
    disk manager, and an unpinned clean frame holds what the disk has for
    its page. *)
Definition faithful (bm : BufferManager) : Prop :=
  wellFormed bm /\ disk_spec.consistent (dm bm) /\
  sized (Z.to_nat (PageSize (disk.cfg (dm bm)))) bm /\
  forall p f, frameOf p bm = Some f -> PinCount f = 0 -> Dirty f = false ->
    (disk.ReadPage p (dm bm)).1 = Ok (Data f).

(** A faithful pool between two accesses: no frame is pinned, and every
    resident page is a page of the disk. *)
Definition calm (bm : BufferManager) : Prop :=
  faithful bm /\
  (forall f, f ∈ frames bm -> PinCount f = 0) /\
  (forall p f, frameOf p bm = Some f -> disk_spec.validPage p (dm bm)).

Definition pageOfAccess (a : access) : config.PageId :=
  match a with Read p => p | Write p _ => p end.

(** Page 0 loaded, modified and released dirty; page 1 loaded and still
    pinned. *)
Definition busy2 : BufferManager :=
  (GetPage (page 1)
     (FreePage (page 0) true
        (poke 0 [1; 2; 3; 4] (GetPage (page 0) (pool2 PolicyLRU)).2)).2).2.

(** Page 1 loaded, modified and released dirty. *)
Definition dirty1 : BufferManager :=
  (FreePage (page 1) true (poke 0 [5; 6; 7; 8] (GetPage (page 1) (pool2 PolicyLRU)).2)).2.

(** Both frames of the pool hold a page written through the pool: pages 0
    and 1, and pages 1 and 2. *)
Definition full01 : BufferManager :=
  (serve [Write (page 0) [1; 2; 3; 4]; Write (page 1) [5; 6; 7; 8]] (pool2 PolicyLRU)).2.
Definition full12 : BufferManager :=
  (serve [Write (page 1) [5; 6; 7; 8]; Write (page 2) [9; 9; 9; 9]] (pool2 PolicyLRU)).2.

(** Both frames of the pool pinned. *)
Definition pinned2 : BufferManager :=
  (GetPage (page 1) (GetPage (page 0) (pool2 PolicyLRU)).2).2.

End pool_spec.

Module heap_ops.
Import config strconv relation relation_spec heap_spec.

(** A page identifier whose two indices fit the [int32] words of a pointer
    slot. *)
Definition int32Page (p : config.PageId) : Prop :=
  - 2 ^ 31 <= FileIdx p < 2 ^ 31 /\ - 2 ^ 31 <= PageIdx p < 2 ^ 31.

(** Two states of a manager that differ in the buffer pool only. *)
Definition sameHeader (rm rm' : RelationManager) : Prop :=
  Rel rm' = Rel rm /\ HeaderPageId rm' = HeaderPageId rm /\
  SlotsPerPage rm' = SlotsPerPage rm /\ hdrFile rm' = hdrFile rm.

(** The manager of the scenario once a page has been allocated, and with
    that page as its header page. *)
Definition onePage : RelationManager := (AllocatePage opened).2.
Definition headed : RelationManager := set_HeaderPageId (dataPage 0) onePage.

(** A disk whose page (0,0) is a data page of two free slots, a new pool
    over it and a manager on that pool. *)
Definition diskF : disk.DiskManager :=
  (disk.WritePage (dataPage 0) (zeros 16 ++ [2; 0; 0; 0] ++ zeros 10)
     (disk.AllocatePage disk30).2).2.
Definition poolF : buffer.BufferManager :=
  {| buffer.dm := diskF;
     buffer.frames := replicate 4 {| buffer.PageId := buffer.empty;
                                     buffer.Data := zeros 30;
                                     buffer.PinCount := 0; buffer.Dirty := false |};
     buffer.policy := "LRU"; buffer.repl := []; buffer.lookup := ∅;
     buffer.nextEl := O |}.
Definition rmF : RelationManager :=
  {| Rel := rel1; HeaderPageId := invalidPage; SlotsPerPage := 2;
     bm := poolF; hdrFile := None |}.

End heap_ops.

(** * Decimal rendering and parsing *)

Section StrconvFacts.
Import strconv.

Lemma digitVal_digit d : 0 <= d < 10 -> digitVal (48 + d) = Some d.
Proof.
  intros H. unfold digitVal.
  destruct (48 <=? 48 + d) eqn:E1; [|lia].
  destruct (48 + d <=? 57) eqn:E2; [|lia]. cbn. f_equal. lia.
Qed.

Lemma parseDigits_app a ds rest :
  parseDigits a (ds ++ rest) =
    match parseDigits a ds with
    | Some b => parseDigits b rest
    | None => None
    end.
Proof.
  revert a. induction ds as [|c ds IH]; intros a; cbn; [done|].
  destruct (digitVal c); [apply IH|done].
Qed.

Lemma digitsOf_S fuel n acc :
  digitsOf (S fuel) n acc =
    if n <? 10 then (48 + n mod 10) :: acc
    else digitsOf fuel (n / 10) ((48 + n mod 10) :: acc).
Proof. reflexivity. Qed.

(** The digits [digitsOf] puts in front of [acc] parse back to [n], and the
    first of them is a digit, not a sign. *)
Lemma digitsOf_spec fuel :
  forall n acc, 0 <= n < 10 ^ Z.of_nat (S fuel) ->
    exists c ds, digitsOf (S fuel) n acc = (c :: ds) ++ acc /\
                 48 <= c <= 57 /\
                 forall a, parseDigits a (c :: ds) = Some (a * 10 ^ Z.of_nat (length (c :: ds)) + n).
Proof.
  assert (Hone : forall n acc, 0 <= n < 10 ->
            exists c ds, (48 + n mod 10) :: acc = (c :: ds) ++ acc /\
                 48 <= c <= 57 /\
                 forall a, parseDigits a (c :: ds) = Some (a * 10 ^ Z.of_nat (length (c :: ds)) + n)).
  { intros n acc Hn. exists (48 + n mod 10), []. split; [done|].
    rewrite Z.mod_small by lia. split; [lia|]. intros a. cbn [parseDigits].
    rewrite digitVal_digit by lia. cbn. f_equal. }
  induction fuel as [|fuel IH]; intros n acc Hn; rewrite digitsOf_S;
    destruct (n <? 10) eqn:E;
    try (apply Z.ltb_lt in E; apply Hone; lia); apply Z.ltb_ge in E.
  - change (10 ^ Z.of_nat 1) with 10 in Hn. lia.
  - assert (Hdiv : 0 <= n / 10 < 10 ^ Z.of_nat (S fuel)).
    { split; [apply Z.div_pos; lia|].
      apply Z.div_lt_upper_bound; [lia|].
      rewrite (Nat2Z.inj_succ (S fuel)), Z.pow_succ_r in Hn by lia. lia. }
    destruct (IH (n / 10) ((48 + n mod 10) :: acc) Hdiv) as (c & ds & Heq & Hc & Hp).
    exists c, (ds ++ [48 + n mod 10]). split.
    { rewrite Heq. cbn. by rewrite <- app_assoc. }
    split; [done|]. intros a.
    change (c :: ds ++ [48 + n mod 10]) with ((c :: ds) ++ [48 + n mod 10]).
    rewrite parseDigits_app, Hp. cbn [parseDigits].
    pose proof (Z.mod_pos_bound n 10 ltac:(lia)).
    rewrite digitVal_digit by lia. f_equal.
    rewrite length_app, Nat2Z.inj_add, Z.pow_add_r by lia.
    change (10 ^ Z.of_nat (length [48 + n mod 10])) with 10.
    pose proof (Z.div_mod n 10 ltac:(lia)). lia.
Qed.

Lemma Atoi_FormatInt v : - 2 ^ 63 <= v <= 2 ^ 63 - 1 -> Atoi (FormatInt v) = Some v.
Proof.
  intros Hv. unfold FormatInt.
  destruct (v <? 0) eqn:E.
  - apply Z.ltb_lt in E.
    destruct (digitsOf_spec 19 (- v) []) as (c & ds & Heq & Hc & Hp).
    { change (10 ^ Z.of_nat 20) with 100000000000000000000.
      change (2 ^ 63) with 9223372036854775808 in Hv. lia. }
    rewrite Heq, app_nil_r. unfold Atoi. rewrite decide_True by done.
    rewrite Hp. rewrite Z.mul_0_l, Z.add_0_l, Z.opp_involutive.
    destruct (- 2 ^ 63 <=? v) eqn:E1; [|lia].
    destruct (v <=? 2 ^ 63 - 1) eqn:E2; [|lia]. done.
  - apply Z.ltb_ge in E.
    destruct (digitsOf_spec 19 v []) as (c & ds & Heq & Hc & Hp).
    { change (10 ^ Z.of_nat 20) with 100000000000000000000.
      change (2 ^ 63) with 9223372036854775808 in Hv. lia. }
    rewrite Heq, app_nil_r. unfold Atoi.
    rewrite !decide_False by lia.
    rewrite Hp. rewrite Z.mul_0_l, Z.add_0_l.
    destruct (- 2 ^ 63 <=? v) eqn:E1; [|lia].
    destruct (v <=? 2 ^ 63 - 1) eqn:E2; [|lia]. done.
Qed.

Lemma parseDigits_digits a l b :
  parseDigits a l = Some b -> Forall (fun c => 48 <= c <= 57) l.
Proof.
  revert a. induction l as [|c l IH]; intros a; cbn; [constructor|].
  unfold digitVal. destruct ((48 <=? c) && (c <=? 57)) eqn:E; [|done].
  apply andb_true_iff in E as [E1 E2]. apply Z.leb_le in E1, E2.
  intros H. constructor; [lia|by eapply IH].
Qed.

Lemma FormatInt_no_colon v : - 2 ^ 63 <= v <= 2 ^ 63 - 1 -> 58 ∉ FormatInt v.
Proof.
  intros Hv. unfold FormatInt.
  change (2 ^ 63) with 9223372036854775808 in Hv.
  destruct (v <? 0) eqn:E; [apply Z.ltb_lt in E|apply Z.ltb_ge in E].
  - destruct (digitsOf_spec 19 (- v) []) as (c & ds & Heq & _ & Hp).
    { change (10 ^ Z.of_nat 20) with 100000000000000000000. lia. }
    rewrite Heq, app_nil_r. specialize (Hp 0). apply parseDigits_digits in Hp.
    intros Hin. apply elem_of_cons in Hin as [?|Hin]; [done|].
    rewrite Forall_forall in Hp. specialize (Hp _ Hin). lia.
  - destruct (digitsOf_spec 19 v []) as (c & ds & Heq & _ & Hp).
    { change (10 ^ Z.of_nat 20) with 100000000000000000000. lia. }
    rewrite Heq, app_nil_r. specialize (Hp 0). apply parseDigits_digits in Hp.
    intros Hin. rewrite Forall_forall in Hp. specialize (Hp _ Hin). lia.
Qed.

Lemma FormatInt_inj v w :
  - 2 ^ 63 <= v <= 2 ^ 63 - 1 -> - 2 ^ 63 <= w <= 2 ^ 63 - 1 ->
  FormatInt v = FormatInt w -> v = w.
Proof.
  intros Hv Hw E. pose proof (Atoi_FormatInt v Hv) as H1.
  rewrite E, (Atoi_FormatInt w Hw) in H1. congruence.
Qed.

Lemma app_sep_inj (x : Z) (l1 l2 l3 l4 : list Z) :
  x ∉ l1 -> x ∉ l3 -> l1 ++ x :: l2 = l3 ++ x :: l4 -> l1 = l3 /\ l2 = l4.
Proof.
  revert l3. induction l1 as [|a l1 IH]; intros l3 H1 H3 E;
    destruct l3 as [|b l3]; cbn in E.
  - by inversion E.
  - inversion E; subst. exfalso. apply H3. by left.
  - inversion E; subst. exfalso. apply H1. by left.
  - inversion E as [[Hab E']]. subst b.
    destruct (IH l3) as [Hl Hr]; [by intros ?; apply H1; right
                                 |by intros ?; apply H3; right|done|].
    by rewrite Hl, Hr.
Qed.

End StrconvFacts.

(** * The disk manager *)

Section DiskFacts.
  Import config disk disk_spec.


Lemma ensureLoaded_cfg idx m : cfg (ensureLoaded idx m) = cfg m.
Proof. unfold ensureLoaded, loadBitmap. repeat case_match; reflexivity. Qed.

Lemma ensureLoaded_dataFiles idx m : dataFiles (ensureLoaded idx m) = dataFiles m.
Proof. unfold ensureLoaded, loadBitmap. repeat case_match; reflexivity. Qed.

Lemma ensureLoaded_bitmapFiles idx m :
  bitmapFiles (ensureLoaded idx m) = bitmapFiles m \/
  (bitmapFiles m !! idx = None /\ bitmaps m !! idx = None /\
   bitmapFiles (ensureLoaded idx m) = <[idx := []]> (bitmapFiles m)).
Proof. unfold ensureLoaded, loadBitmap. repeat case_match; cbn; auto. Qed.

Lemma ensureLoaded_consistent idx m : consistent m -> consistent (ensureLoaded idx m).
Proof.
  unfold ensureLoaded, loadBitmap. intros Hc.
  repeat case_match; auto; intros i bmp; cbn.
  - destruct (decide (idx = i)) as [->|];
      [rewrite lookup_insert_eq | rewrite lookup_insert_ne by done].
    + intros [[= <-]|Hb]; eauto.
    + intros [Hb|Hb]; eauto.
  - destruct (decide (idx = i)) as [->|];
      [rewrite !lookup_insert_eq | rewrite !lookup_insert_ne by done].
    + intros [[= <-]|[= <-]]; done.
    + intros [Hb|Hb]; eauto.
Qed.

Lemma ensureLoaded_bitmap_data idx m :
  consistent m -> bitmap idx (ensureLoaded idx m) <> [] -> is_Some (dataFiles m !! idx).
Proof.
  intros Hc Hne. apply ensureLoaded_consistent with (idx := idx) in Hc.
  rewrite <- (ensureLoaded_dataFiles idx m).
  unfold bitmap in Hne.
  destruct (bitmaps (ensureLoaded idx m) !! idx) as [bmp|] eqn:E; [|done].
  eapply Hc; eauto.
Qed.

Lemma checkPage_ok pid m :
  validPage pid m -> checkPage pid m = (Ok tt, ensureLoaded (FileIdx pid) m).
Proof.
  intros [Hf Hp]. unfold checkPage.
  destruct (FileIdx pid <? 0) eqn:E1; [lia|].
  destruct (DMMaxFileCount (cfg m) <=? FileIdx pid) eqn:E2; [lia|]. cbn.
  destruct (PageIdx pid <? 0) eqn:E3; [lia|].
  destruct (Z.of_nat _ <=? PageIdx pid) eqn:E4; [lia|]. reflexivity.
Qed.

Lemma checkPage_err pid m :
  ~ validPage pid m ->
  exists e, (checkPage pid m).1 = Err e /\
    ((checkPage pid m).2 = m \/ (checkPage pid m).2 = ensureLoaded (FileIdx pid) m).
Proof.
  intros Hn. unfold checkPage, validPage in *.
  destruct (FileIdx pid <? 0) eqn:E1; cbn; [eauto|].
  destruct (DMMaxFileCount (cfg m) <=? FileIdx pid) eqn:E2; cbn; [eauto|].
  destruct (PageIdx pid <? 0) eqn:E3; cbn; [eauto|].
  destruct (Z.of_nat _ <=? PageIdx pid) eqn:E4; cbn; [eauto|]. lia.
Qed.

Lemma length_zeros n : length (zeros n) = n.
Proof. apply length_replicate. Qed.

Lemma take_zeros n k : take n (zeros k) = zeros (n `min` k).
Proof. apply take_replicate. Qed.

Lemma drop_zeros n k : drop n (zeros k) = zeros (k - n).
Proof. apply drop_replicate. Qed.

Lemma padToPage_le data (ps : Z) :
  Z.of_nat (length data) <= ps ->
  disk.padToPage data ps = data ++ zeros (Z.to_nat ps - length data).
Proof.
  intros Hle. unfold disk.padToPage, copy.
  case_decide as E.
  - replace (Z.to_nat ps - length data)%nat with O by lia. cbn. by rewrite app_nil_r.
  - rewrite length_zeros, take_ge, drop_zeros by lia. done.
Qed.

Lemma length_padToPage data (ps : Z) :
  Z.of_nat (length data) <= ps -> length (disk.padToPage data ps) = Z.to_nat ps.
Proof.
  intros Hle. rewrite padToPage_le by done. rewrite length_app, length_zeros. lia.
Qed.

Lemma writeAt_withPage file (ps n : nat) (d data : list byte) :
  length d = ps -> d = data ++ zeros (ps - length data) ->
  disk.writeAt (if Z.of_nat (length file) <? Z.of_nat (n * ps) + Z.of_nat ps
                then file ++ zeros (Z.to_nat (Z.of_nat (n * ps) + Z.of_nat ps - Z.of_nat (length file)))
                else file) (n * ps) d
  = withPage file ps n data.
Proof.
  intros Hd Hdd. unfold disk.writeAt, withPage. rewrite <- Hdd, Hd.
  destruct (Z.of_nat (length file) <? _) eqn:E.
  - apply Z.ltb_lt in E.
    replace (Z.to_nat _) with (n * ps + ps - length file)%nat by lia.
    rewrite length_app, length_zeros.
    replace (n * ps - (length file + (n * ps + ps - length file)))%nat with O by lia.
    cbn [zeros replicate app].
    rewrite (drop_ge file) by lia.
    rewrite (drop_ge (file ++ _)) by (rewrite length_app, length_zeros; lia).
    f_equal.
    rewrite !take_app, !take_zeros. do 2 f_equal. lia.
  - apply Z.ltb_ge in E.
    replace (n * ps - length file)%nat with O by lia. cbn [zeros replicate app].
    rewrite app_nil_r. done.
Qed.


Lemma WritePage_ok pid data m :
  consistent m -> validPage pid m -> Z.of_nat (length data) <= PageSize (cfg m) ->
  exists file,
    dataFiles m !! FileIdx pid = Some file /\
    WritePage pid data m =
      (Ok tt, set_dataFiles
                (insert (FileIdx pid)
                   (withPage file (Z.to_nat (PageSize (cfg m))) (Z.to_nat (PageIdx pid)) data))
                (ensureLoaded (FileIdx pid) m)).
Proof.
  intros Hc Hv Hlen.
  destruct (ensureLoaded_bitmap_data (FileIdx pid) m Hc) as [file Hfile].
  { destruct Hv as [_ Hp]. intros E. rewrite E in Hp. cbn in Hp. lia. }
  exists file. split; [done|].
  unfold WritePage. destruct (_ <? _) eqn:E; [lia|].
  rewrite checkPage_ok by done. rewrite ensureLoaded_dataFiles, Hfile.
  do 3 f_equal.
  destruct Hv as [_ Hp].
  set (ps := PageSize (cfg m)) in *.
  rewrite <- (writeAt_withPage file (Z.to_nat ps) (Z.to_nat (PageIdx pid)) (padToPage data ps) data).
  - assert (0 <= ps) by lia.
    rewrite Nat2Z.inj_mul, !Z2Nat.id by lia.
    rewrite Z2Nat.inj_mul by lia. done.
  - by apply length_padToPage.
  - by apply padToPage_le.
Qed.

Lemma classic_accepted pid data m : accepted pid data m \/ ~ accepted pid data m.
Proof.
  unfold accepted, validPage.
  destruct (decide (Z.of_nat (length data) <= PageSize (cfg m)));
    [|right; intros [? _]; done].
  destruct (decide (0 <= FileIdx pid < DMMaxFileCount (cfg m)));
    [|right; intros [_ [? _]]; done].
  destruct (decide (0 <= PageIdx pid <
    Z.of_nat (length (bitmap (FileIdx pid) (ensureLoaded (FileIdx pid) m)))));
    [left; done|right; intros [_ [_ ?]]; done].
Qed.

Lemma WritePage_rejects pid data m :
  ~ accepted pid data m ->
  exists e, (WritePage pid data m).1 = Err e /\
            dataFiles (WritePage pid data m).2 = dataFiles m /\
            (bitmapFiles (WritePage pid data m).2 = bitmapFiles m \/
             (bitmapFiles m !! FileIdx pid = None /\
              bitmapFiles (WritePage pid data m).2 = <[FileIdx pid := []]> (bitmapFiles m))).
Proof.
  intros Hn. unfold WritePage.
  destruct (_ <? _) eqn:E; cbn; [eauto|].
  apply Z.ltb_ge in E.
  destruct (checkPage_err pid m) as (e & He & Hm);
    [intros Hv; apply Hn; split; done|].
  destruct (checkPage pid m) as [[[]|e'] m1] eqn:Hchk; cbn in *; [done|].
  exists e'. split; [done|]. destruct Hm as [->| ->]; [auto|].
  rewrite ensureLoaded_dataFiles. split; [done|].
  destruct (ensureLoaded_bitmapFiles (FileIdx pid) m) as [?|(?&?&?)]; auto.
Qed.

(** The invariant [consistent] holds after [Init] in an empty directory and
    is kept by every operation of the disk manager. *)
Lemma consistent_Init c : consistent (Init (NewDiskManager c)).
Proof.
  intros idx bmp. unfold Init, NewDiskManager, loadBitmap. cbn.
  rewrite lookup_empty. cbn. rewrite lookup_empty. cbn.
  intros [H|H] Hne; apply lookup_insert_Some in H as [[<- <-]|[_ H]]; done.
Qed.

Lemma consistent_checkPage pid m : consistent m -> consistent (checkPage pid m).2.
Proof.
  intros Hc. unfold checkPage. repeat case_match; cbn; auto using ensureLoaded_consistent.
Qed.

Lemma consistent_set_bitmap idx bmp m :
  consistent m -> is_Some (dataFiles m !! idx) ->
  consistent (persistBitmap idx (set_bitmaps (insert idx bmp) m)).
Proof.
  intros Hc Hd i b. unfold persistBitmap, bitmap. cbn. rewrite lookup_insert_eq. cbn.
  destruct (decide (idx = i)) as [->|]; [done|].
  rewrite !lookup_insert_ne by done. apply Hc.
Qed.

Lemma consistent_set_dataFiles idx file m :
  consistent m -> consistent (set_dataFiles (insert idx file) m).
Proof.
  intros Hc i b H Hne. cbn in *.
  destruct (decide (idx = i)) as [->|]; [rewrite lookup_insert_eq; eauto|].
  rewrite lookup_insert_ne by done. eauto.
Qed.

(** The body of the loop of [AllocatePage] returns on every path. *)
Lemma allocateIn_returns idx m : exists pid, (allocateIn idx m).1 = Return (Ok pid) /\ FileIdx pid = idx.
Proof. unfold allocateIn. destruct (firstZero _); cbn; eauto. Qed.

Lemma allocateLoop_first idx rest m :
  allocateLoop (idx :: rest) m =
    (match (allocateIn idx m).1 with Return r => r | Continue => Err ErrNoSpace end,
     (allocateIn idx m).2).
Proof.
  cbn [allocateLoop]. destruct (allocateIn_returns idx m) as (pid & H & _).
  destruct (allocateIn idx m) as [[r|] m1]; cbn in *; [done|done].
Qed.

Lemma consistent_allocateIn idx m : consistent m -> consistent (allocateIn idx m).2.
Proof.
  intros Hc. apply ensureLoaded_consistent with (idx := idx) in Hc.
  unfold allocateIn. destruct (firstZero _) as [i|] eqn:E; cbn [snd].
  - apply consistent_set_bitmap; [done|].
    unfold bitmap in E.
    destruct (bitmaps (ensureLoaded idx m) !! idx) as [bmp|] eqn:E2; [|done].
    eapply Hc; [left; done|]. intros ->. done.
  - apply consistent_set_bitmap; [by apply consistent_set_dataFiles|].
    cbn. rewrite lookup_insert_eq. eauto.
Qed.

Lemma consistent_AllocatePage m : consistent m -> consistent (AllocatePage m).2.
Proof.
  intros Hc. unfold AllocatePage.
  destruct (_ <=? _); [done|].
  destruct (segments m) as [|idx rest]; [done|].
  rewrite allocateLoop_first. cbn [snd]. by apply consistent_allocateIn.
Qed.

Lemma consistent_FreePage pid m : consistent m -> consistent (FreePage pid m).2.
Proof.
  intros Hc. unfold FreePage.
  destruct (checkPage pid m) as [[[]|e] m1] eqn:E; cbn [snd];
    pose proof (consistent_checkPage pid m Hc) as Hc1; rewrite E in Hc1; [|done].
  apply consistent_set_bitmap; [done|].
  unfold checkPage in E. repeat case_match; simplify_eq.
  rewrite ensureLoaded_dataFiles. eapply ensureLoaded_bitmap_data; [done|].
  intros E3. rewrite E3 in *. cbn in *.
  apply orb_false_iff in H0 as [H1 H2].
  apply Z.ltb_ge in H1. apply Z.leb_gt in H2. lia.
Qed.

Lemma consistent_WritePage pid data m : consistent m -> consistent (WritePage pid data m).2.
Proof.
  intros Hc. unfold WritePage.
  destruct (_ <? _); [done|].
  pose proof (consistent_checkPage pid m Hc) as Hc1.
  destruct (checkPage pid m) as [[[]|e] m1]; cbn [snd] in *; [|done].
  destruct (dataFiles m1 !! FileIdx pid); cbn [snd]; [|done].
  by apply consistent_set_dataFiles.
Qed.

Lemma consistent_ReadPage pid m : consistent m -> consistent (ReadPage pid m).2.
Proof.
  intros Hc. unfold ReadPage.
  pose proof (consistent_checkPage pid m Hc) as Hc1.
  destruct (checkPage pid m) as [[[]|e] m1]; cbn [snd] in *; [|done].
  repeat case_match; done.
Qed.

(** C10 (amended).  In a consistent state [WritePage] accepts a call exactly
    when [len(data) <= pageSize] and the page identifier is in range.  An
    accepted call stores [data] padded with zeros to one page at the offset
    of the page, the segment file being first extended with zeros when it is
    too short.  A rejected call leaves every data file unchanged; the only
    thing it can do to the disk is to create the empty bitmap file of a
    segment in range whose bitmap was not loaded yet. *)
Theorem WritePage_spec pid data m :
  consistent m ->
  (accepted pid data m <-> (WritePage pid data m).1 = Ok tt) /\
  (accepted pid data m ->
   exists file,
     dataFiles m !! FileIdx pid = Some file /\
     dataFiles (WritePage pid data m).2 =
       <[FileIdx pid := withPage file (Z.to_nat (PageSize (cfg m)))
                          (Z.to_nat (PageIdx pid)) data]> (dataFiles m)) /\
  (~ accepted pid data m ->
   dataFiles (WritePage pid data m).2 = dataFiles m /\
   (bitmapFiles (WritePage pid data m).2 = bitmapFiles m \/
    (bitmapFiles m !! FileIdx pid = None /\
     bitmapFiles (WritePage pid data m).2 = <[FileIdx pid := []]> (bitmapFiles m)))).
Proof.
  intros Hc. split; [split|split].
  - intros [Hl Hv]. destruct (WritePage_ok pid data m Hc Hv Hl) as (file & _ & ->). done.
  - intros Hok. destruct (classic_accepted pid data m) as [|Hn]; [done|].
    destruct (WritePage_rejects pid data m Hn) as (e & He & _). congruence.
  - intros [Hl Hv]. destruct (WritePage_ok pid data m Hc Hv Hl) as (file & Hf & ->).
    exists file. split; [done|]. cbn. by rewrite ensureLoaded_dataFiles.
  - intros Hn. destruct (WritePage_rejects pid data m Hn) as (e & _ & H1 & H2). done.
Qed.

Lemma WritePage_spec_witness :
  let m := (AllocatePage fresh2).2 in
  let pid := {| FileIdx := 0; PageIdx := 0 |} in
  consistent m /\
  (accepted pid [7; 9] m <-> (WritePage pid [7; 9] m).1 = Ok tt) /\
  dataFiles (WritePage pid [7; 9] m).2 !! 0 = Some [7; 9; 0; 0].
Proof.
  intros m pid.
  assert (Hc : consistent m) by apply consistent_AllocatePage, consistent_Init.
  split; [exact Hc|].
  destruct (WritePage_spec pid [7; 9] m Hc) as (Hiff & _ & _).
  split; [exact Hiff|]. vm_compute. reflexivity.
Defined.

(** C10 (counterexample).  With two segments and only segment 0 loaded, a
    write to page 0 of segment 1 is rejected for its page index, after the
    lazy load of the bitmap has created the empty file [Data1.bitmap]: the
    rejection does not precede every disk mutation. *)
Lemma WritePage_rejection_after_bitmap_creation :
  let r := WritePage {| FileIdx := 1; PageIdx := 0 |} [] fresh2 in
  r.1 = Err ErrInvalidPageIdx /\
  bitmapFiles fresh2 !! 1 = None /\
  bitmapFiles r.2 !! 1 = Some [].
Proof. vm_compute. done. Qed.

(** [AllocatePage] claims the first zero byte of the bitmap of the segment
    it visits, and extends the segment by one zero page when there is none. *)
Lemma allocateIn_first_fit idx m i :
  firstZero (bitmap idx (ensureLoaded idx m)) = Some i ->
  (allocateIn idx m).1 = Return (Ok {| FileIdx := idx; PageIdx := Z.of_nat i |}) /\
  bitmap idx (allocateIn idx m).2 = <[i := 1]> (bitmap idx (ensureLoaded idx m)) /\
  dataFiles (allocateIn idx m).2 = dataFiles m.
Proof.
  intros E. unfold allocateIn. rewrite E. cbn.
  split; [done|]. split; [|apply ensureLoaded_dataFiles].
  unfold bitmap at 1. cbn. by rewrite lookup_insert_eq.
Qed.

Lemma allocateIn_extends idx m :
  firstZero (bitmap idx (ensureLoaded idx m)) = None ->
  (allocateIn idx m).1 =
    Return (Ok {| FileIdx := idx;
                  PageIdx := Z.of_nat (length (bitmap idx (ensureLoaded idx m))) |}) /\
  bitmap idx (allocateIn idx m).2 = bitmap idx (ensureLoaded idx m) ++ [1] /\
  dataFiles (allocateIn idx m).2 !! idx =
    Some (default [] (dataFiles m !! idx) ++ zeros (Z.to_nat (PageSize (cfg m)))).
Proof.
  intros E. unfold allocateIn. rewrite E. cbn.
  split; [|split].
  - do 3 f_equal. rewrite length_app. cbn. lia.
  - unfold bitmap at 1. cbn. by rewrite lookup_insert_eq.
  - by rewrite lookup_insert_eq, ensureLoaded_dataFiles.
Qed.

(** C8.  What [AllocatePage] does with its segments: the no-space error is
    returned exactly when the page size is positive and [DMMaxFileCount] is
    not, and every page it returns lies in segment 0.  The body of the loop
    returns on every path ([allocateIn_returns]), so with at least one
    segment configured the first iteration ends the call: no state makes
    [AllocatePage] report no space or hand out a page of a later segment. *)
Theorem AllocatePage_only_segment_0 m :
  ((AllocatePage m).1 = Err ErrNoSpace <->
   0 < PageSize (cfg m) /\ DMMaxFileCount (cfg m) <= 0) /\
  (forall pid, (AllocatePage m).1 = Ok pid -> FileIdx pid = 0).
Proof.
  unfold AllocatePage, segments.
  destruct (PageSize (cfg m) <=? 0) eqn:Eps.
  { apply Z.leb_le in Eps. cbn. split; [split; [done|lia]|done]. }
  apply Z.leb_gt in Eps.
  destruct (Z.to_nat (DMMaxFileCount (cfg m))) as [|k] eqn:Ek.
  { cbn. split; [split; [lia|done]|done]. }
  rewrite <- cons_seq, fmap_cons, allocateLoop_first. cbn [fst].
  destruct (allocateIn_returns (Z.of_nat 0) m) as (pid & -> & Hpid).
  split; [split; [done|lia]|]. intros pid' [= <-]. done.
Qed.

Lemma AllocatePage_only_segment_0_witness :
  bitmap 0 three2 = [1; 1; 1] /\
  (AllocatePage three2).1 = Ok {| FileIdx := 0; PageIdx := 3 |} /\
  bitmaps (AllocatePage three2).2 !! 1 = None /\
  FileIdx {| FileIdx := 0; PageIdx := 3 |} = 0.
Proof.
  split; [vm_compute; reflexivity|].
  split; [vm_compute; reflexivity|].
  split; [vm_compute; reflexivity|].
  apply (proj2 (AllocatePage_only_segment_0 three2)). vm_compute. reflexivity.
Defined.

End DiskFacts.

(** * The buffer manager *)

Section BufferFacts.
Import config buffer buffer_spec.

(** The key of the lookup map determines the page identifier (indices in
    the range of a Go [int]). *)
Lemma pageKey_inj p q :
  - 2 ^ 63 <= FileIdx p <= 2 ^ 63 - 1 -> - 2 ^ 63 <= PageIdx p <= 2 ^ 63 - 1 ->
  - 2 ^ 63 <= FileIdx q <= 2 ^ 63 - 1 -> - 2 ^ 63 <= PageIdx q <= 2 ^ 63 - 1 ->
  pageKey p = pageKey q -> p = q.
Proof.
  intros Hpf Hpp Hqf Hqp. unfold pageKey, strconv.Itoa. cbn [app]. intros E.
  apply app_sep_inj in E as [E1 E2]; try by apply FormatInt_no_colon.
  apply FormatInt_inj in E1, E2; try done.
  destruct p, q; cbn in *; congruence.
Qed.

(** ** Pin counts along a run *)

Lemma ReadPage_ok_not_empty pid d data d1 :
  disk.ReadPage pid d = (Ok data, d1) -> pid <> empty.
Proof.
  intros H ->. unfold disk.ReadPage, disk.checkPage in H. cbn in H. done.
Qed.

Lemma findFree_Some fs i :
  findFree fs = Some i -> exists f, fs !! i = Some f /\ PageId f = empty /\ PinCount f = 0.
Proof.
  revert i. induction fs as [|f fs IH]; intros i; cbn; [done|].
  destruct (isFree f) eqn:E.
  - intros [= <-]. exists f. split; [done|]. unfold isFree in E.
    apply andb_true_iff in E as [E1 E2]. apply andb_true_iff in E2 as [E2 E3].
    apply bool_decide_eq_true in E1, E2, E3.
    split; [|done]. destruct (PageId f); cbn in *. unfold empty. congruence.
  - destruct (findFree fs) as [j|]; cbn; [|done]. intros [= <-]. by apply IH.
Qed.

Lemma tracked_GetPage pid bm log r bm1 :
  tracked bm log -> GetPage pid bm = (r, bm1) ->
  match r with
  | Ok _ => tracked bm1 ((if lookup bm !! pid is Some _ then EvHit pid else EvLoad pid) :: log)
  | Err _ => tracked bm1 log
  end.
Proof.
  intros Hinv. unfold GetPage.
  destruct (lookup bm !! pid) as [el|] eqn:Hlk.
  - (* hit *)
    destruct (Hinv _ _ Hlk) as (Hne & f & Hf & Hpid & Hpin).
    cbn. rewrite Hf. intros [= <- <-].
    intros p el' Hlk'. cbn in Hlk'. cbn [frames set_frames set_repl].
    destruct (Hinv _ _ Hlk') as (Hne' & f' & Hf' & Hpid' & Hpin').
    split; [done|].
    destruct (decide (p = pid)) as [->|Hp].
    + assert (el' = el) as -> by congruence.
      exists (pin f). rewrite list_lookup_insert_eq by (by eapply lookup_lt_Some).
      cbn. rewrite decide_True by done. repeat split; [done|lia].
    + assert (Value el <> Value el') by congruence.
      exists f'. rewrite list_lookup_insert_ne by done.
      cbn. rewrite decide_False by done. done.
  - destruct (findFree (frames bm)) as [i|] eqn:Hfree.
    + (* miss, free frame *)
      destruct (findFree_Some _ _ Hfree) as (f & Hf & Hfe & _). rewrite Hf.
      destruct (disk.ReadPage pid (dm bm)) as [[data|e] d1] eqn:Hrd; intros [= <- <-].
      2:{ intros p el' Hlk'. apply (Hinv p el' Hlk'). }
      pose proof (ReadPage_ok_not_empty _ _ _ _ Hrd) as Hne.
      intros p el' Hlk'. cbn in Hlk'. cbn [frames set_frames set_lookup set_nextEl set_repl set_dm].
      destruct (decide (p = pid)) as [->|Hp].
      * rewrite lookup_insert_eq in Hlk'. injection Hlk' as <-. split; [done|].
        exists (loadInto f pid data). cbn.
        rewrite list_lookup_insert_eq by (by eapply lookup_lt_Some).
        rewrite decide_True by done. done.
      * rewrite lookup_insert_ne in Hlk' by done.
        destruct (Hinv _ _ Hlk') as (Hne' & f' & Hf' & Hpid' & Hpin').
        split; [done|]. exists f'.
        assert (i <> Value el') by (intros ->; congruence).
        rewrite list_lookup_insert_ne by done. cbn. rewrite decide_False by done. done.
    + (* miss, eviction *)
      destruct (victimOf (policy bm) (repl bm)) as [vel|]; [|intros [= <- <-]; done].
      destruct (frames bm !! Value vel) as [victim|] eqn:Hv; [|intros [= <- <-]; done].
      case_decide; [intros [= <- <-]; done|].
      destruct (if Dirty victim then _ else _) as [[[]|e] d1] eqn:Hwb;
        [|intros [= <- <-]; intros p el' Hlk'; apply (Hinv p el' Hlk')].
      destruct (disk.ReadPage pid d1) as [[data|e] d2] eqn:Hrd; intros [= <- <-].
      2:{ intros p el' Hlk'. cbn in Hlk'.
          apply lookup_delete_Some in Hlk' as [_ Hlk']. apply (Hinv p el' Hlk'). }
      pose proof (ReadPage_ok_not_empty _ _ _ _ Hrd) as Hne.
      intros p el' Hlk'. cbn in Hlk'. cbn [frames set_frames set_lookup set_nextEl set_repl set_dm].
      destruct (decide (p = pid)) as [->|Hp].
      * rewrite lookup_insert_eq in Hlk'. injection Hlk' as <-. split; [done|].
        exists (loadInto victim pid data). cbn.
        rewrite list_lookup_insert_eq by (by eapply lookup_lt_Some).
        rewrite decide_True by done. done.
      * rewrite lookup_insert_ne in Hlk' by done.
        apply lookup_delete_Some in Hlk' as [Hpv Hlk'].
        destruct (Hinv _ _ Hlk') as (Hne' & f' & Hf' & Hpid' & Hpin').
        split; [done|]. exists f'.
        assert (Value vel <> Value el') by (intros E; rewrite E in Hv; congruence).
        rewrite list_lookup_insert_ne by done. cbn. rewrite decide_False by done. done.
Qed.

Lemma flooredBalance_nonneg pid log : 0 <= flooredBalance pid log.
Proof. induction log as [|[] log IH]; cbn; try case_decide; lia. Qed.

Lemma tracked_FreePage pid valdirty bm log r bm1 :
  tracked bm log -> FreePage pid valdirty bm = (r, bm1) ->
  match r with
  | Ok _ => tracked bm1 (EvFree pid :: log)
  | Err _ => tracked bm1 log
  end.
Proof.
  intros Hinv. unfold FreePage.
  destruct (lookup bm !! pid) as [el|] eqn:Hlk; [|intros [= <- <-]; done].
  destruct (Hinv _ _ Hlk) as (Hne & f & Hf & Hpid & Hpin).
  rewrite Hf. intros [= <- <-].
  intros p el' Hlk'. cbn in Hlk'. cbn [frames set_frames].
  destruct (Hinv _ _ Hlk') as (Hne' & f' & Hf' & Hpid' & Hpin').
  split; [done|].
  destruct (decide (p = pid)) as [->|Hp].
  - assert (el' = el) as -> by congruence.
    exists (unpin valdirty f). rewrite list_lookup_insert_eq by (by eapply lookup_lt_Some).
    cbn. rewrite decide_True by done. repeat split; [done|].
    pose proof (flooredBalance_nonneg pid log).
    destruct (0 <? PinCount f) eqn:E; [apply Z.ltb_lt in E|apply Z.ltb_ge in E]; lia.
  - assert (Value el <> Value el') by congruence.
    exists f'. rewrite list_lookup_insert_ne by done.
    cbn. rewrite decide_False by done. done.
Qed.

Lemma tracked_step s o : tracked s.1 s.2 -> tracked (step s o).1 (step s o).2.
Proof.
  destruct s as [bm log]. cbn [fst snd]. intros Hinv. destruct o as [pid|pid vd]; cbn.
  - destruct (GetPage pid bm) as [r bm1] eqn:E.
    pose proof (tracked_GetPage _ _ _ _ _ Hinv E) as H. destruct r; exact H.
  - destruct (FreePage pid vd bm) as [r bm1] eqn:E.
    pose proof (tracked_FreePage _ _ _ _ _ _ Hinv E) as H. destruct r; exact H.
Qed.

Lemma tracked_run ops bm log :
  tracked bm log -> tracked (foldl step (bm, log) ops).1 (foldl step (bm, log) ops).2.
Proof.
  revert bm log. induction ops as [|o ops IH]; intros bm log Hinv; [done|].
  cbn [foldl]. pose proof (tracked_step (bm, log) o Hinv) as H.
  destruct (step (bm, log) o) as [bm1 log1]. by apply IH.
Qed.

Lemma flooredBalance_balance pid log :
  neverOverFreed pid log -> flooredBalance pid log = balance pid log.
Proof.
  induction log as [|e log IH]; [done|].
  destruct e as [p|p|p]; cbn.
  - case_decide; [done|exact IH].
  - intros [H0 Hrest]. specialize (IH Hrest). case_decide; lia.
  - intros [H0 Hrest]. specialize (IH Hrest). revert H0. case_decide; lia.
Qed.


(** C9 (amended).  Along every sequence of [GetPage] and [FreePage] calls on
    a new pool, a resident page sits in a frame that holds it, and the pin
    count of that frame is the number of successful [GetPage] calls minus
    the number of successful [FreePage] calls on the page since it was last
    loaded, where a [FreePage] at pin count 0 leaves the count at 0.  It is
    the plain difference whenever, since that load, [FreePage] was never
    called on the page more often than [GetPage]; calls made before the
    load, an earlier residency of the page included, do not matter. *)
Theorem pin_count_floored c d bm0 ops pid el :
  NewBufferManager c d = Ok bm0 ->
  lookup (run ops bm0).1 !! pid = Some el ->
  exists f,
    frames (run ops bm0).1 !! Value el = Some f /\
    PageId f = pid /\
    PinCount f = flooredBalance pid (run ops bm0).2 /\
    (neverOverFreed pid (run ops bm0).2 ->
     PinCount f = balance pid (run ops bm0).2).
Proof.
  intros Hnew Hlk.
  assert (Hinit : tracked bm0 []).
  { unfold NewBufferManager in Hnew. destruct (_ || _); [done|].
    injection Hnew as <-. intros p e; cbn; done. }
  pose proof (tracked_run ops _ _ Hinit) as Hinv. fold (run ops bm0) in Hinv.
  destruct (Hinv _ _ Hlk) as (_ & f & Hf & Hpid & Hpin).
  exists f. repeat split; try done.
  intros Hb. by rewrite Hpin, flooredBalance_balance.
Qed.

Lemma pin_count_floored_witness :
  let s := run reloadedTwice (pool2 "LRU") in
  NewBufferManager (cfgPool "LRU") disk_spec.three2 = Ok (pool2 "LRU") /\
  lookup s.1 !! page 0 = Some {| elId := 1; Value := 1 |} /\
  balance (page 0) s.2 = 2 /\
  exists f, frames s.1 !! 1%nat = Some f /\ PageId f = page 0 /\
            PinCount f = flooredBalance (page 0) s.2 /\
            PinCount f = balance (page 0) s.2.
Proof.
  intros s.
  assert (Hlk : lookup s.1 !! page 0 = Some {| elId := 1; Value := 1 |})
    by (vm_compute; reflexivity).
  assert (Hnew : NewBufferManager (cfgPool "LRU") disk_spec.three2 = Ok (pool2 "LRU"))
    by reflexivity.
  assert (Hlog : s.2 = [EvHit (page 0); EvLoad (page 0); EvFree (page 2); EvLoad (page 2);
                        EvFree (page 1); EvLoad (page 1); EvFree (page 0); EvFree (page 0);
                        EvLoad (page 0)])
    by (vm_compute; reflexivity).
  assert (Hsince : neverOverFreed (page 0) s.2).
  { rewrite Hlog. cbn. rewrite !decide_True by done. split; [lia|done]. }
  split; [exact Hnew|]. split; [exact Hlk|].
  split; [rewrite Hlog; reflexivity|].
  destruct (pin_count_floored _ _ _ _ (page 0) _ Hnew Hlk) as (f & Hf & Hp & Hfl & Hplain).
  exists f. split; [exact Hf|]. split; [exact Hp|]. split; [exact Hfl|].
  exact (Hplain Hsince).
Defined.

(** C9 (counterexample).  One [GetPage] and two [FreePage] calls on page 0:
    the page is resident with pin count 0, while the number of [GetPage]
    calls minus the number of [FreePage] calls is -1. *)
Lemma pin_count_not_plain_difference :
  let s := run [OpGet (page 0); OpFree (page 0) false; OpFree (page 0) false]
               (pool2 "LRU") in
  pinOf (page 0) s.1 = Some 0 /\ balance (page 0) s.2 = -1.
Proof. vm_compute. done. Qed.

(** The pool of the examples is the one [NewBufferManager] builds. *)
Lemma pool2_new pol :
  pol <> "" -> NewBufferManager (cfgPool pol) disk_spec.three2 = Ok (pool2 pol).
Proof.
  intros Hpol. unfold NewBufferManager, pool2. cbn. by rewrite decide_False.
Qed.

(** ** FlushBuffers *)

Lemma resetFrame_unpinned f : resetFrame (unpinned f) = resetFrame f.
Proof. reflexivity. Qed.

Lemma isReset_resetFrame f : isReset (resetFrame f).
Proof.
  unfold isReset, resetFrame. cbn. by rewrite length_zeros.
Qed.

Lemma flushFrames_clearPins fs d :
  (flushFrames (unpinned <$> fs) d).1.1 = (flushFrames fs d).1.1 /\
  (flushFrames (unpinned <$> fs) d).2 = (flushFrames fs d).2 /\
  match (flushFrames fs d).1.1 with
  | Ok _ => (flushFrames (unpinned <$> fs) d).1.2 = (flushFrames fs d).1.2 /\
            Forall isReset (flushFrames fs d).1.2
  | Err _ => True
  end.
Proof.
  revert d. induction fs as [|f fs IH]; intros d; cbn; [by repeat constructor|].
  destruct (Dirty f && negb (bool_decide (PageId f = zeroPageId))); cbn.
  - destruct (disk.WritePage (PageId f) (Data f) d) as [[[]|e] d1]; cbn; [|done].
    specialize (IH d1).
    destruct (flushFrames fs d1) as [[r fs1] d2].
    destruct (flushFrames (unpinned <$> fs) d1) as [[r0 fs0] d0]. cbn in *.
    destruct IH as (-> & -> & IH). repeat split; try done.
    destruct r; [|done]. destruct IH as [-> IH].
    split; [done|]. constructor; [apply isReset_resetFrame|done].
  - specialize (IH d).
    destruct (flushFrames fs d) as [[r fs1] d2].
    destruct (flushFrames (unpinned <$> fs) d) as [[r0 fs0] d0]. cbn in *.
    destruct IH as (-> & -> & IH). repeat split; try done.
    destruct r; [|done]. destruct IH as [-> IH].
    split; [done|]. constructor; [apply isReset_resetFrame|done].
Qed.

Lemma flushFrames_error fs d e :
  (flushFrames fs d).1.1 = Err e ->
  exists f d', f ∈ fs /\ Dirty f = true /\
               (disk.WritePage (PageId f) (Data f) d').1 = Err e.
Proof.
  revert d. induction fs as [|f fs IH]; intros d; cbn; [done|].
  destruct (Dirty f) eqn:Hd; cbn.
  - destruct (negb _); cbn.
    + destruct (disk.WritePage (PageId f) (Data f) d) as [[[]|e'] d1] eqn:Hw; cbn.
      * specialize (IH d1). destruct (flushFrames fs d1) as [[r fs1] d2]. cbn in *.
        intros Hr. destruct (IH Hr) as (f' & d' & ? & ? & ?).
        exists f', d'. split; [set_solver|done].
      * intros [= ->]. exists f, d. rewrite Hw. split; [set_solver|done].
    + specialize (IH d). destruct (flushFrames fs d) as [[r fs1] d2]. cbn in *.
      intros Hr. destruct (IH Hr) as (f' & d' & ? & ? & ?).
      exists f', d'. split; [set_solver|done].
  - specialize (IH d). destruct (flushFrames fs d) as [[r fs1] d2]. cbn in *.
    intros Hr. destruct (IH Hr) as (f' & d' & ? & ? & ?).
    exists f', d'. split; [set_solver|done].
Qed.

(** C3 (amended).  [FlushBuffers] never looks at a pin count: its outcome
    and what it does to the disk are those of the same pool with every pin
    count cleared, it fails only with the error of a [WritePage], and when it
    succeeds, pinned frames or not, the pool is the one the unpinned pool
    ends in: every frame reset to the sentinel with pin count 0 and zeroed
    data, the lookup map and the replacement list empty. *)
Theorem FlushBuffers_ignores_pins bm :
  (FlushBuffers (clearPins bm)).1 = (FlushBuffers bm).1 /\
  dm (FlushBuffers (clearPins bm)).2 = dm (FlushBuffers bm).2 /\
  match (FlushBuffers bm).1 with
  | Ok _ => (FlushBuffers (clearPins bm)).2 = (FlushBuffers bm).2 /\
            Forall isReset (frames (FlushBuffers bm).2) /\
            lookup (FlushBuffers bm).2 = ∅ /\
            repl (FlushBuffers bm).2 = []
  | Err e => exists f d, f ∈ frames bm /\ Dirty f = true /\
                         (disk.WritePage (PageId f) (Data f) d).1 = Err e
  end.
Proof.
  unfold FlushBuffers, clearPins. cbn [frames dm set_frames].
  pose proof (flushFrames_clearPins (frames bm) (dm bm)) as (H1 & H2 & H3).
  pose proof (flushFrames_error (frames bm) (dm bm)) as H4.
  destruct (flushFrames (frames bm) (dm bm)) as [[r fs1] d1].
  destruct (flushFrames (unpinned <$> frames bm) (dm bm)) as [[r0 fs0] d0].
  cbn in *. subst r0 d0. destruct r as [[]|e]; cbn.
  - destruct H3 as [-> H3]. done.
  - repeat split; try done. by apply H4.
Qed.

(** C3 (counterexample).  Page 1 is loaded and still pinned: [FlushBuffers]
    returns without error and has reset the pinned frame. *)
Lemma FlushBuffers_succeeds_with_pinned_frame :
  pinOf (page 1) onePinned = Some 1 /\
  (FlushBuffers onePinned).1 = Ok tt /\
  frames (FlushBuffers onePinned).2 <> frames onePinned /\
  lookup (FlushBuffers onePinned).2 !! page 1 = None.
Proof. vm_compute. repeat split; done. Qed.

(** One iteration of the loop of [FlushBuffers] on a frame that holds page
    (0,0): dirty or not, the frame is reset without a write, and keeps its
    dirty bit. *)
Lemma flushFrames_page_zero f rest d :
  PageId f = zeroPageId ->
  flushFrames (f :: rest) d =
    ((flushFrames rest d).1.1, resetFrame f :: (flushFrames rest d).1.2,
     (flushFrames rest d).2) /\
  Dirty (resetFrame f) = Dirty f.
Proof.
  intros Hz. cbn [flushFrames]. rewrite Hz, bool_decide_eq_true_2 by done.
  rewrite andb_false_r. destruct (flushFrames rest d) as [[r rest'] d1]. done.
Qed.

(** C4.  Pages 0 and 1 of segment 0 are resident, unpinned and dirty, with
    bytes 1..4 and 5..8.  [FlushBuffers] returns without error, writes page 1
    and skips page (0,0), whose bytes on disk are still zero, and the frame
    that held page (0,0) keeps its dirty bit. *)
Theorem FlushBuffers_skips_page_zero :
  (Data <$> frames twoDirty) = [[1; 2; 3; 4]; [5; 6; 7; 8]] /\
  (Dirty <$> frames twoDirty) = [true; true] /\
  (PinCount <$> frames twoDirty) = [0; 0] /\
  (FlushBuffers twoDirty).1 = Ok tt /\
  disk.dataFiles (dm (FlushBuffers twoDirty).2) !! 0 = Some [0; 0; 0; 0; 5; 6; 7; 8; 0; 0; 0; 0] /\
  (Dirty <$> frames (FlushBuffers twoDirty).2) = [true; false].
Proof. vm_compute. repeat split; done. Qed.

(** ** Replacement order *)

(** A hit moves the element to the back of the list under LRU and to the
    front under any other policy. *)
Lemma GetPage_hit_repl pid el bm :
  lookup bm !! pid = Some el ->
  repl (GetPage pid bm).2 =
    if decide (policy bm = PolicyLRU) then MoveToBack el (repl bm)
    else MoveToFront el (repl bm).
Proof.
  intros Hlk. unfold GetPage, touch. rewrite Hlk. cbn.
  destruct (frames bm !! Value el); cbn; done.
Qed.

Lemma last_cons_ne {A} (x : A) (l : list A) : l <> [] -> last (x :: l) = last l.
Proof. destruct l; done. Qed.

(** Under a policy other than LRU, after a hit on a resident page whose
    element shares the list with another one, the element the next eviction
    picks is not the one just hit. *)
Lemma MRU_victim_after_hit pid el other bm :
  policy bm <> PolicyLRU ->
  lookup bm !! pid = Some el ->
  el ∈ repl bm -> other ∈ repl bm -> other <> el ->
  exists v, victimOf (policy bm) (repl (GetPage pid bm).2) = Some v /\ v <> el.
Proof.
  intros Hpol Hlk Hel Hother Hne.
  rewrite (GetPage_hit_repl _ _ _ Hlk). unfold victimOf, MoveToFront.
  rewrite !decide_False by done. rewrite decide_True by done.
  assert (Hin : other ∈ filter (fun x => x <> el) (repl bm))
    by (apply list_elem_of_filter; done).
  rewrite last_cons_ne by (intros E; rewrite E in Hin; by apply not_elem_of_nil in Hin).
  destruct (last (filter (fun x => x <> el) (repl bm))) as [v|] eqn:Hlast.
  - exists v. split; [done|].
    apply last_Some in Hlast as [l' Hl'].
    assert (v ∈ filter (fun x => x <> el) (repl bm)) by (rewrite Hl'; set_solver).
    by apply list_elem_of_filter in H as [? _].
  - apply last_None in Hlast. rewrite Hlast in Hin. by apply not_elem_of_nil in Hin.
Qed.

(** C6.  Two frames under MRU hold pages 0 and 1, unpinned; page 0 is hit
    and unpinned again, then page 2 is requested.  The hit has moved the
    element of page 0 to the front, the end opposite to the one LRU uses, and
    the miss takes its victim from the back: page 2 goes to frame 1, the
    frame of page 1, and page 0, the most recently used page, stays
    resident.  The same calls under LRU evict the same frame. *)
Theorem MRU_evicts_least_recently_used :
  let bm := (run hitOnPage0 (pool2 "MRU")).1 in
  let bl := (run hitOnPage0 (pool2 "LRU")).1 in
  Value <$> lookup bm !! page 0 = Some O /\
  Value <$> lookup bm !! page 1 = Some 1%nat /\
  Value <$> repl bm = [O; 1%nat] /\
  Value <$> repl bl = [1%nat; O] /\
  (GetPage (page 2) bm).1 = Ok 1%nat /\
  Value <$> lookup (GetPage (page 2) bm).2 !! page 0 = Some O /\
  lookup (GetPage (page 2) bm).2 !! page 1 = None /\
  (GetPage (page 2) bl).1 = Ok 1%nat.
Proof. vm_compute. repeat split; done. Qed.

End BufferFacts.

(** * The record codec *)

Section CodecFacts.
Import config strconv relation relation_spec.


Lemma ofLe32_le32 u : 0 <= u < 2 ^ 32 -> ofLe32 (le32 u) = u.
Proof.
  intros Hu. unfold ofLe32, le32.
  change (2 ^ 32) with 4294967296 in Hu.
  Z.to_euclidean_division_equations. lia.
Qed.

Lemma length_le32 u : length (le32 u) = 4%nat.
Proof. reflexivity. Qed.

Lemma int32_uint32_int32 v : int32 (uint32 (int32 v)) = int32 v.
Proof.
  unfold int32, uint32. change (2 ^ 32) with 4294967296. change (2 ^ 31) with 2147483648.
  Z.to_euclidean_division_equations. lia.
Qed.

Lemma int32_id v : - 2 ^ 31 <= v < 2 ^ 31 -> int32 v = v.
Proof.
  unfold int32. change (2 ^ 32) with 4294967296. change (2 ^ 31) with 2147483648.
  intros H. Z.to_euclidean_division_equations. lia.
Qed.

Lemma uint32_range v : 0 <= uint32 v < 2 ^ 32.
Proof. unfold uint32. apply Z.mod_pos_bound. done. Qed.

Lemma trimAtZero_zeros k : trimAtZero (zeros k) = [].
Proof. destruct k; done. Qed.

Lemma trimAtZero_app_zeros l k : trimAtZero (l ++ zeros k) = trimAtZero l.
Proof.
  induction l as [|c l IH]; cbn; [apply trimAtZero_zeros|].
  case_decide; [done|]. by rewrite IH.
Qed.

Lemma length_store buf off bs :
  (off + length bs <= length buf)%nat -> length (store buf off bs) = length buf.
Proof.
  intros H. unfold store. rewrite !length_app, length_take, length_drop. lia.
Qed.

Lemma take_store buf off bs :
  (off <= length buf)%nat -> take off (store buf off bs) = take off buf.
Proof.
  intros H. unfold store. rewrite take_app_le by (rewrite length_take; lia).
  rewrite take_take. f_equal. lia.
Qed.

Lemma slice_store buf off bs :
  (off + length bs <= length buf)%nat -> slice (store buf off bs) off (length bs) = bs.
Proof.
  intros H. unfold slice, store.
  rewrite drop_app_length' by (rewrite length_take; lia).
  by rewrite take_app_length.
Qed.

Lemma slice_agree b1 b2 off w :
  take (off + w) b1 = take (off + w) b2 -> slice b1 off w = slice b2 off w.
Proof. intros H. unfold slice. rewrite !take_drop_commute. by rewrite H. Qed.


Section CodecRoundTrip.
Variable ParseFloat32 : gostring -> option Z.
Variable FormatG : Z -> gostring.

Lemma foldl_width a cols :
  foldl (fun sz c => sz + width c) a cols = a + sumWidths cols.
Proof.
  revert a. induction cols as [|c cols IH]; intros a; cbn; [lia|].
  rewrite IH. unfold sumWidths. lia.
Qed.

Lemma RecordSize_NewRelation name cols :
  RecordSize (NewRelation name cols) = sumWidths cols.
Proof. unfold NewRelation. cbn. by rewrite foldl_width. Qed.

Lemma encodeField_encodable col val :
  encodable ParseFloat32 col val ->
  exists bs, encodeField ParseFloat32 col val = Ok bs /\
             0 <= width col /\ length bs = Z.to_nat (width col) /\
             decodeField FormatG col bs = readsBackAs ParseFloat32 FormatG col val.
Proof.
  unfold encodable, encodeField, decodeField, readsBackAs, width.
  destruct (Kind col).
  - intros (v & -> & Hv). eexists. split; [done|]. repeat split; [lia|].
    rewrite ofLe32_le32 by apply uint32_range.
    by rewrite int32_uint32_int32, int32_id.
  - intros (bits & -> & Hb). eexists. split; [done|]. repeat split; [lia|].
    by rewrite ofLe32_le32.
  - intros Hs. destruct (Size col <? 0) eqn:E; [lia|].
    eexists. split; [done|]. split; [done|].
    assert (Hb : (if Size col <? Z.of_nat (length val)
                  then take (Z.to_nat (Size col)) val else val)
                 = take (Z.to_nat (Size col)) val).
    { destruct (Size col <? Z.of_nat (length val)) eqn:E2; [done|]. apply Z.ltb_ge in E2. rewrite take_ge by lia. done. }
    rewrite Hb. split.
    + rewrite length_app, length_zeros, length_take. lia.
    + apply trimAtZero_app_zeros.
  - intros Hs. destruct (Size col <? 0) eqn:E; [lia|].
    eexists. split; [done|]. split; [done|].
    assert (Hb : (if Size col <? Z.of_nat (length val)
                  then take (Z.to_nat (Size col)) val else val)
                 = take (Z.to_nat (Size col)) val).
    { destruct (Size col <? Z.of_nat (length val)) eqn:E2; [done|]. apply Z.ltb_ge in E2. rewrite take_ge by lia. done. }
    rewrite Hb. split.
    + rewrite length_app, length_zeros, length_take. lia.
    + apply trimAtZero_app_zeros.
Qed.

Lemma sumWidths_nonneg cols vals :
  Forall2 (encodable ParseFloat32) cols vals -> 0 <= sumWidths cols.
Proof.
  induction 1 as [|col val cols vals Hc _ IH]; [done|].
  destruct (encodeField_encodable col val Hc) as (? & _ & ? & _).
  unfold sumWidths in *. cbn. lia.
Qed.

Lemma writeFields_readFields cols vals :
  Forall2 (encodable ParseFloat32) cols vals ->
  forall buff off,
    Z.of_nat off + sumWidths cols <= Z.of_nat (length buff) ->
    exists buff',
      writeFields ParseFloat32 cols vals buff off = (Ok tt, buff') /\
      length buff' = length buff /\
      take off buff' = take off buff /\
      readFields FormatG cols buff' off =
        Ok (zip_with (readsBackAs ParseFloat32 FormatG) cols vals).
Proof.
  induction 1 as [|col val cols vals Hc Hrest IH]; intros buff off Hfit.
  - exists buff. done.
  - pose proof (sumWidths_nonneg _ _ Hrest) as Hnn.
    assert (Hsum : sumWidths (col :: cols) = width col + sumWidths cols) by done.
    rewrite Hsum in Hfit.
    destruct (encodeField_encodable col val Hc) as (bs & Henc & Hw & Hlen & Hdec).
    assert (Hin : (off + length bs <= length buff)%nat) by lia.
    destruct (IH (store buff off bs) (off + length bs)%nat) as (buff' & Hwr & Hl & Htk & Hrd).
    { rewrite length_store by done. lia. }
    exists buff'. cbn [writeFields readFields zip_with]. rewrite Henc.
    rewrite (proj2 (Nat.leb_le _ _) Hin), Hwr.
    rewrite length_store in Hl by done.
    split; [done|]. split; [done|]. split.
    + assert (take off (take (off + length bs) buff') =
              take off (take (off + length bs) (store buff off bs))) as Ht by (by rewrite Htk).
      rewrite !take_take in Ht. rewrite !Nat.min_l in Ht by lia.
      rewrite Ht. apply take_store. lia.
    + destruct (width col <? 0) eqn:E; [lia|].
      rewrite <- Hlen.
      rewrite (proj2 (Nat.leb_le _ _)) by lia.
      rewrite Hrd. do 2 f_equal.
      rewrite (slice_agree _ (store buff off bs)) by done.
      by rewrite slice_store.
Qed.

(** A CHAR/VARCHAR value without a zero byte among its first [n] bytes reads
    back as exactly those bytes; an INT value reads back as a string that
    [Atoi] parses to the same integer. *)
Lemma trimAtZero_no_zero l : Forall (fun b => b <> 0) l -> trimAtZero l = l.
Proof.
  induction 1 as [|b l Hb _ IH]; cbn; [done|]. rewrite decide_False by done. by rewrite IH.
Qed.

Lemma readsBackAs_text col val :
  Kind col = KindChar \/ Kind col = KindVarchar ->
  Forall (fun b => b <> 0) (take (Z.to_nat (Size col)) val) ->
  readsBackAs ParseFloat32 FormatG col val = take (Z.to_nat (Size col)) val.
Proof.
  intros [Hk|Hk] Hnz; unfold readsBackAs; rewrite Hk; by apply trimAtZero_no_zero.
Qed.

Lemma readsBackAs_int col val :
  Kind col = KindInt -> encodable ParseFloat32 col val ->
  Atoi (readsBackAs ParseFloat32 FormatG col val) = Atoi val.
Proof.
  unfold readsBackAs, encodable. intros ->. intros (v & -> & Hv).
  apply Atoi_FormatInt. change (2 ^ 31) with 2147483648 in Hv.
  change (2 ^ 63) with 9223372036854775808. lia.
Qed.

(** C7 (amended).  For every schema built by [NewRelation] and every record
    of matching arity whose INT fields parse into the [int32] range, whose
    FLOAT fields parse and whose CHAR/VARCHAR columns have a non-negative
    size, encoding at an offset the buffer has room for succeeds, and
    decoding the result at the same offset yields, field by field: for INT
    the decimal rendering of the parsed integer, for FLOAT the [%g]
    rendering of the parsed binary32, and for CHAR(n)/VARCHAR(n) the first
    [min(len, n)] bytes of the value cut at their first zero byte (all of
    them when none is zero). *)
Theorem codec_round_trip name cols vals buff pos :
  Forall2 (encodable ParseFloat32) cols vals ->
  0 <= pos -> pos + sumWidths cols <= Z.of_nat (length buff) ->
  exists buff',
    WriteRecordToBuffer ParseFloat32 (NewRelation name cols) {| Values := vals |} buff pos
      = (Ok tt, buff') /\
    ReadFromBuffer FormatG (NewRelation name cols) buff' pos
      = Ok {| Values := zip_with (readsBackAs ParseFloat32 FormatG) cols vals |}.
Proof.
  intros Henc Hpos Hfit.
  destruct (writeFields_readFields cols vals Henc buff (Z.to_nat pos)) as (buff' & Hwr & Hl & _ & Hrd);
    [lia|].
  exists buff'. unfold WriteRecordToBuffer, ReadFromBuffer.
  rewrite RecordSize_NewRelation. cbn [Values Columns NewRelation].
  rewrite decide_False by (apply Forall2_length in Henc; lia).
  rewrite Hl.
  destruct (pos <? 0) eqn:E1; [lia|].
  destruct (Z.of_nat (length buff) <? pos + sumWidths cols) eqn:E2; [lia|]. cbn.
  by rewrite Hwr, Hrd.
Qed.


End CodecRoundTrip.

Lemma codec_round_trip_witness :
  let cols := [intCol "id"; charCol "code" 3; varcharCol "note" 6] in
  let vals := [str "-123"; str "ABCD"; str "hello"] in
  Forall2 (encodable noFloat) cols vals /\
  exists buff',
    WriteRecordToBuffer noFloat (NewRelation "students" cols) {| Values := vals |}
      (zeros 14) 1 = (Ok tt, buff') /\
    ReadFromBuffer noFormat (NewRelation "students" cols) buff' 1
      = Ok {| Values := [str "-123"; str "ABC"; str "hello"] |}.
Proof.
  intros cols vals.
  assert (Henc : Forall2 (encodable noFloat) cols vals).
  { constructor; [exists (-123); split; [reflexivity|lia]|].
    constructor; [unfold encodable; cbn; lia|].
    constructor; [unfold encodable; cbn; lia|]. constructor. }
  split; [exact Henc|].
  exact (codec_round_trip noFloat noFormat "students" cols vals (zeros 14) 1 Henc
           ltac:(lia) ltac:(cbn; lia)).
Defined.

(** C7 (counterexample).  A CHAR(4) column and the three-byte value
    [a, 0, b]: encoding succeeds, and decoding yields the single byte [a],
    not the first three bytes of the value. *)
Lemma embedded_zero_is_cut :
  let r := NewRelation "t" [charCol "c" 4] in
  let val := [97; 0; 98] in
  WriteRecordToBuffer noFloat r {| Values := [val] |} (zeros 4) 0 = (Ok tt, [97; 0; 98; 0]) /\
  ReadFromBuffer noFormat r [97; 0; 98; 0] 0 = Ok {| Values := [[97]] |} /\
  [97] <> take 3 val.
Proof. vm_compute. repeat split; done. Qed.

(** An INT field is rejected exactly when [Atoi] rejects its string, that
    is, when it is not a decimal integer or lies outside [int64]. *)
Lemma encodeField_int_error pf col val :
  Kind col = KindInt ->
  (encodeField pf col val = Err ErrBadFieldInt <-> Atoi val = None).
Proof.
  intros Hk. unfold encodeField. rewrite Hk. destruct (Atoi val); split; done.
Qed.

(** Every [int64] written in decimal is accepted and stored modulo [2^32]. *)
Lemma encodeField_int_wraps pf col v :
  Kind col = KindInt -> - 2 ^ 63 <= v <= 2 ^ 63 - 1 ->
  encodeField pf col (FormatInt v) = Ok (le32 (uint32 (int32 v))).
Proof.
  intros Hk Hv. unfold encodeField. by rewrite Hk, Atoi_FormatInt.
Qed.

(** C5.  The INT field [2147483648], one more than the largest [int32]:
    [Atoi] accepts it, encoding succeeds and stores the four bytes of
    [-2147483648], and decoding yields that string. *)
Theorem int_field_beyond_int32_is_truncated :
  let r := NewRelation "t" [intCol "a"] in
  Atoi (str "2147483648") = Some 2147483648 /\
  2 ^ 31 - 1 < 2147483648 /\
  WriteRecordToBuffer noFloat r {| Values := [str "2147483648"] |} (zeros 4) 0
    = (Ok tt, [0; 0; 0; 128]) /\
  ReadFromBuffer noFormat r [0; 0; 0; 128] 0 = Ok {| Values := [str "-2147483648"] |}.
Proof. vm_compute. repeat split; done. Qed.

End CodecFacts.

(** * The heap-file manager *)

Section HeapFacts.
Import config strconv relation relation_spec heap_spec.

(** The manager of the scenario is the one the constructors return. *)
Lemma opened_new :
  buffer.NewBufferManager cfg30 disk30 = Ok pool30 /\
  NewRelationManager rel1 pool30 None = Ok opened.
Proof. split; reflexivity. Qed.


Lemma bind_Ok {A B} (c : M A) (k : A -> M B) rm a rm1 :
  c rm = (Ok a, rm1) -> (c ≫= k) rm = k a rm1.
Proof. intros H. unfold mbind, M_bind. by rewrite H. Qed.

Lemma bind_Err {A B} (c : M A) (k : A -> M B) rm e rm1 :
  c rm = (Err e, rm1) -> (c ≫= k) rm = (Err e, rm1).
Proof. intros H. unfold mbind, M_bind. by rewrite H. Qed.

Lemma walkList_S fuel pid :
  pid <> invalidPage ->
  walkList (S fuel) pid = (nx ← pageNext pid; rest ← walkList fuel nx; mret (pid :: rest)).
Proof. intros H. cbn [walkList]. by rewrite decide_False. Qed.

Lemma walkList_step fuel pid nx t t' :
  pid <> invalidPage -> pageNext pid t = (Ok nx, t') ->
  (walkList fuel nx t').1 = Err OutOfFuel ->
  (walkList (S fuel) pid t).1 = Err OutOfFuel.
Proof.
  intros Hp Hnx Hrest. rewrite walkList_S by done. rewrite (bind_Ok _ _ _ _ _ Hnx).
  destruct (walkList fuel nx t') as [[l|e] t2] eqn:E; cbn in Hrest; [done|].
  rewrite (bind_Err _ _ _ _ _ E). done.
Qed.

(** Two pages that are each other's successor: no walk from either of them
    reaches the sentinel. *)
Lemma walkList_cycle a b t t' :
  a <> invalidPage -> b <> invalidPage ->
  pageNext a t = (Ok b, t') -> pageNext b t' = (Ok a, t) ->
  forall fuel, (walkList fuel a t).1 = Err OutOfFuel /\
               (walkList fuel b t').1 = Err OutOfFuel.
Proof.
  intros Ha Hb Hab Hba. induction fuel as [|fuel [IHa IHb]]; [done|].
  split; eapply walkList_step; eauto.
Qed.


(** A delete on a page of the full list does what is expected of it: the
    page leaves the full list and becomes the head of the free list. *)
Lemma DeleteRecord_moves_full_page_to_free_list :
  (freeList 8 twoFull).1 = Ok [] /\
  (fullList 8 twoFull).1 = Ok [dataPage 2; dataPage 0] /\
  (delete 0 0 twoFull).1 = Ok tt /\
  (freeList 8 (delete 0 0 twoFull).2).1 = Ok [dataPage 0] /\
  (fullList 8 (delete 0 0 twoFull).2).1 = Ok [dataPage 2].
Proof. vm_compute. repeat split; done. Qed.

(** C1.  Data pages (0,2) and (0,0) are, in this order, the free list of the
    relation, the full list is empty, and slot 1 of page (0,0) is occupied.
    [DeleteRecord] of that slot returns without error and zeroes the bytemap
    byte and the payload of the slot; but it also rewrites the next pointer
    of page (0,0), a page of the free list, from the sentinel to (0,2) and
    makes (0,0) the head, while (0,2) still points to (0,0). *)
Theorem DeleteRecord_relinks_page_of_free_list :
  (freeList 8 twoFree).1 = Ok [dataPage 2; dataPage 0] /\
  (fullList 8 twoFree).1 = Ok [] /\
  pageBytes (dataPage 0) twoFree =
    Some [255; 255; 255; 255; 255; 255; 255; 255; 255; 255; 255; 255; 255; 255; 255; 255;
          2; 0; 0; 0;  0; 1;  0; 0; 0; 0;  2; 0; 0; 0] /\
  (delete 0 1 twoFree).1 = Ok tt /\
  pageBytes (dataPage 0) afterThirdDelete =
    Some [255; 255; 255; 255; 255; 255; 255; 255; 0; 0; 0; 0; 2; 0; 0; 0;
          2; 0; 0; 0;  0; 0;  0; 0; 0; 0;  0; 0; 0; 0] /\
  (pageNext (dataPage 0) twoFree).1 = Ok invalidPage /\
  (pageNext (dataPage 0) afterThirdDelete).1 = Ok (dataPage 2) /\
  (pageNext (dataPage 2) afterThirdDelete).1 = Ok (dataPage 0) /\
  (headerFirstWithSpace afterThirdDelete).1 = Ok (dataPage 0).
Proof. vm_compute. repeat split; done. Qed.

(** C2.  On a newly created relation with two slots per page, four inserts
    followed by three deletes all return without error, and afterwards the
    free list is a cycle: pages (0,0) and (0,2) are each other's successor,
    so no walk from the head of the free list reaches the sentinel, whatever
    the number of steps. *)
Theorem free_list_cyclic_after_inserts_and_deletes :
  (bothInFreeList created).1 = Ok tt /\
  (delete 0 1 twoFree).1 = Ok tt /\
  (freeList 8 twoFree).1 = Ok [dataPage 2; dataPage 0] /\
  forall fuel, (freeList fuel afterThirdDelete).1 = Err OutOfFuel.
Proof.
  split; [vm_compute; reflexivity|]. split; [vm_compute; reflexivity|].
  split; [vm_compute; reflexivity|]. intros fuel.
  assert (H0 : headerFirstWithSpace afterThirdDelete = (Ok (dataPage 0), walk0))
    by (vm_compute; reflexivity).
  assert (H1 : pageNext (dataPage 0) walk0 = (Ok (dataPage 2), walk1))
    by (vm_compute; reflexivity).
  assert (H2 : pageNext (dataPage 2) walk1 = (Ok (dataPage 0), walk2))
    by (vm_compute; reflexivity).
  assert (H3 : pageNext (dataPage 0) walk2 = (Ok (dataPage 2), walk3))
    by (vm_compute; reflexivity).
  assert (H4 : pageNext (dataPage 2) walk3 = (Ok (dataPage 0), walk2))
    by (vm_compute; reflexivity).
  assert (Hcyc := walkList_cycle (dataPage 0) (dataPage 2) walk2 walk3
                    ltac:(done) ltac:(done) H3 H4).
  unfold freeList. rewrite (bind_Ok _ _ _ _ _ H0).
  destruct fuel as [|fuel]; [done|].
  eapply walkList_step; [done|exact H1|].
  destruct fuel as [|fuel]; [done|].
  eapply walkList_step; [done|exact H2|].
  apply Hcyc.
Qed.

End HeapFacts.

(** * The disk manager: reads, writes, allocation and reopening *)

Section DiskMore.
Import config disk disk_spec disk_ops.


Lemma byteOf_lookup (file : list byte) (i : nat) (b : byte) :
  file !! i = Some b -> byteOf file i = b.
Proof. unfold byteOf. intros H. by rewrite H. Qed.

Lemma lookup_zeros n i : zeros n !! i = if decide (i < n)%nat then Some 0 else None.
Proof.
  unfold zeros. case_decide.
  - by apply lookup_replicate_2.
  - apply lookup_replicate_None. lia.
Qed.

Lemma byteOf_zeros n i : byteOf (zeros n) i = 0.
Proof. unfold byteOf. rewrite lookup_zeros. by case_decide. Qed.

Lemma byteOf_ge (file : list byte) (i : nat) : (length file <= i)%nat -> byteOf file i = 0.
Proof. intros H. unfold byteOf. by rewrite lookup_ge_None_2. Qed.

Lemma byteOf_app_zeros (file : list byte) (n i : nat) : byteOf (file ++ zeros n) i = byteOf file i.
Proof.
  unfold byteOf. destruct (decide (i < length file)%nat).
  - by rewrite lookup_app_l.
  - rewrite lookup_app_r by lia. rewrite lookup_zeros.
    rewrite (lookup_ge_None_2 file) by lia. by case_decide.
Qed.

(** [ReadAt] into a zeroed buffer of [n] bytes: byte [i] is the byte of the
    file at [off + i]. *)
Lemma lookup_readAt (file : list byte) (off n i : nat) :
  readAt file off n !! i = if decide (i < n)%nat then Some (byteOf file (off + i)) else None.
Proof.
  unfold readAt, copy. rewrite length_zeros, take_take, Nat.min_id.
  rewrite drop_zeros, length_take, length_drop.
  case_decide as Hi.
  - destruct (decide (i < length file - off)%nat).
    + rewrite lookup_app_l by (rewrite length_take, length_drop; lia).
      rewrite lookup_take_lt, lookup_drop by lia.
      destruct (file !! (off + i)%nat) eqn:E.
      * by rewrite (byteOf_lookup _ _ _ E).
      * apply lookup_ge_None_1 in E. lia.
    + rewrite lookup_app_r by (rewrite length_take, length_drop; lia).
      rewrite length_take, length_drop, lookup_zeros.
      rewrite decide_True by lia. by rewrite byteOf_ge by lia.
  - apply lookup_ge_None_2. rewrite length_app, length_take, length_drop, length_zeros. lia.
Qed.

Lemma length_readAt file off n : length (readAt file off n) = n.
Proof.
  unfold readAt, copy. rewrite length_app, length_take, length_drop, !length_zeros.
  rewrite length_take, length_drop. lia.
Qed.

(** The bytes of a segment file after a page write. *)
Lemma byteOf_withPage (file : list byte) (ps n : nat) (data : list byte) (i : nat) :
  (length data <= ps)%nat ->
  byteOf (withPage file ps n data) i =
    if decide (n * ps <= i < n * ps + ps)%nat
    then byteOf (data ++ zeros (ps - length data)) (i - n * ps)
    else byteOf file i.
Proof.
  intros Hd. unfold withPage.
  assert (Hlen : length (take (n * ps) (file ++ zeros (n * ps - length file))) = (n * ps)%nat).
  { rewrite length_take, length_app, length_zeros. lia. }
  assert (Hmid : length (data ++ zeros (ps - length data)) = ps).
  { rewrite length_app, length_zeros. lia. }
  unfold byteOf at 1.
  destruct (decide (i < n * ps)%nat).
  - rewrite lookup_app_l by lia. rewrite lookup_take_lt by lia.
    rewrite decide_False by lia. apply byteOf_app_zeros.
  - rewrite lookup_app_r by lia. rewrite Hlen.
    destruct (decide (i < n * ps + ps)%nat).
    + rewrite lookup_app_l by lia. rewrite decide_True by lia. done.
    + rewrite lookup_app_r by lia. rewrite Hmid, lookup_drop.
      rewrite decide_False by lia. unfold byteOf.
      replace (n * ps + ps + (i - n * ps - ps))%nat with i by lia. done.
Qed.



(** The bitmap of a segment once it is loaded depends only on what is in
    memory and on disk for that segment. *)
Lemma loaded_bitmap idx m :
  bitmap idx (ensureLoaded idx m) =
    match bitmaps m !! idx with
    | Some b => b
    | None => match bitmapFiles m !! idx with Some d => d | None => [] end
    end.
Proof.
  unfold ensureLoaded, loadBitmap, bitmap.
  destruct (bitmaps m !! idx) eqn:E1; cbn; [by rewrite E1|].
  destruct (bitmapFiles m !! idx) eqn:E2; cbn; by rewrite lookup_insert_eq.
Qed.

Lemma loaded_bitmap_ensureLoaded idx j m :
  bitmap idx (ensureLoaded idx (ensureLoaded j m)) = bitmap idx (ensureLoaded idx m).
Proof.
  rewrite !loaded_bitmap. unfold ensureLoaded, loadBitmap.
  destruct (bitmaps m !! j) eqn:E1; [done|].
  destruct (bitmapFiles m !! j) eqn:E2; cbn.
  - destruct (decide (j = idx)) as [->|]; [rewrite lookup_insert_eq, E1, E2; done|].
    by rewrite lookup_insert_ne.
  - destruct (decide (j = idx)) as [->|]; [rewrite lookup_insert_eq, E1, E2; done|].
    by rewrite !lookup_insert_ne.
Qed.

Lemma loaded_bitmap_set_dataFiles idx f m :
  bitmap idx (ensureLoaded idx (set_dataFiles f m)) = bitmap idx (ensureLoaded idx m).
Proof. by rewrite !loaded_bitmap. Qed.

(** The outcome of the range checks depends only on the configuration and
    on the loaded bitmap of the segment. *)
Lemma checkPage_fst pid m :
  (checkPage pid m).1 =
    if (FileIdx pid <? 0) || (DMMaxFileCount (cfg m) <=? FileIdx pid)
    then Err ErrInvalidFileIdx
    else if (PageIdx pid <? 0)
            || (Z.of_nat (length (bitmap (FileIdx pid) (ensureLoaded (FileIdx pid) m)))
                <=? PageIdx pid)
    then Err ErrInvalidPageIdx
    else Ok tt.
Proof. unfold checkPage. repeat case_match; done. Qed.

Lemma checkPage_dataFiles pid m : dataFiles (checkPage pid m).2 = dataFiles m.
Proof.
  unfold checkPage. repeat case_match; cbn; try done; apply ensureLoaded_dataFiles.
Qed.

Lemma checkPage_cfg pid m : cfg (checkPage pid m).2 = cfg m.
Proof.
  unfold checkPage. repeat case_match; cbn; try done; apply ensureLoaded_cfg.
Qed.

Lemma checkPage_Ok_valid pid m : (checkPage pid m).1 = Ok tt <-> validPage pid m.
Proof.
  rewrite checkPage_fst. unfold validPage.
  destruct (FileIdx pid <? 0) eqn:E1; [apply Z.ltb_lt in E1|apply Z.ltb_ge in E1];
    cbn; [split; [done|lia]|].
  destruct (_ <=? FileIdx pid) eqn:E2; [apply Z.leb_le in E2|apply Z.leb_gt in E2];
    cbn; [split; [done|lia]|].
  destruct (PageIdx pid <? 0) eqn:E3; [apply Z.ltb_lt in E3|apply Z.ltb_ge in E3];
    cbn; [split; [done|lia]|].
  destruct (_ <=? PageIdx pid) eqn:E4; [apply Z.leb_le in E4|apply Z.leb_gt in E4];
    cbn; [split; [done|lia]|].
  split; [lia|done].
Qed.

(** What [ReadPage] returns, in terms of the checks and of the segment
    file. *)
Lemma ReadPage_fst pid m :
  (ReadPage pid m).1 =
    match (checkPage pid m).1 with
    | Err e => Err e
    | Ok _ =>
        match dataFiles m !! FileIdx pid with
        | None => Err ErrNotExist
        | Some file =>
            if PageSize (cfg m) <? 0 then Err Panic
            else Ok (readAt file (Z.to_nat (PageIdx pid * PageSize (cfg m)))
                       (Z.to_nat (PageSize (cfg m))))
        end
    end.
Proof.
  unfold ReadPage. pose proof (checkPage_dataFiles pid m) as Hd.
  destruct (checkPage pid m) as [[[]|e] m1]; cbn in *; [|done].
  rewrite Hd. repeat case_match; done.
Qed.

Lemma ReadPage_dataFiles pid m : dataFiles (ReadPage pid m).2 = dataFiles m.
Proof.
  unfold ReadPage. pose proof (checkPage_dataFiles pid m) as Hd.
  destruct (checkPage pid m) as [[[]|e] m1]; cbn in *; [|done].
  repeat case_match; done.
Qed.

Lemma WritePage_snd pid data m :
  accepted pid data m -> consistent m ->
  exists file,
    dataFiles m !! FileIdx pid = Some file /\
    (WritePage pid data m).2 =
      set_dataFiles
        (insert (FileIdx pid)
           (withPage file (Z.to_nat (PageSize (cfg m))) (Z.to_nat (PageIdx pid)) data))
        (ensureLoaded (FileIdx pid) m).
Proof.
  intros [Hl Hv] Hc. destruct (WritePage_ok pid data m Hc Hv Hl) as (file & Hf & ->).
  exists file. done.
Qed.

Lemma checkPage_fst_after_write q fi f m :
  (checkPage q (set_dataFiles f (ensureLoaded fi m))).1 = (checkPage q m).1.
Proof.
  rewrite !checkPage_fst. cbn [cfg set_dataFiles].
  rewrite loaded_bitmap_set_dataFiles, loaded_bitmap_ensureLoaded, ensureLoaded_cfg. done.
Qed.

Lemma page_offset (k ps : Z) :
  0 <= k -> 0 <= ps -> Z.to_nat (k * ps) = (Z.to_nat k * Z.to_nat ps)%nat.
Proof. intros. by rewrite Z2Nat.inj_mul. Qed.

(** A page read right after it was written is the data, zero-padded. *)
Lemma read_back_written pid data m :
  consistent m -> accepted pid data m ->
  (ReadPage pid (WritePage pid data m).2).1 =
    Ok (data ++ zeros (Z.to_nat (PageSize (cfg m)) - length data)).
Proof.
  intros Hc Hacc. destruct (WritePage_snd pid data m Hacc Hc) as (file & Hf & ->).
  destruct Hacc as [Hl Hv].
  rewrite ReadPage_fst, checkPage_fst_after_write.
  rewrite (proj2 (checkPage_Ok_valid pid m) Hv).
  cbn [dataFiles set_dataFiles cfg]. rewrite lookup_insert_eq, ensureLoaded_cfg.
  set (ps := PageSize (cfg m)) in *.
  destruct (ps <? 0) eqn:E; [lia|]. f_equal.
  destruct Hv as [_ Hp]. rewrite page_offset by lia.
  apply list_eq. intros i. rewrite lookup_readAt.
  assert (Hmid : length (data ++ zeros (Z.to_nat ps - length data)) = Z.to_nat ps)
    by (rewrite length_app, length_zeros; lia).
  case_decide as Hi.
  - rewrite byteOf_withPage by lia. rewrite decide_True by lia.
    replace (Z.to_nat (PageIdx pid) * Z.to_nat ps + i - Z.to_nat (PageIdx pid) * Z.to_nat ps)%nat
      with i by lia.
    unfold byteOf. destruct (_ !! i) eqn:E2; [done|].
    apply lookup_ge_None_1 in E2. lia.
  - symmetry. apply lookup_ge_None_2. lia.
Qed.

(** A write leaves every other page as it was. *)
Lemma read_back_other pid q data m :
  consistent m -> accepted pid data m -> q <> pid ->
  (ReadPage q (WritePage pid data m).2).1 = (ReadPage q m).1.
Proof.
  intros Hc Hacc Hne. destruct (WritePage_snd pid data m Hacc Hc) as (file & Hf & ->).
  destruct Hacc as [Hl [_ Hp]].
  rewrite !ReadPage_fst, checkPage_fst_after_write.
  destruct ((checkPage q m).1) as [[]|e] eqn:Hq; [|done].
  apply checkPage_Ok_valid in Hq as [_ Hqp].
  cbn [dataFiles set_dataFiles cfg]. rewrite ensureLoaded_cfg, ensureLoaded_dataFiles.
  destruct (decide (FileIdx pid = FileIdx q)) as [Hfi|Hfi];
    [|by rewrite lookup_insert_ne].
  rewrite <- Hfi, lookup_insert_eq, Hf.
  set (ps := PageSize (cfg m)) in *.
  destruct (ps <? 0) eqn:E; [done|]. f_equal.
  assert (Hk : Z.to_nat (PageIdx q) <> Z.to_nat (PageIdx pid)).
  { intros Hk. apply Hne. destruct q, pid; cbn in *. f_equal; lia. }
  rewrite !page_offset by lia.
  apply list_eq. intros i. rewrite !lookup_readAt.
  case_decide as Hi; [|done]. f_equal.
  rewrite byteOf_withPage by lia. rewrite decide_False; [done|]. nia.
Qed.



Lemma firstZero_Some (l : list byte) i :
  firstZero l = Some i -> l !! i = Some 0 /\ forall j b, (j < i)%nat -> l !! j = Some b -> b <> 0.
Proof.
  revert i. induction l as [|b l IH]; intros i; cbn; [done|].
  case_decide as Hb.
  - intros [= <-]. split; [by rewrite Hb|]. intros j b' Hj. lia.
  - destruct (firstZero l) as [k|]; cbn; [|done]. intros [= <-].
    destruct (IH k eq_refl) as [H0 Hlt]. split; [done|].
    intros [|j] b' Hj; cbn; [by intros [= <-]|]. apply Hlt. lia.
Qed.

Lemma firstZero_None (l : list byte) : firstZero l = None -> Forall (fun b => b <> 0) l.
Proof.
  induction l as [|b l IH]; cbn; [constructor|].
  case_decide; [done|]. destruct (firstZero l); cbn; [done|]. intros _. constructor; auto.
Qed.

Lemma firstZero_le (l : list byte) k :
  l !! k = Some 0 -> exists i, firstZero l = Some i /\ (i <= k)%nat.
Proof.
  revert k. induction l as [|b l IH]; intros k; cbn; [done|].
  case_decide as Hb; [exists O; split; [done|lia]|].
  destruct k as [|k]; cbn; [by intros [= ->]|].
  intros Hk. destruct (IH k Hk) as (i & -> & Hi). exists (S i). split; [done|lia].
Qed.

Lemma segments_cons m :
  0 < DMMaxFileCount (cfg m) -> exists rest, segments m = 0 :: rest.
Proof.
  intros H. unfold segments.
  destruct (Z.to_nat (DMMaxFileCount (cfg m))) as [|k] eqn:E; [lia|].
  rewrite <- cons_seq, fmap_cons. eauto.
Qed.

(** What a successful [AllocatePage] does to the allocation state. *)
Lemma AllocatePage_Ok pid m m' :
  AllocatePage m = (Ok pid, m') ->
  0 < PageSize (cfg m) /\ 0 < DMMaxFileCount (cfg m) /\
  m' = (allocateIn 0 m).2 /\ (allocateIn 0 m).1 = Return (Ok pid).
Proof.
  unfold AllocatePage. destruct (_ <=? 0) eqn:Eps; [done|]. apply Z.leb_gt in Eps.
  destruct (decide (0 < DMMaxFileCount (cfg m))) as [Hmax|Hmax].
  - destruct (segments_cons m Hmax) as [rest ->]. rewrite allocateLoop_first.
    destruct (allocateIn_returns 0 m) as (p & Hp & _). rewrite Hp.
    intros [= <- <-]. done.
  - unfold segments. replace (Z.to_nat (DMMaxFileCount (cfg m))) with O by lia. done.
Qed.

(** The page [AllocatePage] returns was free or beyond the end of the
    bitmap of segment 0; afterwards it is in range and marked used, and no
    other byte of the bitmap has changed. *)
Lemma AllocatePage_effect pid m m' :
  AllocatePage m = (Ok pid, m') ->
  let before := bitmap 0 (ensureLoaded 0 m) in
  let i := Z.to_nat (PageIdx pid) in
  FileIdx pid = 0 /\ PageIdx pid = Z.of_nat i /\
  (before !! i = Some 0 \/ i = length before) /\
  bitmap 0 m' !! i = Some 1 /\
  (forall j, j <> i -> bitmap 0 m' !! j = before !! j) /\
  validPage pid m'.
Proof.
  intros H. apply AllocatePage_Ok in H as (Hps & Hmax & -> & Hr). cbn zeta.
  assert (Hb : forall bmp m1, bitmap 0 (persistBitmap 0 (set_bitmaps (insert 0 bmp) m1)) = bmp).
  { intros. unfold bitmap. cbn. by rewrite lookup_insert_eq. }
  assert (Hv : forall m1, cfg m1 = cfg m -> bitmaps m1 !! 0 = Some (bitmap 0 m1) ->
             forall k, (k < length (bitmap 0 m1))%nat ->
             validPage {| FileIdx := 0; PageIdx := Z.of_nat k |} m1).
  { intros m1 Hcfg Hl k Hk. unfold validPage. cbn. rewrite Hcfg.
    unfold ensureLoaded. rewrite Hl. lia. }
  unfold allocateIn in *.
  destruct (firstZero (bitmap 0 (ensureLoaded 0 m))) as [i|] eqn:E; cbn in Hr;
    injection Hr as <-; cbn [FileIdx PageIdx snd].
  - apply firstZero_Some in E as [E _]. rewrite Nat2Z.id.
    pose proof (lookup_lt_Some _ _ _ E) as Hlt.
    split; [done|]. split; [done|]. split; [by left|]. rewrite Hb.
    split; [by apply list_lookup_insert_eq|].
    split; [by intros j Hj; apply list_lookup_insert_ne|].
    apply Hv; [cbn; apply ensureLoaded_cfg| |].
    + unfold bitmap at 2. cbn. by rewrite lookup_insert_eq.
    + rewrite Hb, length_insert. done.
  - rewrite length_app. cbn [length].
    replace (Z.to_nat (Z.of_nat (length (bitmap 0 (ensureLoaded 0 m)) + 1) - 1))
      with (length (bitmap 0 (ensureLoaded 0 m))) by lia.
    split; [done|]. split; [lia|]. split; [by right|]. rewrite Hb.
    split; [by rewrite lookup_app_r, Nat.sub_diag|].
    split.
    { intros j Hj. destruct (decide (j < length (bitmap 0 (ensureLoaded 0 m)))%nat).
      - by rewrite lookup_app_l.
      - rewrite lookup_ge_None_2 by (rewrite length_app; cbn; lia).
        symmetry. apply lookup_ge_None_2. lia. }
    replace (Z.of_nat (length (bitmap 0 (ensureLoaded 0 m)) + 1) - 1)
      with (Z.of_nat (length (bitmap 0 (ensureLoaded 0 m)))) by lia.
    apply Hv; [cbn; apply ensureLoaded_cfg| |].
    + unfold bitmap at 2. cbn. by rewrite lookup_insert_eq.
    + rewrite Hb, length_app. cbn. lia.
Qed.



Lemma ensureLoaded_loaded idx m b : bitmaps m !! idx = Some b -> ensureLoaded idx m = m.
Proof. intros H. unfold ensureLoaded. by rewrite H. Qed.

Lemma allocateIn_bitmaps_loaded idx m :
  bitmaps (allocateIn idx m).2 !! idx = Some (bitmap idx (allocateIn idx m).2).
Proof.
  unfold allocateIn. destruct (firstZero _); cbn; unfold bitmap; cbn;
    by rewrite !lookup_insert_eq.
Qed.

(** X4.  Two allocations in a row never return the same page. *)
Theorem AllocatePage_twice_distinct m p1 m1 p2 m2 :
  AllocatePage m = (Ok p1, m1) -> AllocatePage m1 = (Ok p2, m2) -> p1 <> p2.
Proof.
  intros H1 H2.
  pose proof (AllocatePage_effect _ _ _ H1) as Hfirst.
  pose proof (AllocatePage_effect _ _ _ H2) as Hsecond.
  cbv zeta in Hfirst, Hsecond.
  destruct Hfirst as (_ & _ & _ & Hone & _ & _). destruct Hsecond as (_ & _ & Hfree & _).
  apply AllocatePage_Ok in H1 as (_ & _ & -> & _).
  rewrite (ensureLoaded_loaded 0 _ _ (allocateIn_bitmaps_loaded 0 m)) in Hfree.
  intros <-. destruct Hfree as [Hz|Hlen].
  - rewrite Hone in Hz. done.
  - apply lookup_lt_Some in Hone. unfold byte in *. lia.
Qed.

(** What a successful [FreePage] leaves. *)
Lemma FreePage_Ok pid m m' :
  FreePage pid m = (Ok tt, m') ->
  validPage pid m /\
  m' = persistBitmap (FileIdx pid)
         (set_bitmaps (insert (FileIdx pid)
            (<[Z.to_nat (PageIdx pid) := 0]> (bitmap (FileIdx pid) (ensureLoaded (FileIdx pid) m))))
            (ensureLoaded (FileIdx pid) m)).
Proof.
  unfold FreePage. pose proof (checkPage_Ok_valid pid m) as Hv.
  destruct (checkPage pid m) as [[[]|e] m1] eqn:E; [|done].
  intros [= <-]. split; [by apply Hv|].
  rewrite checkPage_ok in E by (by apply Hv). by injection E as <-.
Qed.

Lemma FreePage_valid pid m : validPage pid m -> exists m', FreePage pid m = (Ok tt, m').
Proof. intros Hv. unfold FreePage. rewrite checkPage_ok by done. eauto. Qed.

(** X5.  A page that was freed can be freed again: the
    second call succeeds and changes nothing, neither in memory nor on
    disk. *)
Theorem FreePage_twice pid m m' :
  FreePage pid m = (Ok tt, m') -> FreePage pid m' = (Ok tt, m').
Proof.
  intros H. apply FreePage_Ok in H as [[Hf Hp] ->].
  set (bmp := bitmap (FileIdx pid) (ensureLoaded (FileIdx pid) m)) in *.
  set (m1 := persistBitmap _ _).
  assert (Hl : bitmaps m1 !! FileIdx pid = Some (<[Z.to_nat (PageIdx pid) := 0]> bmp))
    by (cbn; by rewrite lookup_insert_eq).
  unfold FreePage, checkPage. cbn [cfg m1 persistBitmap set_bitmapFiles set_bitmaps].
  rewrite ensureLoaded_cfg.
  destruct (FileIdx pid <? 0) eqn:E1; [lia|].
  destruct (_ <=? FileIdx pid) eqn:E2; [lia|]. cbn [orb].
  rewrite (ensureLoaded_loaded _ _ _ Hl).
  assert (Hb : bitmap (FileIdx pid) m1 = <[Z.to_nat (PageIdx pid) := 0]> bmp)
    by (unfold bitmap; by rewrite Hl).
  rewrite Hb, length_insert.
  destruct (PageIdx pid <? 0) eqn:E3; [lia|].
  destruct (_ <=? PageIdx pid) eqn:E4; [lia|]. cbn [orb].
  f_equal. rewrite Hb, list_insert_insert_eq.
  unfold m1, persistBitmap, set_bitmaps, set_bitmapFiles, bitmap. cbn.
  rewrite ?lookup_insert_eq, ?insert_insert_eq. cbn.
  rewrite ?lookup_insert_eq, ?insert_insert_eq. done.
Qed.

(** X6.  After a page of segment 0 is freed, the next allocation returns a
    page at or below it: freed pages are reused, lowest index first. *)
Theorem AllocatePage_reuses_freed_page pid m m' :
  FreePage pid m = (Ok tt, m') -> FileIdx pid = 0 -> 0 < PageSize (cfg m) ->
  exists i, (AllocatePage m').1 = Ok {| FileIdx := 0; PageIdx := i |} /\
            0 <= i <= PageIdx pid /\
            bitmap 0 m' !! Z.to_nat i = Some 0.
Proof.
  intros H Hf0 Hps. apply FreePage_Ok in H as [[Hf Hp] ->]. rewrite Hf0 in *.
  set (bmp := bitmap 0 (ensureLoaded 0 m)) in *.
  set (m1 := persistBitmap _ _).
  assert (Hl : bitmaps m1 !! 0 = Some (<[Z.to_nat (PageIdx pid) := 0]> bmp))
    by (cbn; by rewrite lookup_insert_eq).
  assert (Hb : bitmap 0 m1 = <[Z.to_nat (PageIdx pid) := 0]> bmp)
    by (unfold bitmap; by rewrite Hl).
  assert (Hcfg : cfg m1 = cfg m) by apply ensureLoaded_cfg.
  destruct (firstZero_le (bitmap 0 m1) (Z.to_nat (PageIdx pid))) as (i & Hi & Hle).
  { rewrite Hb. apply list_lookup_insert_eq. unfold byte in *. lia. }
  exists (Z.of_nat i). unfold AllocatePage. rewrite Hcfg.
  destruct (_ <=? 0) eqn:E; [lia|].
  destruct (segments_cons m1) as [rest ->]; [rewrite Hcfg; lia|].
  rewrite allocateLoop_first. unfold allocateIn.
  rewrite (ensureLoaded_loaded _ _ _ Hl), Hi. cbn.
  split; [done|]. split; [lia|]. rewrite Nat2Z.id. by apply firstZero_Some in Hi as [? _].
Qed.



(** ** Finish, and a manager opened on the files it leaves *)

Lemma consistent_persistBitmap idx m : consistent m -> consistent (persistBitmap idx m).
Proof.
  intros Hc i b. unfold persistBitmap, bitmap. cbn.
  destruct (decide (idx = i)) as [->|Hne].
  - rewrite lookup_insert_eq. intros [Hb|[= <-]]; [by eauto|].
    destruct (bitmaps m !! i) as [bmp|] eqn:E; cbn; [|done]. eauto.
  - rewrite lookup_insert_ne by done. apply Hc.
Qed.

(** What a round of [persistBitmap] calls leaves: the state in memory is
    untouched, the file of each segment of the round holds its bitmap, and
    the other bitmap files are as they were. *)
Lemma persist_round (l : list (Z * list byte)) m :
  let m' := foldr (fun kv acc => persistBitmap kv.1 acc) m l in
  cfg m' = cfg m /\ bitmaps m' = bitmaps m /\ dataFiles m' = dataFiles m /\
  (consistent m -> consistent m') /\
  forall idx, bitmapFiles m' !! idx =
    if decide (idx ∈ l.*1) then Some (bitmap idx m) else bitmapFiles m !! idx.
Proof.
  induction l as [|kv l IH]; cbn zeta.
  - split; [done|]. split; [done|]. split; [done|]. split; [done|].
    intros idx. rewrite decide_False; [done|]. cbn. apply not_elem_of_nil.
  - cbn [foldr]. cbn zeta in IH. destruct IH as (H1 & H2 & H3 & H4 & H5).
    set (acc := foldr _ m l) in *.
    split; [done|]. split; [done|]. split; [done|].
    split; [intros Hc; by apply consistent_persistBitmap, H4|].
    intros idx. unfold persistBitmap at 1. cbn [bitmapFiles set_bitmapFiles fmap list_fmap].
    assert (Hb : bitmap kv.1 acc = bitmap kv.1 m) by (unfold bitmap; by rewrite H2).
    destruct (decide (kv.1 = idx)) as [<-|Hne].
    + rewrite lookup_insert_eq, Hb. rewrite decide_True; [done|]. by left.
    + rewrite lookup_insert_ne by done. rewrite H5.
      destruct (decide (idx ∈ l.*1)) as [Hin|Hin].
      * rewrite decide_True; [done|]. by right.
      * rewrite decide_False; [done|]. intros [?|?]%elem_of_cons; congruence.
Qed.

Lemma Finish_effect m :
  cfg (Finish m) = cfg m /\ bitmaps (Finish m) = bitmaps m /\
  dataFiles (Finish m) = dataFiles m /\
  (consistent m -> consistent (Finish m)) /\
  forall idx, bitmapFiles (Finish m) !! idx =
    match bitmaps m !! idx with
    | Some bmp => Some bmp
    | None => bitmapFiles m !! idx
    end.
Proof.
  unfold Finish. destruct (persist_round (map_to_list (bitmaps m)) m) as (H1 & H2 & H3 & H4 & H5).
  repeat split; try done. intros idx. rewrite H5.
  destruct (bitmaps m !! idx) as [bmp|] eqn:E.
  - rewrite decide_True.
    + unfold bitmap. by rewrite E.
    + apply list_elem_of_fmap. exists (idx, bmp). split; [done|]. by apply elem_of_map_to_list.
  - rewrite decide_False; [done|]. intros [[k v] [-> Hkv]]%list_elem_of_fmap.
    apply elem_of_map_to_list in Hkv. cbn in E. congruence.
Qed.

Lemma consistent_perform m c : consistent m -> consistent (perform m c).
Proof.
  intros Hc. destruct c; cbn.
  - by apply consistent_AllocatePage.
  - by apply consistent_FreePage.
  - by apply consistent_WritePage.
  - by apply consistent_ReadPage.
  - by apply Finish_effect.
Qed.

Lemma consistent_performAll cs m : consistent m -> consistent (performAll cs m).
Proof.
  unfold performAll. revert m. induction cs as [|c cs IH]; intros m Hc; [done|].
  cbn. by apply IH, consistent_perform.
Qed.

(** X8.  After a [Finish] whose bitmap writes all
    went through, in whatever state it was called, every bitmap held in
    memory is in its file, and a manager opened on the same files, with no
    bitmap loaded, finds those bitmaps and gets from [ReadPage] the bytes,
    or the error, the old manager gets, before and after the [Finish], for
    every page.  The operating system is taken not to fail on its own. *)
Theorem reopen_reads_the_same m pid :
  synced (Finish m) /\
  (forall idx bmp, bitmaps m !! idx = Some bmp ->
                   bitmap idx (ensureLoaded idx (reopen (Finish m))) = bmp) /\
  (ReadPage pid (reopen (Finish m))).1 = (ReadPage pid (Finish m)).1 /\
  (ReadPage pid (Finish m)).1 = (ReadPage pid m).1.
Proof.
  destruct (Finish_effect m) as (Hcfg & Hbm & Hdf & _ & Hfiles).
  assert (Hb : forall idx, bitmap idx (ensureLoaded idx (reopen (Finish m))) =
                           bitmap idx (ensureLoaded idx m)).
  { intros idx. rewrite !loaded_bitmap. cbn. rewrite lookup_empty, Hfiles.
    by destruct (bitmaps m !! idx). }
  assert (Hb' : forall idx, bitmap idx (ensureLoaded idx (Finish m)) =
                            bitmap idx (ensureLoaded idx m)).
  { intros idx. rewrite !loaded_bitmap. rewrite Hbm, Hfiles.
    by destruct (bitmaps m !! idx). }
  split; [|split; [|split]].
  - intros idx bmp Hl. rewrite Hbm in Hl. by rewrite Hfiles, Hl.
  - intros idx bmp Hl. by rewrite Hb, loaded_bitmap, Hl.
  - rewrite !ReadPage_fst, !checkPage_fst, Hb, Hb'. done.
  - rewrite !ReadPage_fst, !checkPage_fst, Hb', Hcfg, Hdf. done.
Qed.

(** X1.  On a consistent manager, reading a page right after an accepted
    [WritePage] returns the written bytes followed by zeros up to the page
    size. *)
Theorem ReadPage_after_WritePage pid data m :
  consistent m -> accepted pid data m ->
  (ReadPage pid (WritePage pid data m).2).1 =
    Ok (data ++ zeros (Z.to_nat (PageSize (cfg m)) - length data)).
Proof. apply read_back_written. Qed.

Lemma ReadPage_after_WritePage_witness :
  consistent three2 /\ accepted {| FileIdx := 0; PageIdx := 1 |} [7; 9] three2 /\
  (ReadPage {| FileIdx := 0; PageIdx := 1 |}
     (WritePage {| FileIdx := 0; PageIdx := 1 |} [7; 9] three2).2).1 = Ok [7; 9; 0; 0].
Proof.
  assert (Hc : consistent three2) by (repeat apply consistent_AllocatePage; apply consistent_Init).
  assert (Ha : accepted {| FileIdx := 0; PageIdx := 1 |} [7; 9] three2) by (vm_compute; intuition discriminate).
  split; [exact Hc|]. split; [exact Ha|].
  exact (ReadPage_after_WritePage _ _ _ Hc Ha).
Defined.

(** X2.  An accepted [WritePage] changes what [ReadPage] returns for no other
    page, of the same segment or of another one: same bytes, or same
    error. *)
Theorem ReadPage_other_after_WritePage pid q data m :
  consistent m -> accepted pid data m -> q <> pid ->
  (ReadPage q (WritePage pid data m).2).1 = (ReadPage q m).1.
Proof. apply read_back_other. Qed.

Lemma ReadPage_other_after_WritePage_witness :
  consistent three2 /\ accepted {| FileIdx := 0; PageIdx := 1 |} [7; 9] three2 /\
  (ReadPage {| FileIdx := 0; PageIdx := 2 |}
     (WritePage {| FileIdx := 0; PageIdx := 1 |} [7; 9] three2).2).1 =
  (ReadPage {| FileIdx := 0; PageIdx := 2 |} three2).1.
Proof.
  assert (Hc : consistent three2) by (repeat apply consistent_AllocatePage; apply consistent_Init).
  assert (Ha : accepted {| FileIdx := 0; PageIdx := 1 |} [7; 9] three2) by (vm_compute; intuition discriminate).
  split; [exact Hc|]. split; [exact Ha|].
  apply (ReadPage_other_after_WritePage _ _ _ _ Hc Ha). discriminate.
Defined.

(** X3.  The page a successful [AllocatePage] returns is in segment 0 and was
    marked free in its bitmap or lies just beyond its end; afterwards the
    page is marked used and is in range for reads and writes, and no other
    byte of the bitmap has changed. *)
Theorem AllocatePage_claims_unused_page pid m m' :
  AllocatePage m = (Ok pid, m') ->
  let before := bitmap 0 (ensureLoaded 0 m) in
  let i := Z.to_nat (PageIdx pid) in
  FileIdx pid = 0 /\ PageIdx pid = Z.of_nat i /\
  (before !! i = Some 0 \/ i = length before) /\
  bitmap 0 m' !! i = Some 1 /\
  (forall j, j <> i -> bitmap 0 m' !! j = before !! j) /\
  validPage pid m'.
Proof. apply AllocatePage_effect. Qed.

Lemma AllocatePage_claims_unused_page_witness :
  validPage {| FileIdx := 0; PageIdx := 3 |} (AllocatePage three2).2.
Proof.
  refine (proj2 (proj2 (proj2 (proj2 (proj2
    (AllocatePage_claims_unused_page {| FileIdx := 0; PageIdx := 3 |} three2
       (AllocatePage three2).2 _)))))).
  vm_compute. reflexivity.
Defined.

Lemma AllocatePage_twice_distinct_witness :
  (AllocatePage fresh2).1 <> (AllocatePage (AllocatePage fresh2).2).1.
Proof.
  intros E.
  refine (AllocatePage_twice_distinct fresh2 {| FileIdx := 0; PageIdx := 0 |}
            (AllocatePage fresh2).2 {| FileIdx := 0; PageIdx := 1 |}
            (AllocatePage (AllocatePage fresh2).2).2 _ _ _);
    [vm_compute; reflexivity|vm_compute; reflexivity|].
  vm_compute in E. discriminate E.
Defined.

Lemma FreePage_twice_witness :
  let pid := {| FileIdx := 0; PageIdx := 1 |} in
  FreePage pid (FreePage pid three2).2 = (Ok tt, (FreePage pid three2).2).
Proof.
  intros pid. apply (FreePage_twice pid three2). vm_compute. reflexivity.
Defined.

Lemma AllocatePage_reuses_freed_page_witness :
  let pid := {| FileIdx := 0; PageIdx := 1 |} in
  exists i, (AllocatePage (FreePage pid three2).2).1 = Ok {| FileIdx := 0; PageIdx := i |} /\
            0 <= i <= 1 /\ bitmap 0 (FreePage pid three2).2 !! Z.to_nat i = Some 0.
Proof.
  intros pid. apply (AllocatePage_reuses_freed_page pid three2 (FreePage pid three2).2).
  - vm_compute. reflexivity.
  - reflexivity.
  - vm_compute. reflexivity.
Defined.

(** X7.  The state after [Init] in an empty directory is
    consistent, and from a consistent state every sequence of
    [AllocatePage], [FreePage], [WritePage], [ReadPage] and [Finish] calls,
    those rejected by their checks included, leads to a consistent state:
    every segment with a page in its bitmap, in memory or on disk, has its
    data file.  The operating system is taken not to fail on its own. *)
Theorem disk_invariant c cs :
  consistent (Init (NewDiskManager c)) /\
  forall m, consistent m -> consistent (performAll cs m).
Proof. split; [apply consistent_Init|apply consistent_performAll]. Qed.

End DiskMore.

(** * The buffer pool: residency, pinning and write-back *)

Section DiskReads.
Import config disk disk_spec disk_ops.

Lemma WritePage_Ok_accepted pid data m m' :
  WritePage pid data m = (Ok tt, m') -> accepted pid data m.
Proof.
  intros H. destruct (classic_accepted pid data m) as [Ha|Hn]; [done|].
  destruct (WritePage_rejects pid data m Hn) as (e & He & _). rewrite H in He. done.
Qed.

Lemma WritePage_cfg pid data m : cfg (WritePage pid data m).2 = cfg m.
Proof.
  unfold WritePage. destruct (_ <? _); [done|].
  pose proof (checkPage_cfg pid m) as Hc.
  destruct (checkPage pid m) as [[[]|e] m1]; cbn in *; [|done].
  destruct (dataFiles m1 !! FileIdx pid); cbn; done.
Qed.

Lemma ReadPage_cfg pid m : cfg (ReadPage pid m).2 = cfg m.
Proof.
  unfold ReadPage. pose proof (checkPage_cfg pid m) as Hc.
  destruct (checkPage pid m) as [[[]|e] m1]; cbn in *; [|done].
  repeat case_match; done.
Qed.

Lemma checkPage_loaded_bitmap pid idx m :
  bitmap idx (ensureLoaded idx (checkPage pid m).2) = bitmap idx (ensureLoaded idx m).
Proof.
  unfold checkPage. repeat case_match; cbn [snd]; try done; apply loaded_bitmap_ensureLoaded.
Qed.

Lemma ReadPage_snd pid m : (ReadPage pid m).2 = (checkPage pid m).2.
Proof.
  unfold ReadPage. destruct (checkPage pid m) as [[[]|e] m1]; cbn; [|done].
  repeat case_match; done.
Qed.

(** A read changes the outcome of no later read. *)
Lemma ReadPage_stable p q m : (ReadPage q (ReadPage p m).2).1 = (ReadPage q m).1.
Proof.
  rewrite !ReadPage_fst, !checkPage_fst, ReadPage_cfg, ReadPage_dataFiles.
  by rewrite ReadPage_snd, checkPage_loaded_bitmap.
Qed.

Lemma accepted_not_empty pid data m : accepted pid data m -> FileIdx pid <> -1.
Proof. intros [_ [Hf _]]. lia. Qed.

End DiskReads.
Section PoolFacts.
Import config buffer buffer_spec pool_spec.


Lemma elem_of_MoveToBack (e x : Element) l : x ∈ MoveToBack e l <-> x ∈ l.
Proof.
  unfold MoveToBack. case_decide as He; [|done].
  rewrite elem_of_app, list_elem_of_filter, list_elem_of_singleton.
  split; [intros [[_ ?]| ->]; done|].
  intros Hx. destruct (decide (x = e)); [by right|by left].
Qed.

Lemma elem_of_MoveToFront (e x : Element) l : x ∈ MoveToFront e l <-> x ∈ l.
Proof.
  unfold MoveToFront. case_decide as He; [|done].
  rewrite elem_of_cons, list_elem_of_filter.
  split; [intros [->|[_ ?]]; done|].
  intros Hx. destruct (decide (x = e)); [by left|by right].
Qed.

Lemma elem_of_touch pol (e x : Element) l : x ∈ touch pol e l <-> x ∈ l.
Proof. unfold touch. case_decide; [apply elem_of_MoveToBack|apply elem_of_MoveToFront]. Qed.

Lemma victimOf_elem pol l v : victimOf pol l = Some v -> v ∈ l.
Proof.
  unfold victimOf. case_decide.
  - destruct l; cbn; [done|]. intros [= ->]. by left.
  - intros Hl. apply last_Some in Hl as [l' ->]. apply elem_of_app. right.
    by apply list_elem_of_singleton.
Qed.

Lemma victimOf_None pol l : victimOf pol l = None -> l = [].
Proof.
  unfold victimOf. case_decide; [by destruct l|]. apply last_None.
Qed.

Lemma findFree_None fs f : findFree fs = None -> f ∈ fs -> isFree f = false.
Proof.
  induction fs as [|g fs IH]; cbn; [by intros _ ?%not_elem_of_nil|].
  destruct (isFree g) eqn:E; [done|]. destruct (findFree fs); cbn; [done|].
  intros _ [->|Hf]%elem_of_cons; auto.
Qed.

Lemma isFree_true f : PinCount f = 0 -> PageId f = empty -> isFree f = true.
Proof.
  intros Hp He. unfold isFree. rewrite Hp, He. done.
Qed.

Lemma wellFormed_new c d bm : NewBufferManager c d = Ok bm -> wellFormed bm.
Proof.
  unfold NewBufferManager. destruct (_ || _); [done|]. intros [= <-].
  split; [|split; [|split]]; cbn.
  - intros p el Hl. by rewrite lookup_empty in Hl.
  - intros el Hl. by apply not_elem_of_nil in Hl.
  - intros i f Hl Hp. apply lookup_replicate in Hl as [-> _]. cbn in Hp. by destruct Hp.
  - intros f Hl. apply elem_of_replicate in Hl as [-> _]. done.
Qed.

Lemma elem_of_insert_frame (fs : list BufferFrame) i g f :
  f ∈ <[i := g]> fs -> f = g \/ f ∈ fs.
Proof.
  intros Hl. apply list_elem_of_lookup in Hl as [j Hj].
  destruct (decide (i = j)) as [->|Hne].
  - destruct (decide (j < length fs)%nat).
    + rewrite list_lookup_insert_eq in Hj by done. left. congruence.
    + rewrite list_insert_ge in Hj by lia. right. by eapply list_elem_of_lookup_2.
  - rewrite list_lookup_insert_ne in Hj by done. right. by eapply list_elem_of_lookup_2.
Qed.

(** Replacing a frame by one that holds the same page keeps the
    bookkeeping, whatever becomes of the order of the replacement list. *)
Lemma wellFormed_update i f g l bm :
  wellFormed bm -> frames bm !! i = Some f ->
  PageId g = PageId f -> 0 <= PinCount g ->
  (PinCount g <> 0 -> PageId f <> empty \/ PinCount f <> 0) ->
  (forall x, x ∈ l <-> x ∈ repl bm) ->
  wellFormed (set_repl l (set_frames (<[i := g]> (frames bm)) bm)).
Proof.
  intros (H1 & H2 & H3 & H4) Hf Hpid Hpin Hel Hl.
  assert (i < length (frames bm))%nat as Hlt by (by eapply lookup_lt_Some).
  split; [|split; [|split]]; cbn.
  - intros p el Hlk. destruct (H1 _ _ Hlk) as (Hne & Hin & f' & Hf' & Hp').
    split; [done|]. split; [by apply Hl|].
    destruct (decide (i = Value el)) as [E|E].
    + rewrite <- E, list_lookup_insert_eq by done. exists g. split; [done|]. congruence.
    + exists f'. by rewrite list_lookup_insert_ne.
  - intros x Hx. apply Hl in Hx. destruct (H2 _ Hx) as (fx & Hfx & Hlx).
    destruct (decide (i = Value x)) as [E|E].
    + rewrite <- E, list_lookup_insert_eq by done. exists g. split; [done|]. congruence.
    + rewrite list_lookup_insert_ne by done. eauto.
  - intros j h Hh Hp. destruct (decide (i = j)) as [<-|E].
    + rewrite list_lookup_insert_eq in Hh by done. injection Hh as <-.
      rewrite Hpid. apply (H3 i f Hf). destruct Hp as [Hp|Hp]; [left; congruence|by apply Hel].
    + rewrite list_lookup_insert_ne in Hh by done. by apply H3.
  - intros h Hh. apply elem_of_insert_frame in Hh as [->|Hh]; [done|by apply H4].
Qed.

Lemma wellFormed_frames_same fs bm :
  wellFormed bm ->
  (forall i, (fun f => (PageId f, PinCount f)) <$> fs !! i =
             (fun f => (PageId f, PinCount f)) <$> frames bm !! i) ->
  wellFormed (set_frames fs bm).
Proof.
  intros (H1 & H2 & H3 & H4) Hs.
  assert (Hget : forall i f, frames bm !! i = Some f ->
            exists g, fs !! i = Some g /\ PageId g = PageId f /\ PinCount g = PinCount f).
  { intros i f Hf. specialize (Hs i). rewrite Hf in Hs.
    destruct (fs !! i) as [g|]; [|done]. injection Hs as ? ?. eauto. }
  assert (Hget' : forall i g, fs !! i = Some g ->
            exists f, frames bm !! i = Some f /\ PageId g = PageId f /\ PinCount g = PinCount f).
  { intros i g Hg. specialize (Hs i). rewrite Hg in Hs.
    destruct (frames bm !! i) as [f|]; [|done]. injection Hs as ? ?. eauto. }
  split; [|split; [|split]]; cbn.
  - intros p el Hlk. destruct (H1 _ _ Hlk) as (Hne & Hin & f & Hf & Hp).
    split; [done|]. split; [done|]. destruct (Hget _ _ Hf) as (g & Hg & E1 & E2).
    exists g. split; [done|]. congruence.
  - intros x Hx. destruct (H2 _ Hx) as (f & Hf & Hlx).
    destruct (Hget _ _ Hf) as (g & Hg & E1 & E2). exists g. split; [done|]. by rewrite E1.
  - intros j g Hg Hp. destruct (Hget' _ _ Hg) as (f & Hf & E1 & E2).
    rewrite E1. apply (H3 j f Hf). rewrite <- E1, <- E2. done.
  - intros g [j Hg]%list_elem_of_lookup. destruct (Hget' _ _ Hg) as (f & Hf & E1 & E2).
    rewrite E2. apply H4. by eapply list_elem_of_lookup_2.
Qed.

Lemma wellFormed_poke i d bm : wellFormed bm -> wellFormed (poke i d bm).
Proof.
  intros Hwf. apply wellFormed_frames_same; [done|]. intros j.
  destruct (decide (i = j)) as [<-|Hne].
  - unfold poke. cbn. rewrite list_lookup_alter, decide_True by done. by destruct (frames bm !! i).
  - unfold poke. cbn. by rewrite list_lookup_alter_ne.
Qed.

Lemma wellFormed_GetPage pid bm i bm' :
  wellFormed bm -> GetPage pid bm = (Ok i, bm') -> wellFormed bm'.
Proof.
  intros Hwf. pose proof Hwf as (H1 & H2 & H3 & H4). unfold GetPage.
  destruct (lookup bm !! pid) as [el|] eqn:Hlk.
  - destruct (H1 _ _ Hlk) as (Hne & Hin & f & Hf & Hpid). cbn. rewrite Hf.
    intros [= <- <-].
    apply (wellFormed_update (Value el) f (pin f) _ bm); auto.
    + cbn. assert (0 <= PinCount f) by (apply H4; by eapply list_elem_of_lookup_2). lia.
    + intros _. left. congruence.
    + intros x. apply elem_of_touch.
  - destruct (findFree (frames bm)) as [j|] eqn:Hfree.
    + destruct (findFree_Some _ _ Hfree) as (f & Hf & Hempty & Hp0). rewrite Hf.
      destruct (disk.ReadPage pid (dm bm)) as [[data|e] d1] eqn:Hrd; [|done].
      intros [= <- <-].
      pose proof (ReadPage_ok_not_empty _ _ _ _ Hrd) as Hnempty.
      assert (j < length (frames bm))%nat as Hlt by (by eapply lookup_lt_Some).
      assert (Hother : forall x f', frames bm !! Value x = Some f' ->
                lookup bm !! PageId f' = Some x -> j <> Value x /\ PageId f' <> pid).
      { intros x f' Hf' Hlx. split; [|congruence]. intros ->.
        destruct (H1 _ _ Hlx) as (Hne' & _). congruence. }
      split; [|split; [|split]]; cbn.
      * intros p el. destruct (decide (p = pid)) as [->|Hne].
        -- rewrite lookup_insert_eq. intros [= <-]. cbn.
           split; [done|]. split; [apply elem_of_app; right; by apply list_elem_of_singleton|].
           rewrite list_lookup_insert_eq by done. eauto.
        -- rewrite lookup_insert_ne by done. intros Hl.
           destruct (H1 _ _ Hl) as (Hne' & Hin & f' & Hf' & Hp').
           split; [done|]. split; [apply elem_of_app; by left|].
           destruct (Hother el f' Hf') as [E _]; [congruence|].
           exists f'. by rewrite list_lookup_insert_ne.
      * intros x [Hx| ->%list_elem_of_singleton]%elem_of_app.
        -- destruct (H2 _ Hx) as (fx & Hfx & Hlx).
           destruct (Hother x fx Hfx Hlx) as [E E'].
           rewrite list_lookup_insert_ne by done. exists fx. split; [done|].
           by rewrite lookup_insert_ne.
        -- cbn. rewrite list_lookup_insert_eq by done. eexists. split; [done|]. cbn.
           by rewrite lookup_insert_eq.
      * intros k h Hh Hp. destruct (decide (j = k)) as [<-|E].
        -- rewrite list_lookup_insert_eq in Hh by done. injection Hh as <-. cbn.
           rewrite lookup_insert_eq. eauto.
        -- rewrite list_lookup_insert_ne in Hh by done.
           destruct (H3 _ _ Hh Hp) as (x & Hx & Hv). exists x. split; [|done].
           rewrite lookup_insert_ne; [done|]. intros E'. congruence.
      * intros h Hh. apply elem_of_insert_frame in Hh as [->|Hh]; [done|by apply H4].
    + destruct (victimOf (policy bm) (repl bm)) as [vel|] eqn:Hv; [|done].
      pose proof (victimOf_elem _ _ _ Hv) as Hvin.
      destruct (H2 _ Hvin) as (victim & Hvf & Hvl). rewrite Hvf.
      case_decide as Hpin; [done|].
      assert (PinCount victim = 0) as Hp0 by (destruct (decide (PinCount victim = 0)); tauto).
      destruct (if Dirty victim then _ else _) as [[[]|e] d1] eqn:Hwb; [|done].
      assert (Value vel < length (frames bm))%nat as Hlt by (by eapply lookup_lt_Some).
      destruct (disk.ReadPage pid d1) as [[data|e] d2] eqn:Hrd; [|done].
      intros [= <- <-].
      pose proof (ReadPage_ok_not_empty _ _ _ _ Hrd) as Hnempty.
      assert (Hother : forall x f', frames bm !! Value x = Some f' ->
                lookup bm !! PageId f' = Some x -> x <> vel ->
                Value vel <> Value x /\ PageId f' <> pid /\ PageId f' <> PageId victim).
      { intros x f' Hf' Hlx Hxv. split; [|split]; [|congruence|congruence].
        intros E. rewrite <- E in Hf'. congruence. }
      split; [|split; [|split]]; cbn.
      * intros p el. destruct (decide (p = pid)) as [->|Hne].
        -- rewrite lookup_insert_eq. intros [= <-]. cbn.
           split; [done|]. split; [by apply elem_of_touch|].
           rewrite list_lookup_insert_eq by done. eauto.
        -- rewrite lookup_insert_ne by done. intros [Hpv Hl]%lookup_delete_Some.
           destruct (H1 _ _ Hl) as (Hne' & Hin & f' & Hf' & Hp').
           split; [done|]. split; [by apply elem_of_touch|].
           destruct (Hother el f' Hf') as [E _]; [congruence|congruence|].
           exists f'. by rewrite list_lookup_insert_ne.
      * intros x Hx%elem_of_touch. destruct (H2 _ Hx) as (fx & Hfx & Hlx).
        destruct (decide (x = vel)) as [->|Hxv].
        -- rewrite list_lookup_insert_eq by done. eexists. split; [done|]. cbn.
           by rewrite lookup_insert_eq.
        -- destruct (Hother x fx Hfx Hlx Hxv) as (E1 & E2 & E3).
           rewrite list_lookup_insert_ne by done. exists fx. split; [done|].
           rewrite lookup_insert_ne by done. by rewrite lookup_delete_ne.
      * intros k h Hh Hp. destruct (decide (Value vel = k)) as [<-|E].
        -- rewrite list_lookup_insert_eq in Hh by done. injection Hh as <-. cbn.
           rewrite lookup_insert_eq. eauto.
        -- rewrite list_lookup_insert_ne in Hh by done.
           destruct (H3 _ _ Hh Hp) as (x & Hx & Hv'). exists x. split; [|done].
           assert (x <> vel) by congruence.
           destruct (Hother x h) as (E1 & E2 & E3); [congruence|done|done|].
           rewrite lookup_insert_ne by done. by rewrite lookup_delete_ne.
      * intros h Hh. apply elem_of_insert_frame in Hh as [->|Hh]; [done|by apply H4].
Qed.

Lemma wellFormed_FreePage pid vd bm : wellFormed bm -> wellFormed (FreePage pid vd bm).2.
Proof.
  intros Hwf. pose proof Hwf as (H1 & H2 & H3 & H4). unfold FreePage.
  destruct (lookup bm !! pid) as [el|] eqn:Hlk; [|done].
  destruct (H1 _ _ Hlk) as (Hne & Hin & f & Hf & Hpid). rewrite Hf. cbn.
  assert (0 <= PinCount f) by (apply H4; by eapply list_elem_of_lookup_2).
  apply (wellFormed_update (Value el) f (unpin vd f) (repl bm) bm); auto.
  - cbn. destruct (0 <? PinCount f) eqn:E; lia.
  - intros _. left. congruence.
Qed.

(** ** Frame buffers keep their size *)

Lemma length_copy (dst src : list byte) : length (copy dst src) = length dst.
Proof. unfold copy. rewrite length_app, length_take, length_drop. lia. Qed.

Lemma copy_full (dst src : list byte) : length src = length dst -> copy dst src = src.
Proof.
  intros E. unfold copy. rewrite take_ge, drop_ge by lia. apply app_nil_r.
Qed.

Lemma shape_insert i f g bm :
  frames bm !! i = Some f -> length (Data g) = length (Data f) ->
  (fun f => length (Data f)) <$> <[i := g]> (frames bm) = shape bm.
Proof.
  intros Hf Hl. unfold shape. rewrite list_fmap_insert, Hl.
  apply list_insert_id. by rewrite list_lookup_fmap, Hf.
Qed.

Lemma shape_GetPage pid bm : shape (GetPage pid bm).2 = shape bm.
Proof.
  unfold GetPage. destruct (lookup bm !! pid) as [el|].
  - cbn. destruct (frames bm !! Value el) as [f|] eqn:Hf; [|done]. cbn.
    by apply (shape_insert _ f).
  - destruct (findFree (frames bm)) as [j|].
    + destruct (frames bm !! j) as [f|] eqn:Hf; [|done].
      destruct (disk.ReadPage pid (dm bm)) as [[data|e] d1]; [|done]. cbn.
      apply (shape_insert _ f); [done|]. cbn. apply length_copy.
    + destruct (victimOf _ _) as [vel|]; [|done].
      destruct (frames bm !! Value vel) as [victim|] eqn:Hf; [|done].
      case_decide; [done|].
      destruct (if Dirty victim then _ else _) as [[[]|e] d1]; [|done].
      destruct (disk.ReadPage pid d1) as [[data|e] d2]; [|done]. cbn.
      apply (shape_insert _ victim); [done|]. cbn. apply length_copy.
Qed.

Lemma shape_FreePage pid vd bm : shape (FreePage pid vd bm).2 = shape bm.
Proof.
  unfold FreePage. destruct (lookup bm !! pid) as [el|]; [|done].
  destruct (frames bm !! Value el) as [f|] eqn:Hf; [|done]. cbn.
  by apply (shape_insert _ f).
Qed.

Lemma shape_poke i d bm : shape (poke i d bm) = shape bm.
Proof.
  unfold shape, poke. cbn. apply list_eq. intros j. rewrite !list_lookup_fmap.
  destruct (decide (i = j)) as [<-|Hne].
  - rewrite list_lookup_alter, decide_True by done.
    destruct (frames bm !! i); [|done]. cbn. by rewrite length_copy.
  - by rewrite list_lookup_alter_ne.
Qed.

Lemma flushFrames_shape fs d :
  (fun f => length (Data f)) <$> (flushFrames fs d).1.2 = (fun f => length (Data f)) <$> fs.
Proof.
  revert d. induction fs as [|f fs IH]; intros d; [done|]. cbn [flushFrames].
  destruct (_ && _).
  - destruct (disk.WritePage _ _ d) as [[[]|e] d1]; [|done].
    specialize (IH d1). destruct (flushFrames fs d1) as [[r fs'] d2].
    cbn [fst snd fmap list_fmap resetFrame clean Data] in *.
    by rewrite length_zeros, IH.
  - specialize (IH d). destruct (flushFrames fs d) as [[r fs'] d2].
    cbn [fst snd fmap list_fmap resetFrame Data] in *.
    by rewrite length_zeros, IH.
Qed.

Lemma shape_FlushBuffers bm : shape (FlushBuffers bm).2 = shape bm.
Proof.
  unfold FlushBuffers, shape. pose proof (flushFrames_shape (frames bm) (dm bm)) as Hs.
  destruct (flushFrames (frames bm) (dm bm)) as [[[[]|e] fs] d]; cbn in *; done.
Qed.

Lemma shape_new c d bm :
  NewBufferManager c d = Ok bm ->
  shape bm = replicate (Z.to_nat (BMBufferCount c)) (Z.to_nat (PageSize c)).
Proof.
  unfold NewBufferManager. destruct (_ || _); [done|]. intros [= <-].
  unfold shape. cbn [frames]. rewrite fmap_replicate. cbn [Data]. by rewrite length_zeros.
Qed.

Lemma shape_sized n k bm : shape bm = replicate k n -> length (frames bm) = k /\ sized n bm.
Proof.
  intros Hs. split.
  - apply (f_equal length) in Hs. unfold shape in Hs.
    by rewrite length_fmap, length_replicate in Hs.
  - intros f [i Hf]%list_elem_of_lookup.
    assert (shape bm !! i = Some (length (Data f))) as Hi
      by (unfold shape; by rewrite list_lookup_fmap, Hf).
    rewrite Hs in Hi. by apply lookup_replicate in Hi as [-> _].
Qed.

(** ** A successful flush leaves an empty pool *)

Lemma flushFrames_reset fs d fs' d' f' :
  flushFrames fs d = (Ok tt, fs', d') -> f' ∈ fs' -> PageId f' = empty /\ PinCount f' = 0.
Proof.
  revert d fs'. induction fs as [|f fs IH]; intros d fs'; cbn [flushFrames].
  - intros [= <- _] Hin. by apply not_elem_of_nil in Hin.
  - destruct (_ && _).
    + destruct (disk.WritePage _ _ d) as [[[]|e] d1]; [|done].
      specialize (IH d1). destruct (flushFrames fs d1) as [[r fs1] d2].
      intros [= -> <- <-] [->|Hin]%elem_of_cons; [done|]. by eapply IH.
    + specialize (IH d). destruct (flushFrames fs d) as [[r fs1] d2].
      intros [= -> <- <-] [->|Hin]%elem_of_cons; [done|]. by eapply IH.
Qed.

Lemma wellFormed_FlushBuffers bm bm' : FlushBuffers bm = (Ok tt, bm') -> wellFormed bm'.
Proof.
  unfold FlushBuffers.
  destruct (flushFrames (frames bm) (dm bm)) as [[[[]|e] fs] d] eqn:Hfl; [|done].
  intros [= <-]. split; [|split; [|split]]; cbn.
  - intros p el Hl. by rewrite lookup_empty in Hl.
  - intros el Hl. by apply not_elem_of_nil in Hl.
  - intros i f Hf Hp. apply list_elem_of_lookup_2 in Hf.
    destruct (flushFrames_reset _ _ _ _ _ Hfl Hf) as [? ?]. by destruct Hp.
  - intros f Hf. destruct (flushFrames_reset _ _ _ _ _ Hfl Hf) as [_ ->]. done.
Qed.

Lemma pool_perform_invariant c bm bm' :
  perform c bm = Ok bm' -> wellFormed bm -> wellFormed bm' /\ shape bm' = shape bm.
Proof.
  destruct c as [pid|pid vd|pol| |i d]; cbn.
  - pose proof (shape_GetPage pid bm) as Hs.
    destruct (GetPage pid bm) as [[i|e] bm1] eqn:Hg; [|done]. intros [= <-] Hwf.
    split; [by eapply wellFormed_GetPage|done].
  - pose proof (shape_FreePage pid vd bm) as Hs. pose proof (wellFormed_FreePage pid vd bm) as Hw.
    destruct (FreePage pid vd bm) as [[[]|e] bm1]; [|done]. intros [= <-] Hwf. auto.
  - intros [= <-] Hwf. done.
  - pose proof (shape_FlushBuffers bm) as Hs.
    destruct (FlushBuffers bm) as [[[]|e] bm1] eqn:Hf; [|done]. intros [= <-] _.
    split; [by eapply wellFormed_FlushBuffers|done].
  - intros [= <-] Hwf. split; [by apply wellFormed_poke|apply shape_poke].
Qed.

Lemma pool_performAll_invariant cs bm bm' :
  performAll cs bm = Ok bm' -> wellFormed bm -> wellFormed bm' /\ shape bm' = shape bm.
Proof.
  revert bm. induction cs as [|c cs IH]; intros bm; cbn.
  - intros [= <-]. done.
  - destruct (perform c bm) as [bm1|e] eqn:Hp; [|done]. intros Hr Hwf.
    destruct (pool_perform_invariant _ _ _ Hp Hwf) as [Hwf1 Hs1].
    destruct (IH _ Hr Hwf1) as [Hwf' Hs']. split; [done|congruence].
Qed.

(** ** What [GetPage] guarantees *)

Lemma frameOf_Some pid bm f :
  frameOf pid bm = Some f <->
  exists el, lookup bm !! pid = Some el /\ frames bm !! Value el = Some f.
Proof.
  unfold frameOf. destruct (lookup bm !! pid) as [el|]; cbn.
  - split; [eauto|]. by intros (? & [= <-] & ?).
  - split; [done|]. by intros (? & ? & _).
Qed.

Lemma GetPage_Ok_frame pid bm i bm' :
  wellFormed bm -> GetPage pid bm = (Ok i, bm') ->
  exists el f, lookup bm' !! pid = Some el /\ Value el = i /\ frames bm' !! i = Some f /\
    PageId f = pid /\ 1 <= PinCount f /\
    match frameOf pid bm with
    | Some f0 => f = pin f0
    | None => PinCount f = 1 /\ Dirty f = false
    end.
Proof.
  intros Hwf. pose proof Hwf as (H1 & H2 & H3 & H4). unfold GetPage, frameOf.
  destruct (lookup bm !! pid) as [el|] eqn:Hlk; cbn.
  - destruct (H1 _ _ Hlk) as (Hne & Hin & f & Hf & Hpid). rewrite Hf.
    intros [= <- <-]. exists el, (pin f). cbn.
    rewrite list_lookup_insert_eq by (by eapply lookup_lt_Some).
    assert (0 <= PinCount f) by (apply H4; by eapply list_elem_of_lookup_2).
    repeat split; try done. lia.
  - destruct (findFree (frames bm)) as [j|] eqn:Hfree.
    + destruct (findFree_Some _ _ Hfree) as (f & Hf & Hempty & Hp0). rewrite Hf.
      destruct (disk.ReadPage pid (dm bm)) as [[data|e] d1] eqn:Hrd; [|done].
      intros [= <- <-]. eexists _, _. cbn. rewrite lookup_insert_eq.
      rewrite list_lookup_insert_eq by (by eapply lookup_lt_Some).
      repeat split; try done.
    + destruct (victimOf (policy bm) (repl bm)) as [vel|] eqn:Hv; [|done].
      destruct (frames bm !! Value vel) as [victim|] eqn:Hvf; [|done].
      case_decide as Hpin; [done|].
      destruct (if Dirty victim then _ else _) as [[[]|e] d1] eqn:Hwb; [|done].
      destruct (disk.ReadPage pid d1) as [[data|e] d2] eqn:Hrd; [|done].
      intros [= <- <-]. eexists _, _. cbn. rewrite lookup_insert_eq.
      rewrite list_lookup_insert_eq by (by eapply lookup_lt_Some).
      repeat split; try done.
Qed.

(** X11.  A [GetPage] for another page, whether
    it succeeds or fails, never evicts a pinned page nor touches its frame:
    the page stays resident in the same frame with the same bytes, pin count
    and dirty bit. *)
Theorem GetPage_keeps_pinned_pages pid q f bm :
  wellFormed bm -> frameOf q bm = Some f -> PinCount f <> 0 -> q <> pid ->
  frameOf q (GetPage pid bm).2 = Some f.
Proof.
  intros Hwf [elq [Hlq Hfq]]%frameOf_Some Hpin Hne.
  pose proof Hwf as (H1 & H2 & H3 & H4).
  destruct (H1 _ _ Hlq) as (Hqne & Hqin & f' & Hf' & Hqp).
  assert (f' = f) as -> by congruence.
  apply frameOf_Some. exists elq. unfold GetPage.
  destruct (lookup bm !! pid) as [el|] eqn:Hlk.
  - destruct (H1 _ _ Hlk) as (_ & _ & g & Hg & Hgp). cbn. rewrite Hg. cbn.
    split; [done|]. rewrite list_lookup_insert_ne; [done|]. intros E.
    rewrite E in Hg. congruence.
  - destruct (findFree (frames bm)) as [j|] eqn:Hfree.
    + destruct (findFree_Some _ _ Hfree) as (g & Hg & Hempty & Hp0). rewrite Hg.
      destruct (disk.ReadPage pid (dm bm)) as [[data|e] d1] eqn:Hrd; [|done]. cbn.
      rewrite lookup_insert_ne by done. split; [done|].
      rewrite list_lookup_insert_ne; [done|]. intros ->. congruence.
    + destruct (victimOf (policy bm) (repl bm)) as [vel|] eqn:Hv; [|done].
      pose proof (victimOf_elem _ _ _ Hv) as Hvin.
      destruct (H2 _ Hvin) as (victim & Hvf & Hvl). rewrite Hvf.
      case_decide as Hvp; [done|].
      assert (PinCount victim = 0) as Hp0 by (destruct (decide (PinCount victim = 0)); tauto).
      assert (Value vel <> Value elq) as Hvq by (intros E; rewrite E in Hvf; congruence).
      assert (PageId victim <> q) as Hpq by (intros E; rewrite E in Hvl; congruence).
      destruct (if Dirty victim then _ else _) as [[[]|e] d1] eqn:Hwb; [|done].
      destruct (disk.ReadPage pid d1) as [[data|e] d2] eqn:Hrd; cbn.
      * rewrite lookup_insert_ne by done. rewrite lookup_delete_ne by done.
        split; [done|]. by rewrite list_lookup_insert_ne.
      * rewrite lookup_delete_ne by done. done.
Qed.

Lemma findFree_all_pinned fs :
  (forall f, f ∈ fs -> PinCount f <> 0) -> findFree fs = None.
Proof.
  induction fs as [|f fs IH]; intros Hp; [done|]. cbn.
  assert (isFree f = false) as ->.
  { unfold isFree. rewrite bool_decide_eq_false_2; [done|]. apply Hp. by left. }
  rewrite IH; [done|]. intros g Hg. apply Hp. by right.
Qed.

(** X12.  When every frame of a non-empty pool
    is pinned, a [GetPage] for a page that is not resident fails with
    [ErrAllFramesPinned] and changes nothing, neither in the pool nor on
    disk. *)
Theorem GetPage_fails_when_all_pinned pid bm :
  wellFormed bm -> frames bm <> [] -> (forall f, f ∈ frames bm -> PinCount f <> 0) ->
  lookup bm !! pid = None -> GetPage pid bm = (Err ErrAllFramesPinned, bm).
Proof.
  intros (H1 & H2 & H3 & H4) Hne Hall Hlk. unfold GetPage. rewrite Hlk.
  rewrite findFree_all_pinned by done.
  assert (exists f0, frames bm !! O = Some f0) as [f0 Hf0]
    by (destruct (frames bm) as [|f0 fs]; [done|by exists f0]).
  destruct (H3 O f0 Hf0) as (el & Hl & _).
  { right. apply Hall. by eapply list_elem_of_lookup_2. }
  destruct (H1 _ _ Hl) as (_ & Hin & _).
  destruct (victimOf (policy bm) (repl bm)) as [vel|] eqn:Hv.
  2:{ apply victimOf_None in Hv. rewrite Hv in Hin. by apply not_elem_of_nil in Hin. }
  destruct (H2 _ (victimOf_elem _ _ _ Hv)) as (victim & Hvf & _).
  rewrite Hvf. rewrite decide_True; [done|]. apply Hall.
  by eapply list_elem_of_lookup_2.
Qed.

(** ** Dirty pages reach the disk *)

Lemma read_back_full q (data : list byte) d d1 :
  disk_spec.consistent d -> disk.WritePage q data d = (Ok tt, d1) ->
  length data = Z.to_nat (PageSize (disk.cfg d)) ->
  (disk.ReadPage q d1).1 = Ok data.
Proof.
  intros Hc Hw Hl. pose proof (WritePage_Ok_accepted _ _ _ _ Hw) as Ha.
  pose proof (read_back_written q data d Hc Ha) as Hr. rewrite Hw in Hr. cbn in Hr.
  rewrite Hr, Hl, Nat.sub_diag. cbn. by rewrite app_nil_r.
Qed.

(** X13.  A dirty page that a successful
    [GetPage] pushed out of the pool is on disk afterwards: [ReadPage]
    returns the bytes its frame held. *)
Theorem GetPage_writes_back_evicted_page pid q f bm i bm' :
  wellFormed bm -> disk_spec.consistent (dm bm) ->
  GetPage pid bm = (Ok i, bm') ->
  frameOf q bm = Some f -> Dirty f = true ->
  length (Data f) = Z.to_nat (PageSize (disk.cfg (dm bm))) ->
  lookup bm' !! q = None ->
  (disk.ReadPage q (dm bm')).1 = Ok (Data f).
Proof.
  intros Hwf Hc Hget [elq [Hlq Hfq]]%frameOf_Some Hd Hlen Hgone.
  pose proof Hwf as (H1 & H2 & H3 & H4). revert Hget. unfold GetPage.
  destruct (lookup bm !! pid) as [el|] eqn:Hlk.
  - cbn. destruct (frames bm !! Value el); [|done]. intros [= <- <-]. cbn in Hgone. congruence.
  - destruct (findFree (frames bm)) as [j|] eqn:Hfree.
    + destruct (frames bm !! j) as [g|]; [|done].
      destruct (disk.ReadPage pid (dm bm)) as [[data|e] d1] eqn:Hrd; [|done].
      intros [= <- <-]. cbn in Hgone.
      apply lookup_insert_None in Hgone as [Hgone _]. congruence.
    + destruct (victimOf (policy bm) (repl bm)) as [vel|] eqn:Hv; [|done].
      pose proof (victimOf_elem _ _ _ Hv) as Hvin.
      destruct (H2 _ Hvin) as (victim & Hvf & Hvl). rewrite Hvf.
      case_decide as Hvp; [done|].
      destruct (if Dirty victim then _ else _) as [[[]|e] d1] eqn:Hwb; [|done].
      destruct (disk.ReadPage pid d1) as [[data|e] d2] eqn:Hrd; [|done].
      intros [= <- <-]. cbn in Hgone |- *.
      apply lookup_insert_None in Hgone as [Hgone Hpq].
      apply lookup_delete_None in Hgone as [Hgone|Hgone]; [|congruence].
      assert (elq = vel) as -> by congruence.
      assert (victim = f) as -> by congruence.
      rewrite Hd, Hgone in Hwb.
      replace d2 with (disk.ReadPage pid d1).2 by (by rewrite Hrd).
      rewrite ReadPage_stable. by apply (read_back_full _ _ (dm bm) d1).
Qed.

Lemma flushFrames_written fs d fs' d' :
  flushFrames fs d = (Ok tt, fs', d') -> disk_spec.consistent d ->
  (forall f, f ∈ fs -> length (Data f) = Z.to_nat (PageSize (disk.cfg d))) ->
  (forall i j f g, fs !! i = Some f -> fs !! j = Some g ->
     PageId f = PageId g -> PageId f <> empty -> i = j) ->
  (forall q, (forall f, f ∈ fs -> Dirty f = true -> PageId f <> zeroPageId -> PageId f <> q) ->
     (disk.ReadPage q d').1 = (disk.ReadPage q d).1) /\
  (forall f, f ∈ fs -> Dirty f = true -> PageId f <> zeroPageId ->
     (disk.ReadPage (PageId f) d').1 = Ok (Data f)).
Proof.
  revert d fs' d'. induction fs as [|f fs IH]; intros d fs' d' Hfl Hc Hlen Hdist.
  { cbn in Hfl. injection Hfl as <- <-. split; [done|].
    intros f Hf. by apply not_elem_of_nil in Hf. }
  cbn [flushFrames] in Hfl.
  assert (Hlen' : forall g, g ∈ fs -> length (Data g) = Z.to_nat (PageSize (disk.cfg d)))
    by (intros g Hg; apply Hlen; by right).
  assert (Hdist' : forall i j f g, fs !! i = Some f -> fs !! j = Some g ->
            PageId f = PageId g -> PageId f <> empty -> i = j).
  { intros i j g h Hg Hh E Hne.
    assert (S i = S j) by (by eapply (Hdist (S i) (S j) g h)). lia. }
  destruct (Dirty f && negb (bool_decide (PageId f = zeroPageId))) eqn:Hw.
  - apply andb_true_iff in Hw as [Hd Hz].
    apply negb_true_iff, bool_decide_eq_false in Hz.
    destruct (disk.WritePage (PageId f) (Data f) d) as [[[]|e] d1] eqn:Hwr;
      [|by injection Hfl].
    destruct (flushFrames fs d1) as [[r fs1] d2] eqn:Hrest. injection Hfl as -> <- <-.
    pose proof (WritePage_Ok_accepted _ _ _ _ Hwr) as Ha.
    assert (Hc1 : disk_spec.consistent d1).
    { replace d1 with (disk.WritePage (PageId f) (Data f) d).2 by (by rewrite Hwr).
      by apply consistent_WritePage. }
    assert (Hcfg : disk.cfg d1 = disk.cfg d).
    { replace d1 with (disk.WritePage (PageId f) (Data f) d).2 by (by rewrite Hwr).
      apply WritePage_cfg. }
    destruct (IH d1 fs1 d2 Hrest Hc1) as [IH1 IH2]; [by rewrite Hcfg|done|].
    assert (Hother : forall q, q <> PageId f ->
              (disk.ReadPage q d1).1 = (disk.ReadPage q d).1).
    { intros q Hq. pose proof (read_back_other (PageId f) q (Data f) d Hc Ha Hq) as Hr.
      by rewrite Hwr in Hr. }
    assert (Hne : PageId f <> empty).
    { intros E. apply accepted_not_empty in Ha. rewrite E in Ha. done. }
    split.
    + intros q Hq. rewrite IH1.
      * apply Hother. intros ->. eapply Hq; [by left|done|done|done].
      * intros g Hg. apply Hq. by right.
    + intros g [->|Hg]%elem_of_cons Hgd Hgz; [|by apply IH2].
      rewrite IH1.
      * apply (read_back_full _ _ d d1); [done|done|]. apply Hlen. by left.
      * intros g [j Hg]%list_elem_of_lookup _ _ E.
        assert (S j = O); [|lia].
        apply (Hdist (S j) O g f); [exact Hg|reflexivity|exact E|by rewrite E].
  - destruct (flushFrames fs d) as [[r fs1] d2] eqn:Hrest. injection Hfl as -> <- <-.
    destruct (IH d fs1 d2 Hrest Hc) as [IH1 IH2]; [done|done|].
    split.
    + intros q Hq. apply IH1. intros g Hg. apply Hq. by right.
    + intros g [->|Hg]%elem_of_cons Hgd Hgz; [|by apply IH2].
      rewrite Hgd in Hw. cbn in Hw. apply negb_false_iff, bool_decide_eq_true in Hw. done.
Qed.

Lemma wellFormed_distinct bm i j f g :
  wellFormed bm -> frames bm !! i = Some f -> frames bm !! j = Some g ->
  PageId f = PageId g -> PageId f <> empty -> i = j.
Proof.
  intros (H1 & H2 & H3 & H4) Hf Hg E Hne.
  destruct (H3 _ _ Hf) as (el & Hl & <-); [by left|].
  destruct (H3 _ _ Hg) as (el' & Hl' & <-); [left; congruence|]. congruence.
Qed.

Lemma FlushBuffers_written bm bm' q f :
  wellFormed bm -> disk_spec.consistent (dm bm) ->
  sized (Z.to_nat (PageSize (disk.cfg (dm bm)))) bm ->
  FlushBuffers bm = (Ok tt, bm') ->
  frameOf q bm = Some f -> Dirty f = true -> q <> zeroPageId ->
  (disk.ReadPage q (dm bm')).1 = Ok (Data f).
Proof.
  intros Hwf Hc Hs Hfl [el [Hl Hf]]%frameOf_Some Hd Hz.
  destruct (proj1 Hwf _ _ Hl) as (_ & _ & f' & Hf' & Hp).
  assert (f' = f) as -> by congruence.
  unfold FlushBuffers in Hfl.
  destruct (flushFrames (frames bm) (dm bm)) as [[[[]|e] fs] d] eqn:Hff; [|done].
  injection Hfl as <-. cbn.
  destruct (flushFrames_written _ _ _ _ Hff Hc) as [_ Hw]; [done| |].
  { intros. by eapply wellFormed_distinct. }
  rewrite <- Hp. apply Hw; [by eapply list_elem_of_lookup_2|done|congruence].
Qed.

(** X15.  After a successful [FlushBuffers], a
    [GetPage] for a page that was resident and dirty, other than page
    (0,0), succeeds and returns a frame with the bytes the page had in the
    pool before the flush, pinned once. *)
Theorem flushed_page_is_reloaded bm bm' q f :
  wellFormed bm -> disk_spec.consistent (dm bm) ->
  sized (Z.to_nat (PageSize (disk.cfg (dm bm)))) bm ->
  FlushBuffers bm = (Ok tt, bm') ->
  frameOf q bm = Some f -> Dirty f = true -> q <> zeroPageId ->
  exists i bm'' g, GetPage q bm' = (Ok i, bm'') /\ frames bm'' !! i = Some g /\
                   PageId g = q /\ Data g = Data f /\ PinCount g = 1.
Proof.
  intros Hwf Hc Hs Hfl Hfo Hd Hz.
  pose proof (FlushBuffers_written _ _ _ _ Hwf Hc Hs Hfl Hfo Hd Hz) as Hr.
  pose proof (shape_FlushBuffers bm) as Hsh. rewrite Hfl in Hsh. cbn in Hsh.
  apply frameOf_Some in Hfo as [el [Hl Hf]].
  assert (Hlf : length (Data f) = Z.to_nat (PageSize (disk.cfg (dm bm))))
    by (apply Hs; by eapply list_elem_of_lookup_2).
  unfold FlushBuffers in Hfl.
  destruct (flushFrames (frames bm) (dm bm)) as [[[[]|e] fs] d] eqn:Hff; [|done].
  injection Hfl as <-. cbn in Hr, Hsh. unfold GetPage. cbn. rewrite lookup_empty.
  destruct fs as [|f0 fs].
  { unfold shape in Hsh. cbn in Hsh. symmetry in Hsh. apply fmap_nil_inv in Hsh.
    by rewrite Hsh in Hf. }
  destruct (flushFrames_reset _ _ _ _ f0 Hff) as [He Hp]; [by left|].
  cbn. rewrite (isFree_true f0) by done. cbn.
  destruct (disk.ReadPage q d) as [[data|e'] d1]; cbn in Hr; [|done].
  injection Hr as ->. eexists _, _, _. split; [done|]. cbn. split; [done|].
  split; [done|]. split; [|done]. apply copy_full.
  destruct (frames bm) as [|b0 bs] eqn:Hfs; [done|].
  unfold shape in Hsh. rewrite Hfs in Hsh. cbn in Hsh. injection Hsh as Hsh0 _.
  rewrite Hsh0, Hlf. symmetry. apply Hs. rewrite Hfs. by left.
Qed.

(** ** The disk under the pool *)

Lemma dm_GetPage pid bm :
  (disk_spec.consistent (dm bm) -> disk_spec.consistent (dm (GetPage pid bm).2)) /\
  disk.cfg (dm (GetPage pid bm).2) = disk.cfg (dm bm).
Proof.
  unfold GetPage. destruct (lookup bm !! pid) as [el|].
  - cbn. destruct (frames bm !! Value el); done.
  - destruct (findFree (frames bm)) as [j|].
    + destruct (frames bm !! j); [|done].
      pose proof (consistent_ReadPage pid (dm bm)) as Hc.
      pose proof (ReadPage_cfg pid (dm bm)) as Hcfg.
      destruct (disk.ReadPage pid (dm bm)) as [[data|e] d1]; done.
    + destruct (victimOf _ _) as [vel|]; [|done].
      destruct (frames bm !! Value vel) as [victim|]; [|done].
      case_decide; [done|].
      assert (Hwb : forall wb, wb = (if Dirty victim
                 then disk.WritePage (PageId victim) (Data victim) (dm bm)
                 else (Ok tt, dm bm)) ->
               (disk_spec.consistent (dm bm) -> disk_spec.consistent wb.2) /\
               disk.cfg wb.2 = disk.cfg (dm bm)).
      { intros wb ->. destruct (Dirty victim); [|done].
        split; [apply consistent_WritePage|apply WritePage_cfg]. }
      specialize (Hwb _ eq_refl).
      destruct (if Dirty victim then _ else _) as [[[]|e] d1]; cbn in Hwb; [|done].
      pose proof (consistent_ReadPage pid d1) as Hc.
      pose proof (ReadPage_cfg pid d1) as Hcfg.
      destruct Hwb as [Hc1 Hcfg1].
      destruct (disk.ReadPage pid d1) as [[data|e] d2]; cbn in *;
        (split; [auto|congruence]).
Qed.

Lemma dm_FreePage pid vd bm : dm (FreePage pid vd bm).2 = dm bm.
Proof.
  unfold FreePage. destruct (lookup bm !! pid) as [el|]; [|done].
  destruct (frames bm !! Value el); done.
Qed.

Lemma dm_flushFrames fs d :
  (disk_spec.consistent d -> disk_spec.consistent (flushFrames fs d).2) /\
  disk.cfg (flushFrames fs d).2 = disk.cfg d.
Proof.
  revert d. induction fs as [|f fs IH]; intros d; [done|]. cbn [flushFrames].
  destruct (_ && _).
  - pose proof (consistent_WritePage (PageId f) (Data f) d) as Hc.
    pose proof (WritePage_cfg (PageId f) (Data f) d) as Hcfg.
    destruct (disk.WritePage _ _ d) as [[[]|e] d1]; [|done].
    destruct (IH d1) as [IH1 IH2]. destruct (flushFrames fs d1) as [[r fs'] d2].
    cbn in *. split; [auto|congruence].
  - destruct (IH d) as [IH1 IH2]. destruct (flushFrames fs d) as [[r fs'] d2]. done.
Qed.

Lemma dm_FlushBuffers bm :
  (disk_spec.consistent (dm bm) -> disk_spec.consistent (dm (FlushBuffers bm).2)) /\
  disk.cfg (dm (FlushBuffers bm).2) = disk.cfg (dm bm).
Proof.
  unfold FlushBuffers. pose proof (dm_flushFrames (frames bm) (dm bm)) as H.
  destruct (flushFrames (frames bm) (dm bm)) as [[[[]|e] fs] d]; done.
Qed.

Lemma dm_perform c bm bm' :
  perform c bm = Ok bm' ->
  (disk_spec.consistent (dm bm) -> disk_spec.consistent (dm bm')) /\
  disk.cfg (dm bm') = disk.cfg (dm bm).
Proof.
  destruct c as [pid|pid vd|pol| |i d]; cbn.
  - pose proof (dm_GetPage pid bm) as H.
    destruct (GetPage pid bm) as [[i|e] bm1]; [|done]. by intros [= <-].
  - pose proof (dm_FreePage pid vd bm) as H.
    destruct (FreePage pid vd bm) as [[[]|e] bm1]; [|done]. intros [= <-].
    cbn in H. by rewrite H.
  - by intros [= <-].
  - pose proof (dm_FlushBuffers bm) as H.
    destruct (FlushBuffers bm) as [[[]|e] bm1]; [|done]. by intros [= <-].
  - by intros [= <-].
Qed.

Lemma dm_performAll cs bm bm' :
  performAll cs bm = Ok bm' ->
  (disk_spec.consistent (dm bm) -> disk_spec.consistent (dm bm')) /\
  disk.cfg (dm bm') = disk.cfg (dm bm).
Proof.
  revert bm. induction cs as [|c cs IH]; intros bm; cbn.
  - by intros [= <-].
  - destruct (perform c bm) as [bm1|e] eqn:Hp; [|done]. intros Hr.
    destruct (dm_perform _ _ _ Hp) as [H1 H2]. destruct (IH _ Hr) as [H3 H4].
    split; [auto|congruence].
Qed.

Lemma pool_run c d bm cs bm' :
  NewBufferManager c d = Ok bm -> performAll cs bm = Ok bm' ->
  wellFormed bm' /\
  length (frames bm') = Z.to_nat (BMBufferCount c) /\
  sized (Z.to_nat (PageSize c)) bm' /\
  (disk_spec.consistent d -> disk_spec.consistent (dm bm')) /\
  disk.cfg (dm bm') = disk.cfg d.
Proof.
  intros Hnew Hrun.
  destruct (pool_performAll_invariant _ _ _ Hrun (wellFormed_new _ _ _ Hnew)) as [Hwf Hs].
  rewrite (shape_new _ _ _ Hnew) in Hs. apply shape_sized in Hs as [Hlen Hsz].
  destruct (dm_performAll _ _ _ Hrun) as [Hc Hcfg].
  assert (dm bm = d) as Hd.
  { revert Hnew. unfold NewBufferManager. destruct (_ || _); [done|]. by intros [= <-]. }
  rewrite Hd in Hc, Hcfg. done.
Qed.

(** The two pools of the examples, as runs from a new pool. *)
Lemma busy2_run :
  performAll [CallGet (page 0); CallPoke 0 [1; 2; 3; 4]; CallFree (page 0) true;
              CallGet (page 1)] (pool2 PolicyLRU) = Ok busy2.
Proof. vm_compute. reflexivity. Qed.

Lemma pinned2_run :
  performAll [CallGet (page 0); CallGet (page 1)] (pool2 PolicyLRU) = Ok pinned2.
Proof. vm_compute. reflexivity. Qed.

Lemma dirty1_run :
  performAll [CallGet (page 1); CallPoke 0 [5; 6; 7; 8]; CallFree (page 1) true]
    (pool2 PolicyLRU) = Ok dirty1.
Proof. vm_compute. reflexivity. Qed.

Lemma three2_consistent : disk_spec.consistent disk_spec.three2.
Proof. repeat apply consistent_AllocatePage. apply consistent_Init. Qed.

Lemma example_pool bm cs :
  performAll cs (pool2 PolicyLRU) = Ok bm ->
  wellFormed bm /\ sized 4 bm /\ disk_spec.consistent (dm bm) /\
  PageSize (disk.cfg (dm bm)) = 4.
Proof.
  intros Hrun.
  destruct (pool_run (cfgPool PolicyLRU) disk_spec.three2 (pool2 PolicyLRU) cs bm)
    as (Hwf & _ & Hs & Hc & Hcfg); [by apply pool2_new|done|].
  split; [done|]. split; [done|]. split; [apply Hc, three2_consistent|].
  rewrite Hcfg. reflexivity.
Qed.

(** X9.  After any sequence of [GetPage], [FreePage],
    [SetCurrentReplacementPolicy] and [FlushBuffers] calls and writes into
    frames on a new pool, none of which failed, the bookkeeping of the pool
    is well formed, the pool has the configured number of frames, every
    frame buffer has the configured page size, and the disk manager under it
    has its configuration and is consistent if it was. *)
Theorem pool_invariant c d bm cs bm' :
  NewBufferManager c d = Ok bm -> performAll cs bm = Ok bm' ->
  wellFormed bm' /\
  length (frames bm') = Z.to_nat (BMBufferCount c) /\
  sized (Z.to_nat (PageSize c)) bm' /\
  (disk_spec.consistent d -> disk_spec.consistent (dm bm')) /\
  disk.cfg (dm bm') = disk.cfg d.
Proof. apply pool_run. Qed.

Lemma pool_invariant_witness : wellFormed busy2 /\ length (frames busy2) = 2%nat.
Proof.
  destruct (pool_invariant (cfgPool PolicyLRU) disk_spec.three2 (pool2 PolicyLRU)
              [CallGet (page 0); CallPoke 0 [1; 2; 3; 4]; CallFree (page 0) true;
               CallGet (page 1)] busy2) as (Hwf & Hlen & _).
  - vm_compute. reflexivity.
  - vm_compute. reflexivity.
  - split; [exact Hwf|exact Hlen].
Defined.

(** X10.  The frame a successful [GetPage]
    returns is the one the lookup map has for the page; it holds the
    requested page and is pinned.  On a hit it is the frame the page was in,
    with one more pin and nothing else changed; on a miss it is pinned once
    and clean. *)
Theorem GetPage_returns_requested_page pid bm i bm' :
  wellFormed bm -> GetPage pid bm = (Ok i, bm') ->
  exists el f, lookup bm' !! pid = Some el /\ Value el = i /\ frames bm' !! i = Some f /\
    PageId f = pid /\ 1 <= PinCount f /\
    match frameOf pid bm with
    | Some f0 => f = pin f0
    | None => PinCount f = 1 /\ Dirty f = false
    end.
Proof. apply GetPage_Ok_frame. Qed.

Lemma GetPage_returns_requested_page_witness :
  exists el f, lookup (GetPage (page 0) busy2).2 !! page 0 = Some el /\ Value el = O /\
    frames (GetPage (page 0) busy2).2 !! O = Some f /\
    PageId f = page 0 /\ 1 <= PinCount f /\
    match frameOf (page 0) busy2 with
    | Some f0 => f = pin f0
    | None => PinCount f = 1 /\ Dirty f = false
    end.
Proof.
  apply (GetPage_returns_requested_page (page 0) busy2 O (GetPage (page 0) busy2).2).
  - apply (example_pool _ _ busy2_run).
  - vm_compute. reflexivity.
Defined.

Lemma GetPage_keeps_pinned_pages_witness :
  exists f, frameOf (page 1) busy2 = Some f /\ PinCount f <> 0 /\
            frameOf (page 1) (GetPage (page 2) busy2).2 = Some f.
Proof.
  exists {| PageId := page 1; Data := zeros 4; PinCount := 1; Dirty := false |}.
  split; [vm_compute; reflexivity|]. split; [discriminate|].
  apply (GetPage_keeps_pinned_pages (page 2) (page 1)).
  - apply (example_pool _ _ busy2_run).
  - vm_compute. reflexivity.
  - discriminate.
  - discriminate.
Defined.

Lemma GetPage_fails_when_all_pinned_witness :
  GetPage (page 2) pinned2 = (Err ErrAllFramesPinned, pinned2).
Proof.
  apply GetPage_fails_when_all_pinned.
  - apply (example_pool _ _ pinned2_run).
  - discriminate.
  - intros f Hf. vm_compute in Hf.
    repeat (apply elem_of_cons in Hf as [->|Hf]; [discriminate|]).
    by apply not_elem_of_nil in Hf.
  - vm_compute. reflexivity.
Defined.

Lemma GetPage_writes_back_evicted_page_witness :
  (disk.ReadPage (page 0) (dm (GetPage (page 2) busy2).2)).1 = Ok [1; 2; 3; 4].
Proof.
  destruct (example_pool _ _ busy2_run) as (Hwf & Hs & Hc & Hps).
  apply (GetPage_writes_back_evicted_page (page 2) (page 0)
           {| PageId := page 0; Data := [1; 2; 3; 4]; PinCount := 0; Dirty := true |}
           busy2 O (GetPage (page 2) busy2).2).
  - exact Hwf.
  - exact Hc.
  - vm_compute. reflexivity.
  - vm_compute. reflexivity.
  - reflexivity.
  - rewrite Hps. reflexivity.
  - vm_compute. reflexivity.
Defined.

(** X14.  After a successful [FlushBuffers], every
    page that was resident and dirty, other than page (0,0), is on disk:
    [ReadPage] returns the bytes its frame held. *)
Theorem FlushBuffers_writes_back bm bm' q f :
  wellFormed bm -> disk_spec.consistent (dm bm) ->
  sized (Z.to_nat (PageSize (disk.cfg (dm bm)))) bm ->
  FlushBuffers bm = (Ok tt, bm') ->
  frameOf q bm = Some f -> Dirty f = true -> q <> zeroPageId ->
  (disk.ReadPage q (dm bm')).1 = Ok (Data f).
Proof. apply FlushBuffers_written. Qed.

Lemma FlushBuffers_writes_back_witness :
  (disk.ReadPage (page 1) (dm (FlushBuffers dirty1).2)).1 = Ok [5; 6; 7; 8].
Proof.
  destruct (example_pool _ _ dirty1_run) as (Hwf & Hs & Hc & Hps).
  apply (FlushBuffers_writes_back dirty1 (FlushBuffers dirty1).2 (page 1)
           {| PageId := page 1; Data := [5; 6; 7; 8]; PinCount := 0; Dirty := true |}).
  - exact Hwf.
  - exact Hc.
  - rewrite Hps. exact Hs.
  - vm_compute. reflexivity.
  - vm_compute. reflexivity.
  - reflexivity.
  - discriminate.
Defined.

Lemma flushed_page_is_reloaded_witness :
  exists i bm'' g, GetPage (page 1) (FlushBuffers dirty1).2 = (Ok i, bm'') /\
                   frames bm'' !! i = Some g /\
                   PageId g = page 1 /\ Data g = [5; 6; 7; 8] /\ PinCount g = 1.
Proof.
  destruct (example_pool _ _ dirty1_run) as (Hwf & Hs & Hc & Hps).
  apply (flushed_page_is_reloaded dirty1 (FlushBuffers dirty1).2 (page 1)
           {| PageId := page 1; Data := [5; 6; 7; 8]; PinCount := 0; Dirty := true |}).
  - exact Hwf.
  - exact Hc.
  - rewrite Hps. exact Hs.
  - vm_compute. reflexivity.
  - vm_compute. reflexivity.
  - reflexivity.
  - discriminate.
Defined.

End PoolFacts.

(** * The record codec: what a write touches and when a read fails *)

Section CodecMore.
Import config strconv relation relation_spec.

Variable ParseFloat32 : gostring -> option Z.
Variable FormatG : Z -> gostring.

Lemma encodeField_length col val bs :
  encodeField ParseFloat32 col val = Ok bs ->
  0 <= width col /\ length bs = Z.to_nat (width col).
Proof.
  unfold encodeField, width. destruct (Kind col).
  - destruct (Atoi val); [|done]. intros [= <-]. done.
  - destruct (ParseFloat32 val); [|done]. intros [= <-]. done.
  - destruct (Size col <? 0) eqn:E; [done|]. apply Z.ltb_ge in E. intros [= <-].
    split; [done|]. rewrite length_app, length_zeros.
    destruct (Size col <? Z.of_nat (length val)) eqn:E2;
      [apply Z.ltb_lt in E2|apply Z.ltb_ge in E2]; rewrite ?length_take; lia.
  - destruct (Size col <? 0) eqn:E; [done|]. apply Z.ltb_ge in E. intros [= <-].
    split; [done|]. rewrite length_app, length_zeros.
    destruct (Size col <? Z.of_nat (length val)) eqn:E2;
      [apply Z.ltb_lt in E2|apply Z.ltb_ge in E2]; rewrite ?length_take; lia.
Qed.

Lemma lookup_store_outside (buf : list byte) off (bs : list byte) i :
  (off + length bs <= length buf)%nat -> (i < off \/ off + length bs <= i)%nat ->
  store buf off bs !! i = buf !! i.
Proof.
  intros Hl Hi. unfold store. destruct Hi as [Hi|Hi].
  - rewrite lookup_app_l by (rewrite length_take; lia). by rewrite lookup_take_lt.
  - rewrite lookup_app_r by (rewrite length_take; lia). rewrite length_take.
    rewrite lookup_app_r by lia. rewrite lookup_drop. f_equal. lia.
Qed.

Lemma sumWidths_nonneg_widths cols : Forall (fun c => 0 <= width c) cols -> 0 <= sumWidths cols.
Proof. induction 1 as [|c cols Hc _ IH]; cbn; [done|]. unfold sumWidths in *. cbn. lia. Qed.

(** The write loop keeps the length of the buffer and changes no byte
    outside the fields it has written. *)
Lemma writeFields_outside cols :
  Forall (fun c => 0 <= width c) cols ->
  forall vals (buff : list byte) off,
    length (writeFields ParseFloat32 cols vals buff off).2 = length buff /\
    forall i, (i < off)%nat \/ Z.of_nat off + sumWidths cols <= Z.of_nat i ->
      (writeFields ParseFloat32 cols vals buff off).2 !! i = buff !! i.
Proof.
  induction 1 as [|col cols Hc Hcols IH]; intros vals buff off; cbn [writeFields]; [done|].
  destruct vals as [|val vals]; [done|].
  destruct (encodeField ParseFloat32 col val) as [bs|e] eqn:He; [|done].
  destruct (encodeField_length _ _ _ He) as [Hw Hlen].
  destruct (off + length bs <=? length buff)%nat eqn:Hfit; [|done].
  apply Nat.leb_le in Hfit.
  destruct (IH vals (store buff off bs) (off + length bs)%nat) as [IH1 IH2].
  pose proof (sumWidths_nonneg_widths _ Hcols) as Hs.
  split; [by rewrite IH1, length_store|].
  intros i Hi. rewrite IH2.
  - apply lookup_store_outside; [done|]. unfold sumWidths in *. cbn in Hi. lia.
  - unfold sumWidths in *. cbn in Hi. lia.
Qed.

Lemma WriteRecordToBuffer_out name cols rec (buff : list byte) pos :
  Forall (fun c => 0 <= width c) cols ->
  let r := NewRelation name cols in
  let out := (WriteRecordToBuffer ParseFloat32 r rec buff pos).2 in
  length out = length buff /\
  forall i, Z.of_nat i < pos \/ pos + RecordSize r <= Z.of_nat i -> out !! i = buff !! i.
Proof.
  intros Hcols r out. unfold out, WriteRecordToBuffer.
  case_decide; [done|].
  destruct ((pos <? 0) || _) eqn:E; [done|].
  apply orb_false_iff in E as [E1 E2]. apply Z.ltb_ge in E1.
  destruct (writeFields_outside cols Hcols (Values rec) buff (Z.to_nat pos)) as [H1 H2].
  split; [done|]. intros i Hi. apply H2.
  unfold r in Hi. rewrite RecordSize_NewRelation in Hi. lia.
Qed.



Lemma slice_ext (b1 b2 : list byte) off w :
  (forall i, (off <= i < off + w)%nat -> b1 !! i = b2 !! i) ->
  slice b1 off w = slice b2 off w.
Proof.
  intros H. unfold slice. apply list_eq. intros i.
  destruct (decide (i < w)%nat).
  - rewrite !lookup_take_lt, !lookup_drop by done. apply H. lia.
  - by rewrite !lookup_take_ge by lia.
Qed.

Lemma readFields_ext cols :
  Forall (fun c => 0 <= width c) cols ->
  forall (b1 b2 : list byte) off,
    length b1 = length b2 ->
    (forall i, Z.of_nat off <= Z.of_nat i < Z.of_nat off + sumWidths cols -> b1 !! i = b2 !! i) ->
    readFields FormatG cols b1 off = readFields FormatG cols b2 off.
Proof.
  induction 1 as [|col cols Hc Hcols IH]; intros b1 b2 off Hlen Hsame; cbn [readFields]; [done|].
  pose proof (sumWidths_nonneg_widths _ Hcols) as Hs.
  unfold sumWidths in *. cbn in Hsame.
  destruct (width col <? 0); [done|]. rewrite Hlen.
  destruct (off + Z.to_nat (width col) <=? length b2)%nat; [|done].
  rewrite (IH b1 b2 (off + Z.to_nat (width col))%nat Hlen) by (intros i Hi; apply Hsame; lia).
  rewrite (slice_ext b1 b2 off (Z.to_nat (width col))) by (intros i Hi; apply Hsame; lia).
  done.
Qed.


(** X21.  Writing a record at one
    position, with whatever outcome, changes the result of reading at no
    position whose [RecordSize] bytes do not overlap it. *)
Theorem WriteRecordToBuffer_keeps_other_slots name cols rec (buff : list byte) pos pos' :
  Forall (fun c => 0 <= width c) cols ->
  let r := NewRelation name cols in
  pos' + RecordSize r <= pos \/ pos + RecordSize r <= pos' ->
  ReadFromBuffer FormatG r (WriteRecordToBuffer ParseFloat32 r rec buff pos).2 pos' =
  ReadFromBuffer FormatG r buff pos'.
Proof.
  intros Hcols r Hdisj.
  destruct (WriteRecordToBuffer_out name cols rec buff pos Hcols) as [Hlen Hout].
  fold r in Hlen, Hout. unfold ReadFromBuffer. rewrite Hlen.
  destruct ((pos' <? 0) || _) eqn:E; [done|].
  apply orb_false_iff in E as [E1 E2]. apply Z.ltb_ge in E1, E2.
  rewrite (readFields_ext (Columns r) Hcols _ buff (Z.to_nat pos') Hlen); [done|].
  intros i Hi. apply Hout. unfold r in *. rewrite RecordSize_NewRelation in *.
  cbn [Columns NewRelation] in Hi. lia.
Qed.

End CodecMore.

Section CodecMoreExamples.
Import config strconv relation relation_spec.



Lemma WriteRecordToBuffer_keeps_other_slots_witness :
  let r := NewRelation "t" [intCol "id"; charCol "code" 3] in
  let rec := {| Values := [str "7"; str "ab"] |} in
  ReadFromBuffer noFormat r (WriteRecordToBuffer noFloat r rec (zeros 21) 7).2 14 =
  ReadFromBuffer noFormat r (zeros 21) 14.
Proof.
  apply (WriteRecordToBuffer_keeps_other_slots noFloat noFormat "t"
           [intCol "id"; charCol "code" 3]).
  - repeat constructor; discriminate.
  - right. vm_compute. discriminate.
Defined.

End CodecMoreExamples.

(** * The buffer pool as a store of pages *)

Section DiskProgress.
Import config disk disk_spec disk_ops.

Lemma ReadPage_valid p m :
  consistent m -> validPage p m -> 0 <= PageSize (cfg m) ->
  exists data, ReadPage p m = (Ok data, ensureLoaded (FileIdx p) m).
Proof.
  intros Hc Hv Hps.
  destruct (ensureLoaded_bitmap_data (FileIdx p) m Hc) as [file Hfile].
  { destruct Hv as [_ Hp]. intros E. rewrite E in Hp. cbn in Hp. lia. }
  unfold ReadPage. rewrite checkPage_ok by done. rewrite ensureLoaded_dataFiles, Hfile.
  destruct (_ <? 0) eqn:E; [lia|]. eauto.
Qed.

Lemma validPage_ext p m m' :
  cfg m' = cfg m ->
  (forall idx, bitmap idx (ensureLoaded idx m') = bitmap idx (ensureLoaded idx m)) ->
  validPage p m' <-> validPage p m.
Proof. intros Hc Hb. unfold validPage. by rewrite Hc, Hb. Qed.

Lemma WritePage_loaded_bitmap pid data idx m :
  bitmap idx (ensureLoaded idx (WritePage pid data m).2) = bitmap idx (ensureLoaded idx m).
Proof.
  unfold WritePage. destruct (_ <? _); [done|].
  pose proof (checkPage_loaded_bitmap pid idx m) as Hb.
  destruct (checkPage pid m) as [[[]|e] m1]; cbn [snd] in *; [|done].
  destruct (dataFiles m1 !! FileIdx pid); cbn [snd]; [|done].
  by rewrite loaded_bitmap_set_dataFiles.
Qed.

Lemma ReadPage_loaded_bitmap pid idx m :
  bitmap idx (ensureLoaded idx (ReadPage pid m).2) = bitmap idx (ensureLoaded idx m).
Proof. rewrite ReadPage_snd. apply checkPage_loaded_bitmap. Qed.

End DiskProgress.
Section PoolMore.
Import config buffer buffer_spec pool_spec.


(** ** The pool is transparent *)

Lemma ReadPage_Ok_length p m data m' :
  disk.ReadPage p m = (Ok data, m') -> length data = Z.to_nat (PageSize (disk.cfg m)).
Proof.
  intros H. pose proof (ReadPage_fst p m) as Hf. rewrite H in Hf. cbn in Hf.
  destruct (disk.checkPage p m).1; [|done].
  destruct (disk.dataFiles m !! FileIdx p); [|done].
  destruct (_ <? 0); [done|]. injection Hf as ->. apply length_readAt.
Qed.

Lemma sized_shape n bm : sized n bm <-> Forall (fun k => k = n) (shape bm).
Proof.
  unfold sized, shape. rewrite Forall_fmap, Forall_forall. done.
Qed.

Lemma sized_same_shape n bm bm' : shape bm' = shape bm -> sized n bm -> sized n bm'.
Proof. intros E. rewrite !sized_shape, E. done. Qed.

(** What a successful [GetPage] does to each page: the requested page is
    in a pinned frame with the bytes it had; another page keeps its frame
    or, unpinned, leaves the pool with its bytes on disk; and the disk has
    not changed for the pages that kept their state. *)
Lemma GetPage_effect q bm i bm' :
  faithful bm -> GetPage q bm = (Ok i, bm') ->
  (exists fq, frameOf q bm' = Some fq /\ PinCount fq <> 0 /\ content q bm = Ok (Data fq) /\
     (PinCount fq = 1 -> Dirty fq = false -> (disk.ReadPage q (dm bm')).1 = Ok (Data fq))) /\
  (forall p, p <> q ->
     frameOf p bm' = frameOf p bm \/
     (frameOf p bm' = None /\
      exists f, frameOf p bm = Some f /\ PinCount f = 0 /\
                (disk.ReadPage p (dm bm')).1 = Ok (Data f))) /\
  (forall p, p <> q -> frameOf p bm' = frameOf p bm ->
     (disk.ReadPage p (dm bm')).1 = (disk.ReadPage p (dm bm)).1).
Proof.
  intros (Hwf & Hc & Hs & Hm). pose proof Hwf as (H1 & H2 & H3 & H4).
  unfold GetPage. destruct (lookup bm !! q) as [el|] eqn:Hlk.
  - (* hit *)
    destruct (H1 _ _ Hlk) as (Hne & Hin & f & Hf & Hpid). cbn. rewrite Hf.
    intros [= <- <-].
    assert (Hlt : (Value el < length (frames bm))%nat) by (by eapply lookup_lt_Some).
    assert (0 <= PinCount f) by (apply H4; by eapply list_elem_of_lookup_2).
    split; [|split].
    + exists (pin f). unfold frameOf, content, frameOf. cbn. rewrite Hlk. cbn.
      rewrite list_lookup_insert_eq by done. rewrite Hf. cbn. split; [done|]. split; [lia|].
      split; [done|]. intros Hp1 Hcl. apply Hm; [|lia|done].
      unfold frameOf. rewrite Hlk. done.
    + intros p Hp. left. unfold frameOf. cbn.
      destruct (lookup bm !! p) as [elp|] eqn:Hlp; [|done]. cbn.
      rewrite list_lookup_insert_ne; [done|]. intros E.
      destruct (H1 _ _ Hlp) as (_ & _ & fp & Hfp & Hpp). congruence.
    + done.
  - destruct (findFree (frames bm)) as [j|] eqn:Hfree.
    + (* a free frame *)
      destruct (findFree_Some _ _ Hfree) as (f & Hf & Hempty & Hp0). rewrite Hf.
      destruct (disk.ReadPage q (dm bm)) as [[data|e] d1] eqn:Hrd; [|done].
      intros [= <- <-].
      assert (Hlt : (j < length (frames bm))%nat) by (by eapply lookup_lt_Some).
      pose proof (ReadPage_Ok_length _ _ _ _ Hrd) as Hlen.
      assert (Hd1 : d1 = (disk.ReadPage q (dm bm)).2) by (by rewrite Hrd).
      split; [|split].
      * eexists. unfold frameOf at 1. cbn. rewrite lookup_insert_eq. cbn.
        rewrite list_lookup_insert_eq by done. split; [done|]. cbn. split; [done|].
        assert (Hcopy : copy (Data f) data = data).
        { apply copy_full. rewrite Hlen. symmetry. apply Hs. by eapply list_elem_of_lookup_2. }
        rewrite Hcopy. split.
        { unfold content, frameOf. rewrite Hlk. cbn. by rewrite Hrd. }
        intros _ _. rewrite Hd1, ReadPage_stable. by rewrite Hrd.
      * intros p Hp. left. unfold frameOf. cbn. rewrite lookup_insert_ne by done.
        destruct (lookup bm !! p) as [elp|] eqn:Hlp; [|done]. cbn.
        rewrite list_lookup_insert_ne; [done|]. intros E.
        destruct (H1 _ _ Hlp) as (Hpe & _ & fp & Hfp & Hpp). congruence.
      * intros p Hp _. cbn. rewrite Hd1. apply ReadPage_stable.
    + (* eviction *)
      destruct (victimOf (policy bm) (repl bm)) as [vel|] eqn:Hv; [|done].
      pose proof (victimOf_elem _ _ _ Hv) as Hvin.
      destruct (H2 _ Hvin) as (victim & Hvf & Hvl). rewrite Hvf.
      case_decide as Hpin; [done|].
      assert (PinCount victim = 0) as Hp0 by (destruct (decide (PinCount victim = 0)); tauto).
      destruct (if Dirty victim then _ else _) as [[[]|e] d1] eqn:Hwb; [|done].
      destruct (disk.ReadPage q d1) as [[data|e] d2] eqn:Hrd; [|done].
      intros [= <- <-].
      assert (Hlt : (Value vel < length (frames bm))%nat) by (by eapply lookup_lt_Some).
      assert (Hvq : PageId victim <> q) by congruence.
      assert (Hvlen : length (Data victim) = Z.to_nat (PageSize (disk.cfg (dm bm))))
        by (apply Hs; by eapply list_elem_of_lookup_2).
      assert (Hfv : frameOf (PageId victim) bm = Some victim)
        by (unfold frameOf; rewrite Hvl; done).
      assert (Hd1cfg : disk.cfg d1 = disk.cfg (dm bm)).
      { destruct (Dirty victim); [|by injection Hwb as <-].
        replace d1 with (disk.WritePage (PageId victim) (Data victim) (dm bm)).2
          by (by rewrite Hwb). apply WritePage_cfg. }
      assert (Hd1 : forall p, p <> PageId victim ->
                (disk.ReadPage p d1).1 = (disk.ReadPage p (dm bm)).1).
      { intros p Hp. destruct (Dirty victim); [|by injection Hwb as <-].
        pose proof (WritePage_Ok_accepted _ _ _ _ Hwb) as Ha.
        pose proof (read_back_other (PageId victim) p (Data victim) (dm bm) Hc Ha Hp) as Hr.
        by rewrite Hwb in Hr. }
      assert (Hd1v : (disk.ReadPage (PageId victim) d1).1 = Ok (Data victim)).
      { destruct (Dirty victim) eqn:Hdv.
        - by apply (read_back_full _ _ (dm bm) d1).
        - injection Hwb as <-. by apply Hm. }
      assert (Hd2 : forall p, (disk.ReadPage p d2).1 = (disk.ReadPage p d1).1).
      { intros p. replace d2 with (disk.ReadPage q d1).2 by (by rewrite Hrd).
        apply ReadPage_stable. }
      pose proof (ReadPage_Ok_length _ _ _ _ Hrd) as Hlen. rewrite Hd1cfg in Hlen.
      split; [|split].
      * eexists. unfold frameOf at 1. cbn. rewrite lookup_insert_eq. cbn.
        rewrite list_lookup_insert_eq by done. split; [done|]. cbn. split; [done|].
        assert (Hcopy : copy (Data victim) data = data) by (apply copy_full; congruence).
        rewrite Hcopy. split.
        { unfold content, frameOf. rewrite Hlk. cbn. rewrite <- Hd1 by done. by rewrite Hrd. }
        intros _ _. rewrite Hd2. by rewrite Hrd.
      * intros p Hp. destruct (decide (p = PageId victim)) as [->|Hpv].
        -- right. split.
           ++ unfold frameOf. cbn. rewrite lookup_insert_ne by done.
              by rewrite lookup_delete_eq.
           ++ exists victim. by rewrite Hd2.
        -- left. unfold frameOf. cbn. rewrite lookup_insert_ne by done.
           rewrite lookup_delete_ne by done.
           destruct (lookup bm !! p) as [elp|] eqn:Hlp; [|done]. cbn.
           rewrite list_lookup_insert_ne; [done|]. intros E.
           destruct (H1 _ _ Hlp) as (Hpe & _ & fp & Hfp & Hpp). congruence.
      * intros p Hp Hsame. cbn. rewrite Hd2. apply Hd1. intros ->.
        rewrite Hfv in Hsame. unfold frameOf in Hsame. cbn in Hsame.
        rewrite lookup_insert_ne in Hsame by done. by rewrite lookup_delete_eq in Hsame.
Qed.

Lemma faithful_GetPage q bm i bm' :
  faithful bm -> GetPage q bm = (Ok i, bm') ->
  faithful bm' /\ forall p, content p bm' = content p bm.
Proof.
  intros Hf Hget. destruct (GetPage_effect _ _ _ _ Hf Hget) as ((fq & Hfq & Hpq & Hcq & _) & Hi & Hd).
  destruct Hf as (Hwf & Hc & Hs & Hm).
  pose proof (dm_GetPage q bm) as [Hc' Hcfg']. rewrite Hget in Hc', Hcfg'. cbn in Hc', Hcfg'.
  pose proof (shape_GetPage q bm) as Hsh. rewrite Hget in Hsh. cbn in Hsh.
  split.
  - split; [by eapply wellFormed_GetPage|]. split; [auto|].
    split; [rewrite Hcfg'; by eapply sized_same_shape|].
    intros p f Hpf Hp0 Hcl. destruct (decide (p = q)) as [->|Hne]; [congruence|].
    destruct (Hi p Hne) as [Hsame|[Hnone _]]; [|congruence].
    rewrite Hd by done. apply Hm; congruence.
  - intros p. destruct (decide (p = q)) as [->|Hne].
    + rewrite Hcq. unfold content. by rewrite Hfq.
    + destruct (Hi p Hne) as [Hsame|[Hnone (f & Hpf & _ & Hr)]].
      * pose proof (Hd p Hne Hsame) as Hr. unfold content. rewrite Hsame.
        by destruct (frameOf p bm).
      * unfold content. by rewrite Hnone, Hpf.
Qed.

Lemma alter_insert (fs : list BufferFrame) i f g :
  fs !! i = Some f -> alter g i fs = <[i := g f]> fs.
Proof.
  intros Hf. apply list_eq. intros j. destruct (decide (i = j)) as [<-|Hne].
  - rewrite list_lookup_alter, decide_True by done. rewrite Hf.
    by rewrite list_lookup_insert_eq by (by eapply lookup_lt_Some).
  - by rewrite list_lookup_alter_ne, list_lookup_insert_ne.
Qed.

(** Replacing the frame of a resident page by one with other bytes, pin
    count or dirty bit. *)
Lemma faithful_update p el f g bm :
  faithful bm -> lookup bm !! p = Some el -> frames bm !! Value el = Some f ->
  PageId g = PageId f -> 0 <= PinCount g -> length (Data g) = length (Data f) ->
  (PinCount g = 0 -> Dirty g = false -> (disk.ReadPage p (dm bm)).1 = Ok (Data g)) ->
  let bm' := set_frames (<[Value el := g]> (frames bm)) bm in
  faithful bm' /\ frameOf p bm' = Some g /\
  forall q, q <> p -> frameOf q bm' = frameOf q bm.
Proof.
  intros (Hwf & Hc & Hs & Hm) Hl Hf Hpid Hpin Hlen Hclean bm'.
  pose proof Hwf as (H1 & H2 & H3 & H4).
  destruct (H1 _ _ Hl) as (Hne & Hin & f' & Hf' & Hp).
  assert (f' = f) as -> by congruence.
  assert (Hlt : (Value el < length (frames bm))%nat) by (by eapply lookup_lt_Some).
  assert (Hp' : frameOf p bm' = Some g).
  { unfold frameOf. cbn. rewrite Hl. cbn. by rewrite list_lookup_insert_eq. }
  assert (Hq : forall q, q <> p -> frameOf q bm' = frameOf q bm).
  { intros q Hqp. unfold frameOf. cbn. destruct (lookup bm !! q) as [elq|] eqn:Hlq; [|done].
    cbn. rewrite list_lookup_insert_ne; [done|]. intros E.
    destruct (H1 _ _ Hlq) as (_ & _ & fq & Hfq & Hpq). congruence. }
  split; [|done]. split; [|split; [done|split]].
  - apply (wellFormed_update (Value el) f g (repl bm) bm); auto.
    intros _. left. congruence.
  - cbn. intros h Hh. apply elem_of_insert_frame in Hh as [->|Hh]; [|by apply Hs].
    rewrite Hlen. apply Hs. by eapply list_elem_of_lookup_2.
  - intros q h Hqh Hp0 Hcl. cbn. destruct (decide (q = p)) as [->|Hqp].
    + assert (h = g) as -> by congruence. by apply Hclean.
    + rewrite Hq in Hqh by done. by apply Hm.
Qed.

Lemma content_same_frames bm bm' :
  dm bm' = dm bm -> (forall q, frameOf q bm' = frameOf q bm) ->
  forall q, content q bm' = content q bm.
Proof. intros Hd Hf q. unfold content. by rewrite Hf, Hd. Qed.

Lemma readOp_spec p bm data bm' :
  faithful bm -> readOp p bm = (Ok data, bm') ->
  content p bm = Ok data /\ faithful bm' /\ forall q, content q bm' = content q bm.
Proof.
  intros Hf. unfold readOp.
  destruct (GetPage p bm) as [[i|e] bm1] eqn:Hget; [|done].
  destruct (faithful_GetPage _ _ _ _ Hf Hget) as [Hf1 Hc1].
  destruct (GetPage_effect _ _ _ _ Hf Hget) as ((fq & Hfq & Hpq & Hcq & Hclean) & _ & _).
  destruct (GetPage_Ok_frame _ _ _ _ (proj1 Hf) Hget) as (el & f & Hl & Hv & Hfi & _).
  rewrite Hfi. assert (fq = f) as ->.
  { unfold frameOf in Hfq. rewrite Hl in Hfq. cbn in Hfq. congruence. }
  unfold FreePage. rewrite Hl, Hv, Hfi. intros [= <- <-].
  split; [done|].
  assert (Hpin : 0 <= PinCount f).
  { apply (proj2 (proj2 (proj2 (proj1 Hf1)))). by eapply list_elem_of_lookup_2. }
  destruct (faithful_update p el f (unpin false f) bm1 Hf1 Hl) as (Hf2 & Hp2 & Hq2);
    [congruence|done| |done| |].
  { cbn. destruct (0 <? PinCount f); lia. }
  { cbn. intros Hp0 Hcl. apply Hclean; [|done].
    destruct (0 <? PinCount f) eqn:E; [lia|]. apply Z.ltb_ge in E. lia. }
  rewrite Hv in Hf2, Hp2, Hq2. split; [done|].
  intros q. rewrite <- Hc1. unfold content. cbn.
  destruct (decide (q = p)) as [->|Hqp].
  - rewrite Hp2. unfold frameOf. rewrite Hl. cbn. by rewrite Hv, Hfi.
  - by rewrite Hq2.
Qed.

Lemma writeOp_spec p d bm bm' :
  faithful bm -> length d = Z.to_nat (PageSize (disk.cfg (dm bm))) ->
  writeOp p d bm = (Ok tt, bm') ->
  content p bm' = Ok d /\ faithful bm' /\ forall q, q <> p -> content q bm' = content q bm.
Proof.
  intros Hf Hlen. unfold writeOp.
  destruct (GetPage p bm) as [[i|e] bm1] eqn:Hget; [|done].
  destruct (faithful_GetPage _ _ _ _ Hf Hget) as [Hf1 Hc1].
  destruct (GetPage_Ok_frame _ _ _ _ (proj1 Hf) Hget) as (el & f & Hl & Hv & Hfi & Hpid & Hpin & _).
  pose proof (dm_GetPage p bm) as [_ Hcfg]. rewrite Hget in Hcfg. cbn in Hcfg.
  assert (Hflen : length (Data f) = length d).
  { rewrite Hlen, <- Hcfg. apply (proj1 (proj2 (proj2 Hf1))). by eapply list_elem_of_lookup_2. }
  set (g := {| PageId := PageId f; Data := copy (Data f) d; PinCount := PinCount f;
               Dirty := Dirty f |}).
  assert (Hpoke : poke i d bm1 = set_frames (<[Value el := g]> (frames bm1)) bm1).
  { unfold poke. rewrite (alter_insert _ _ f) by done. by rewrite Hv. }
  destruct (faithful_update p el f g bm1 Hf1 Hl) as (Hf2 & Hp2 & Hq2);
    [congruence|done|cbn; lia|cbn; apply length_copy|cbn; lia|].
  rewrite <- Hpoke in Hf2, Hp2, Hq2.
  assert (Hl2 : lookup (poke i d bm1) !! p = Some el) by done.
  assert (Hg2 : frames (poke i d bm1) !! Value el = Some g).
  { unfold frameOf in Hp2. by rewrite Hl2 in Hp2. }
  destruct (faithful_update p el g (unpin true g) _ Hf2 Hl2 Hg2) as (Hf3 & Hp3 & Hq3);
    [done| |done|done|].
  { cbn. destruct (0 <? PinCount f); lia. }
  intros Hfree.
  assert (bm' = set_frames (<[Value el := unpin true g]> (frames (poke i d bm1))) (poke i d bm1))
    as -> by (revert Hfree; unfold FreePage; rewrite Hl2, Hg2; congruence).
  split; [|split; [done|]].
  - unfold content. rewrite Hp3. cbn. f_equal. by apply copy_full.
  - intros q Hqp. rewrite <- Hc1. unfold content. rewrite Hq3, Hq2 by done. done.
Qed.

Lemma faithful_new c d bm :
  NewBufferManager c d = Ok bm -> disk.cfg d = c -> disk_spec.consistent d -> faithful bm.
Proof.
  intros Hnew Hcfg Hc.
  destruct (pool_run c d bm [] bm Hnew eq_refl) as (Hwf & _ & Hs & _ & Hcfg').
  revert Hnew. unfold NewBufferManager. destruct (_ || _); [done|]. intros [= <-].
  split; [done|]. split; [done|]. split; [cbn in *; by rewrite Hcfg|].
  intros p f. unfold frameOf. cbn. by rewrite lookup_empty.
Qed.

Lemma expected_ext accs st st' :
  (forall p, st p = st' p) -> expected accs st = expected accs st'.
Proof.
  revert st st'. induction accs as [|[p|p d] accs IH]; intros st st' H; cbn; [done| |].
  - rewrite H. f_equal. by apply IH.
  - apply IH. intros q. case_decide; [done|apply H].
Qed.

Lemma serve_spec accs bm out bm' :
  faithful bm -> wholePages (Z.to_nat (PageSize (disk.cfg (dm bm)))) accs ->
  serve accs bm = (Ok out, bm') ->
  Ok <$> out = expected accs (fun p => content p bm) /\ faithful bm'.
Proof.
  revert bm out. induction accs as [|[p|p d] accs IH]; intros bm out Hf Hw; cbn [serve expected].
  - intros [= <- <-]. done.
  - destruct (readOp p bm) as [[data|e] bm1] eqn:Hr; [|done].
    destruct (readOp_spec _ _ _ _ Hf Hr) as (Hc & Hf1 & Hsame).
    destruct (serve accs bm1) as [[out1|e] bm2] eqn:Hs; [|done]. intros [= <- <-].
    assert (Hcfg : disk.cfg (dm bm1) = disk.cfg (dm bm)).
    { revert Hr. unfold readOp. pose proof (dm_GetPage p bm) as [_ Hg].
      destruct (GetPage p bm) as [[i|e] bm0]; [|done]. cbn in Hg.
      destruct (frames bm0 !! i); [|done]. pose proof (dm_FreePage p false bm0) as Hd.
      destruct (FreePage p false bm0) as [[[]|e] bm3]; [|done]. intros [= _ <-].
      cbn in Hd. by rewrite Hd. }
    destruct (IH bm1 out1 Hf1) as [IH1 IH2]; [rewrite Hcfg; by inversion Hw|done|].
    split; [|done]. cbn. rewrite Hc, IH1. f_equal. by apply expected_ext.
  - destruct (writeOp p d bm) as [[[]|e] bm1] eqn:Hwr; [|done].
    assert (Hlen : length d = Z.to_nat (PageSize (disk.cfg (dm bm)))) by (by inversion Hw).
    destruct (writeOp_spec _ _ _ _ Hf Hlen Hwr) as (Hc & Hf1 & Hsame).
    intros Hs.
    assert (Hcfg : disk.cfg (dm bm1) = disk.cfg (dm bm)).
    { revert Hwr. unfold writeOp. pose proof (dm_GetPage p bm) as [_ Hg].
      destruct (GetPage p bm) as [[i|e] bm0]; [|done]. cbn in Hg.
      pose proof (dm_FreePage p true (poke i d bm0)) as Hd.
      destruct (FreePage p true (poke i d bm0)) as [[[]|e] bm3]; [|done]. intros [= <-].
      cbn in Hd. by rewrite Hd. }
    destruct (IH bm1 out Hf1) as [IH1 IH2]; [rewrite Hcfg; by inversion Hw|done|].
    split; [|done]. rewrite IH1. apply expected_ext. intros q.
    case_decide as Hq; [by subst|by apply Hsame].
Qed.

(** ** Accesses to pages of the disk succeed *)

Lemma GetPage_loaded_bitmap q idx bm :
  disk.bitmap idx (disk.ensureLoaded idx (dm (GetPage q bm).2)) =
  disk.bitmap idx (disk.ensureLoaded idx (dm bm)).
Proof.
  unfold GetPage. destruct (lookup bm !! q) as [el|].
  - cbn. destruct (frames bm !! Value el); done.
  - destruct (findFree (frames bm)) as [j|].
    + destruct (frames bm !! j); [|done].
      pose proof (ReadPage_loaded_bitmap q idx (dm bm)) as Hr.
      destruct (disk.ReadPage q (dm bm)) as [[data|e] d1]; done.
    + destruct (victimOf _ _) as [vel|]; [|done].
      destruct (frames bm !! Value vel) as [victim|]; [|done].
      case_decide; [done|].
      assert (Hwb : forall wb, wb = (if Dirty victim
                 then disk.WritePage (PageId victim) (Data victim) (dm bm)
                 else (Ok tt, dm bm)) ->
               disk.bitmap idx (disk.ensureLoaded idx wb.2) =
               disk.bitmap idx (disk.ensureLoaded idx (dm bm))).
      { intros wb ->. destruct (Dirty victim); [|done]. apply WritePage_loaded_bitmap. }
      specialize (Hwb _ eq_refl).
      destruct (if Dirty victim then _ else _) as [[[]|e] d1]; cbn in Hwb; [|done].
      pose proof (ReadPage_loaded_bitmap q idx d1) as Hr.
      destruct (disk.ReadPage q d1) as [[data|e] d2]; cbn in *; congruence.
Qed.

Lemma GetPage_validPage q p bm :
  disk_spec.validPage p (dm (GetPage q bm).2) <-> disk_spec.validPage p (dm bm).
Proof.
  apply validPage_ext; [apply dm_GetPage|]. intros idx. apply GetPage_loaded_bitmap.
Qed.

Lemma GetPage_other_frames q bm i bm' j :
  GetPage q bm = (Ok i, bm') -> j <> i -> frames bm' !! j = frames bm !! j.
Proof.
  unfold GetPage. destruct (lookup bm !! q) as [el|].
  - cbn. destruct (frames bm !! Value el); [|done]. intros [= <- <-] Hj. cbn.
    by rewrite list_lookup_insert_ne.
  - destruct (findFree (frames bm)) as [k|].
    + destruct (frames bm !! k); [|done].
      destruct (disk.ReadPage q (dm bm)) as [[data|e] d1]; [|done].
      intros [= <- <-] Hj. cbn. by rewrite list_lookup_insert_ne.
    + destruct (victimOf _ _) as [vel|]; [|done].
      destruct (frames bm !! Value vel) as [victim|]; [|done].
      case_decide; [done|].
      destruct (if Dirty victim then _ else _) as [[[]|e] d1]; [|done].
      destruct (disk.ReadPage q d1) as [[data|e] d2]; [|done].
      intros [= <- <-] Hj. cbn. by rewrite list_lookup_insert_ne.
Qed.

Lemma GetPage_progress q bm :
  calm bm -> frames bm <> [] -> 0 <= PageSize (disk.cfg (dm bm)) ->
  disk_spec.validPage q (dm bm) ->
  exists i bm', GetPage q bm = (Ok i, bm').
Proof.
  intros ((Hwf & Hc & Hs & Hm) & Hquiet & Hvalid) Hne Hps Hq.
  pose proof Hwf as (H1 & H2 & H3 & H4). unfold GetPage.
  destruct (lookup bm !! q) as [el|] eqn:Hlk.
  - destruct (H1 _ _ Hlk) as (_ & _ & f & Hf & _). cbn. rewrite Hf. eauto.
  - destruct (findFree (frames bm)) as [j|] eqn:Hfree.
    + destruct (findFree_Some _ _ Hfree) as (f & Hf & _). rewrite Hf.
      destruct (ReadPage_valid q (dm bm) Hc Hq Hps) as [data ->]. eauto.
    + assert (exists f0, frames bm !! O = Some f0) as [f0 Hf0]
        by (destruct (frames bm) as [|f0 fs]; [done|by exists f0]).
      pose proof (list_elem_of_lookup_2 _ _ _ Hf0) as Hin0.
      pose proof (findFree_None _ _ Hfree Hin0) as Hnf.
      assert (PageId f0 <> empty) as Hpe.
      { intros E. rewrite isFree_true in Hnf; [done|by apply Hquiet|done]. }
      destruct (H3 O f0 Hf0) as (el & Hl & _); [by left|].
      destruct (H1 _ _ Hl) as (_ & Hin & _).
      destruct (victimOf (policy bm) (repl bm)) as [vel|] eqn:Hv.
      2:{ apply victimOf_None in Hv. rewrite Hv in Hin. by apply not_elem_of_nil in Hin. }
      destruct (H2 _ (victimOf_elem _ _ _ Hv)) as (victim & Hvf & Hvl). rewrite Hvf.
      pose proof (list_elem_of_lookup_2 _ _ _ Hvf) as Hvin.
      rewrite decide_False by (rewrite (Hquiet _ Hvin); auto).
      assert (Hfv : frameOf (PageId victim) bm = Some victim)
        by (unfold frameOf; rewrite Hvl; done).
      assert (exists d1, (if Dirty victim
                 then disk.WritePage (PageId victim) (Data victim) (dm bm)
                 else (Ok tt, dm bm)) = (Ok tt, d1) /\
               disk_spec.consistent d1 /\ disk.cfg d1 = disk.cfg (dm bm) /\
               disk_spec.validPage q d1) as (d1 & -> & Hc1 & Hcfg1 & Hq1).
      { destruct (Dirty victim); [|eauto].
        destruct (WritePage_ok (PageId victim) (Data victim) (dm bm) Hc) as (file & _ & Hw).
        - by eapply Hvalid.
        - rewrite (Hs _ Hvin). lia.
        - eexists. split; [exact Hw|].
          pose proof (consistent_WritePage (PageId victim) (Data victim) (dm bm) Hc) as Hc1.
          pose proof (WritePage_cfg (PageId victim) (Data victim) (dm bm)) as Hcfg1.
          pose proof (fun idx => WritePage_loaded_bitmap (PageId victim) (Data victim) idx (dm bm))
            as Hb1.
          rewrite Hw in Hc1, Hcfg1, Hb1. cbn [snd] in *.
          split; [done|]. split; [done|]. by apply (validPage_ext q (dm bm)). }
      destruct (ReadPage_valid q d1 Hc1 Hq1) as [data ->]; [by rewrite Hcfg1|]. eauto.
Qed.

Lemma calm_after_access q bm i bm1 f g :
  calm bm -> disk_spec.validPage q (dm bm) ->
  GetPage q bm = (Ok i, bm1) -> frames bm1 !! i = Some f ->
  PinCount g = 0 ->
  faithful (set_frames (<[i := g]> (frames bm1)) bm1) ->
  calm (set_frames (<[i := g]> (frames bm1)) bm1).
Proof.
  intros (Hf & Hquiet & Hvalid) Hq Hget Hfi Hg Hf2.
  destruct (GetPage_effect _ _ _ _ Hf Hget) as (_ & Hi & _).
  pose proof (wellFormed_GetPage _ _ _ _ (proj1 Hf) Hget) as Hwf1.
  split; [done|]. split.
  - cbn. intros h [j Hh]%list_elem_of_lookup. destruct (decide (i = j)) as [<-|Hne].
    + rewrite list_lookup_insert_eq in Hh by (by eapply lookup_lt_Some). congruence.
    + rewrite list_lookup_insert_ne in Hh by done.
      rewrite (GetPage_other_frames _ _ _ _ _ Hget) in Hh by done.
      apply Hquiet. by eapply list_elem_of_lookup_2.
  - intros p h [el [Hl _]]%frameOf_Some. cbn in Hl |- *.
    replace bm1 with (GetPage q bm).2 by (by rewrite Hget). apply GetPage_validPage.
    destruct (decide (p = q)) as [->|Hne]; [done|].
    destruct (proj1 Hwf1 _ _ Hl) as (_ & _ & fp & Hfp & _).
    assert (frameOf p bm1 = Some fp) as Hp1 by (apply frameOf_Some; eauto).
    destruct (Hi p Hne) as [Hsame|[Hnone _]]; [|congruence].
    rewrite Hsame in Hp1. by eapply Hvalid.
Qed.

Lemma GetPage_pinned_once q bm i bm1 :
  calm bm -> GetPage q bm = (Ok i, bm1) ->
  exists el f, lookup bm1 !! q = Some el /\ Value el = i /\ frames bm1 !! i = Some f /\
               PageId f = q /\ PinCount f = 1.
Proof.
  intros ((Hwf & _) & Hquiet & _) Hget.
  destruct (GetPage_Ok_frame _ _ _ _ Hwf Hget) as (el & f & Hl & Hv & Hfi & Hp & _ & Hcase).
  exists el, f. repeat split; try done.
  destruct (frameOf q bm) as [f0|] eqn:Hf0; [|by destruct Hcase].
  subst f. cbn. apply frameOf_Some in Hf0 as (el0 & _ & Hf0).
  rewrite (Hquiet f0); [done|]. by eapply list_elem_of_lookup_2.
Qed.

Lemma readOp_progress q bm :
  calm bm -> frames bm <> [] -> 0 <= PageSize (disk.cfg (dm bm)) ->
  disk_spec.validPage q (dm bm) ->
  exists data bm', readOp q bm = (Ok data, bm') /\ calm bm' /\ frames bm' <> [].
Proof.
  intros Hcalm Hne Hps Hq.
  destruct (GetPage_progress q bm Hcalm Hne Hps Hq) as (i & bm1 & Hget).
  destruct (GetPage_pinned_once _ _ _ _ Hcalm Hget) as (el & f & Hl & Hv & Hfi & Hp & Hpin).
  assert (Hr : readOp q bm = (Ok (Data f), set_frames (<[i := unpin false f]> (frames bm1)) bm1)).
  { unfold readOp. rewrite Hget, Hfi. unfold FreePage. by rewrite Hl, Hv, Hfi. }
  eexists _, _. split; [exact Hr|].
  destruct (readOp_spec _ _ _ _ (proj1 Hcalm) Hr) as (_ & Hf2 & _).
  split.
  - apply (calm_after_access q bm i bm1 f); try done. cbn. by rewrite Hpin.
  - cbn. intros E. apply (f_equal length) in E. rewrite length_insert in E.
    apply lookup_lt_Some in Hfi. cbn in E. lia.
Qed.

Lemma writeOp_progress q d bm :
  calm bm -> frames bm <> [] -> 0 <= PageSize (disk.cfg (dm bm)) ->
  disk_spec.validPage q (dm bm) ->
  length d = Z.to_nat (PageSize (disk.cfg (dm bm))) ->
  exists bm', writeOp q d bm = (Ok tt, bm') /\ calm bm' /\ frames bm' <> [].
Proof.
  intros Hcalm Hne Hps Hq Hlen.
  destruct (GetPage_progress q bm Hcalm Hne Hps Hq) as (i & bm1 & Hget).
  destruct (GetPage_pinned_once _ _ _ _ Hcalm Hget) as (el & f & Hl & Hv & Hfi & Hp & Hpin).
  set (g := {| PageId := PageId f; Data := copy (Data f) d; PinCount := PinCount f;
               Dirty := Dirty f |}).
  assert (Hlt : (i < length (frames bm1))%nat) by (by eapply lookup_lt_Some).
  assert (Hr : writeOp q d bm = (Ok tt, set_frames (<[i := unpin true g]> (frames bm1)) bm1)).
  { unfold writeOp. rewrite Hget. unfold FreePage, poke. cbn.
    rewrite Hl, Hv. rewrite (alter_insert _ _ f) by done.
    rewrite list_lookup_insert_eq by done. unfold set_frames. cbn.
    by rewrite list_insert_insert_eq. }
  eexists. split; [exact Hr|].
  destruct (writeOp_spec _ _ _ _ (proj1 Hcalm) Hlen Hr) as (_ & Hf2 & _).
  split.
  - apply (calm_after_access q bm i bm1 f); try done. cbn. by rewrite Hpin.
  - cbn. intros E. apply (f_equal length) in E. rewrite length_insert in E.
    cbn in E. lia.
Qed.

Lemma serve_cfg_step_read p bm data bm' :
  readOp p bm = (Ok data, bm') -> disk.cfg (dm bm') = disk.cfg (dm bm).
Proof.
  unfold readOp. pose proof (dm_GetPage p bm) as [_ Hg].
  destruct (GetPage p bm) as [[i|e] bm0]; [|done]. cbn in Hg.
  destruct (frames bm0 !! i); [|done]. pose proof (dm_FreePage p false bm0) as Hd.
  destruct (FreePage p false bm0) as [[[]|e] bm3]; [|done]. intros [= _ <-].
  cbn in Hd. by rewrite Hd.
Qed.

Lemma serve_cfg_step_write p d bm bm' :
  writeOp p d bm = (Ok tt, bm') -> disk.cfg (dm bm') = disk.cfg (dm bm).
Proof.
  unfold writeOp. pose proof (dm_GetPage p bm) as [_ Hg].
  destruct (GetPage p bm) as [[i|e] bm0]; [|done]. cbn in Hg.
  pose proof (dm_FreePage p true (poke i d bm0)) as Hd.
  destruct (FreePage p true (poke i d bm0)) as [[[]|e] bm3]; [|done]. intros [= <-].
  cbn in Hd. by rewrite Hd.
Qed.

Lemma readOp_validPage p q bm : 
  disk_spec.validPage q (dm (readOp p bm).2) <-> disk_spec.validPage q (dm bm).
Proof.
  unfold readOp. pose proof (GetPage_validPage p q bm) as Hg.
  destruct (GetPage p bm) as [[i|e] bm0]; [|done]. cbn in Hg.
  destruct (frames bm0 !! i); [|done]. pose proof (dm_FreePage p false bm0) as Hd.
  destruct (FreePage p false bm0) as [[[]|e] bm3]; cbn in *; by rewrite Hd.
Qed.

Lemma writeOp_validPage p d q bm : 
  disk_spec.validPage q (dm (writeOp p d bm).2) <-> disk_spec.validPage q (dm bm).
Proof.
  unfold writeOp. pose proof (GetPage_validPage p q bm) as Hg.
  destruct (GetPage p bm) as [[i|e] bm0]; [|done]. cbn in Hg.
  pose proof (dm_FreePage p true (poke i d bm0)) as Hd. by rewrite Hd.
Qed.

Lemma serve_progress accs bm :
  calm bm -> frames bm <> [] -> 0 <= PageSize (disk.cfg (dm bm)) ->
  wholePages (Z.to_nat (PageSize (disk.cfg (dm bm)))) accs ->
  Forall (fun a => disk_spec.validPage (pageOfAccess a) (dm bm)) accs ->
  exists out bm', serve accs bm = (Ok out, bm') /\ calm bm'.
Proof.
  revert bm. induction accs as [|[p|p d] accs IH]; intros bm Hcalm Hne Hps Hw Hv; cbn [serve].
  - eauto.
  - apply Forall_cons in Hv as [Hp Hv]. apply Forall_cons in Hw as [_ Hw].
    destruct (readOp_progress p bm Hcalm Hne Hps Hp) as (data & bm1 & Hr & Hcalm1 & Hne1).
    pose proof (serve_cfg_step_read _ _ _ _ Hr) as Hcfg. rewrite Hr.
    destruct (IH bm1 Hcalm1 Hne1) as (out & bm2 & -> & Hcalm2); [by rewrite Hcfg|by rewrite Hcfg| |eauto].
    eapply Forall_impl; [exact Hv|]. intros a Ha. cbn in Ha.
    replace bm1 with (readOp p bm).2 by (by rewrite Hr). by apply readOp_validPage.
  - apply Forall_cons in Hv as [Hp Hv]. apply Forall_cons in Hw as [Hd Hw].
    destruct (writeOp_progress p d bm Hcalm Hne Hps Hp Hd) as (bm1 & Hr & Hcalm1 & Hne1).
    pose proof (serve_cfg_step_write _ _ _ _ Hr) as Hcfg. rewrite Hr.
    destruct (IH bm1 Hcalm1 Hne1) as (out & bm2 & -> & Hcalm2); [by rewrite Hcfg|by rewrite Hcfg| |eauto].
    eapply Forall_impl; [exact Hv|]. intros a Ha. cbn in Ha.
    replace bm1 with (writeOp p d bm).2 by (by rewrite Hr). by apply writeOp_validPage.
Qed.

Lemma calm_new c d bm :
  NewBufferManager c d = Ok bm -> disk.cfg d = c -> disk_spec.consistent d -> calm bm.
Proof.
  intros Hnew Hcfg Hc. split; [by eapply faithful_new|].
  revert Hnew. unfold NewBufferManager. destruct (_ || _); [done|]. intros [= <-].
  split.
  - cbn. intros f Hf. by apply elem_of_replicate in Hf as [-> _].
  - intros p f. unfold frameOf. cbn. by rewrite lookup_empty.
Qed.

(** ** A flush loses nothing but a dirty page (0,0) *)

Lemma ReadPage_empty m : (disk.ReadPage empty m).1 = Err ErrInvalidFileIdx.
Proof. rewrite ReadPage_fst, checkPage_fst. done. Qed.

Lemma calm_FlushBuffers bm bm' :
  calm bm -> FlushBuffers bm = (Ok tt, bm') ->
  (forall f, frameOf zeroPageId bm = Some f -> Dirty f = false) ->
  calm bm' /\ forall q, content q bm' = content q bm.
Proof.
  intros ((Hwf & Hc & Hs & Hm) & Hquiet & Hvalid) Hfl Hzero.
  pose proof (wellFormed_FlushBuffers _ _ Hfl) as Hwf'.
  pose proof (dm_FlushBuffers bm) as [Hc' Hcfg']. rewrite Hfl in Hc', Hcfg'. cbn in Hc', Hcfg'.
  pose proof (shape_FlushBuffers bm) as Hsh. rewrite Hfl in Hsh. cbn in Hsh.
  assert (Hwritten : forall q f, frameOf q bm = Some f -> Dirty f = true -> q <> zeroPageId ->
            (disk.ReadPage q (dm bm')).1 = Ok (Data f)).
  { intros q f. by apply FlushBuffers_written. }
  unfold FlushBuffers in Hfl.
  destruct (flushFrames (frames bm) (dm bm)) as [[[[]|e] fs] d] eqn:Hff; [|done].
  injection Hfl as <-.
  destruct (flushFrames_written _ _ _ _ Hff Hc) as [Hother Hdirty].
  { exact Hs. }
  { intros i j f g. by apply wellFormed_distinct. }
  assert (Hnone : forall p, frameOf p
            (set_lookup ∅ (set_repl [] (set_frames fs (set_dm d bm)))) = None).
  { intros p. unfold frameOf. cbn. by rewrite lookup_empty. }
  split.
  - split; [split; [done|split; [auto|split]]|split].
    + rewrite Hcfg'. by eapply sized_same_shape.
    + intros p f Hp. by rewrite Hnone in Hp.
    + cbn. intros f Hf. by destruct (flushFrames_reset _ _ _ _ _ Hff Hf).
    + intros p f Hp. by rewrite Hnone in Hp.
  - intros q. unfold content at 1. rewrite Hnone. cbn [dm set_lookup set_repl set_frames set_dm].
    unfold content. destruct (frameOf q bm) as [f|] eqn:Hq.
    + destruct (Dirty f) eqn:Hd.
      * apply (Hwritten q f); [done|done|]. intros ->. by rewrite (Hzero f) in Hd.
      * apply frameOf_Some in Hq as (el & Hl & Hf).
        destruct (proj1 Hwf _ _ Hl) as (Hqe & _ & f' & Hf' & Hp).
        assert (f' = f) as -> by congruence.
        rewrite Hother.
        -- apply Hm; [apply frameOf_Some; eauto| |done].
           apply Hquiet. by eapply list_elem_of_lookup_2.
        -- intros g [j Hg]%list_elem_of_lookup Hgd _ E.
           assert (j = Value el) as ->.
           { eapply (wellFormed_distinct bm); eauto; congruence. }
           congruence.
    + apply Hother. intros g [j Hg]%list_elem_of_lookup Hgd Hgz E.
      destruct (decide (q = empty)) as [->|Hqe].
      * pose proof (Hdirty g (list_elem_of_lookup_2 _ _ _ Hg) Hgd Hgz) as Hr.
        rewrite E, ReadPage_empty in Hr. done.
      * destruct (proj1 (proj2 (proj2 Hwf)) j g Hg) as (el & Hl & Hv); [left; congruence|].
        rewrite E in Hl. unfold frameOf in Hq. rewrite Hl in Hq. cbn in Hq.
        rewrite Hv, Hg in Hq. done.
Qed.

(** X16.  A successful [GetPage] on a faithful
    pool changes the contents of no page as seen through the pool, the
    evicted page included, and leaves the pool faithful. *)
Theorem GetPage_preserves_contents q bm i bm' :
  faithful bm -> GetPage q bm = (Ok i, bm') ->
  faithful bm' /\ forall p, content p bm' = content p bm.
Proof. apply faithful_GetPage. Qed.

(** X17.  A successful [FlushBuffers] on a
    pool with no pinned frame changes the contents of no page as seen
    through the pool, provided page (0,0) is not resident and dirty. *)
Theorem FlushBuffers_preserves_contents bm bm' :
  calm bm -> FlushBuffers bm = (Ok tt, bm') ->
  (forall f, frameOf zeroPageId bm = Some f -> Dirty f = false) ->
  calm bm' /\ forall q, content q bm' = content q bm.
Proof. apply calm_FlushBuffers. Qed.

(** X18.  On a new pool with at least one
    frame over a consistent disk, every sequence of reads and whole-page
    writes of pages of the disk succeeds, whatever the evictions, and each
    read returns what a plain store of pages returns: the bytes last
    written to the page, or those the disk had for it. *)
Theorem pool_serves_like_a_page_store c d bm accs :
  NewBufferManager c d = Ok bm -> disk.cfg d = c -> disk_spec.consistent d ->
  0 < BMBufferCount c -> 0 <= PageSize c ->
  wholePages (Z.to_nat (PageSize c)) accs ->
  Forall (fun a => disk_spec.validPage (pageOfAccess a) d) accs ->
  exists out bm',
    serve accs bm = (Ok out, bm') /\
    Ok <$> out = expected accs (fun p => (disk.ReadPage p d).1).
Proof.
  intros Hnew Hcfg Hc Hcount Hps Hw Hv.
  pose proof (calm_new _ _ _ Hnew Hcfg Hc) as Hcalm.
  assert (dm bm = d /\ frames bm <> []) as [Hdm Hne].
  { revert Hnew. unfold NewBufferManager. destruct (_ || _); [done|]. intros [= <-].
    split; [done|]. cbn. destruct (Z.to_nat (BMBufferCount c)) eqn:E; [lia|done]. }
  destruct (serve_progress accs bm Hcalm Hne) as (out & bm' & Hs & _);
    [by rewrite Hdm, Hcfg|by rewrite Hdm, Hcfg|by rewrite Hdm|].
  exists out, bm'. split; [done|].
  destruct (serve_spec accs bm out bm' (proj1 Hcalm)) as [Hout _];
    [by rewrite Hdm, Hcfg|done|].
  rewrite Hout. apply expected_ext. intros p. unfold content, frameOf.
  revert Hnew. unfold NewBufferManager. destruct (_ || _); [done|]. intros [= <-].
  cbn. by rewrite lookup_empty.
Qed.

Lemma example_calm accs out bm :
  serve accs (pool2 PolicyLRU) = (Ok out, bm) ->
  wholePages 4 accs ->
  Forall (fun a => disk_spec.validPage (pageOfAccess a) disk_spec.three2) accs ->
  calm bm.
Proof.
  intros Hs Hw Hv.
  assert (Hcalm : calm (pool2 PolicyLRU)).
  { apply (calm_new (cfgPool PolicyLRU) disk_spec.three2);
      [by apply pool2_new|reflexivity|apply three2_consistent]. }
  destruct (serve_progress accs (pool2 PolicyLRU) Hcalm) as (out' & bm' & Hs' & Hc');
    [done|done|exact Hw|exact Hv|].
  congruence.
Qed.

Lemma page_valid n : 0 <= n < 3 -> disk_spec.validPage (page n) disk_spec.three2.
Proof. intros Hn. split; [done|]. exact Hn. Qed.

Lemma GetPage_preserves_contents_witness :
  faithful (GetPage (page 2) full01).2 /\
  forall p, content p (GetPage (page 2) full01).2 = content p full01.
Proof.
  apply (GetPage_preserves_contents (page 2) full01 O).
  - apply (example_calm [Write (page 0) [1; 2; 3; 4]; Write (page 1) [5; 6; 7; 8]] [] full01).
    + vm_compute. reflexivity.
    + repeat constructor.
    + repeat constructor; apply page_valid; lia.
  - vm_compute. reflexivity.
Defined.

Lemma FlushBuffers_preserves_contents_witness :
  calm (FlushBuffers full12).2 /\
  forall q, content q (FlushBuffers full12).2 = content q full12.
Proof.
  apply (FlushBuffers_preserves_contents full12).
  - apply (example_calm [Write (page 1) [5; 6; 7; 8]; Write (page 2) [9; 9; 9; 9]] [] full12).
    + vm_compute. reflexivity.
    + repeat constructor.
    + repeat constructor; apply page_valid; lia.
  - vm_compute. reflexivity.
  - intros f. vm_compute. discriminate.
Defined.

Lemma pool_serves_like_a_page_store_witness :
  let accs := [Write (page 0) [1; 2; 3; 4]; Write (page 1) [5; 6; 7; 8];
               Write (page 2) [9; 9; 9; 9]; Read (page 0); Read (page 1)] in
  exists out bm',
    serve accs (pool2 PolicyLRU) = (Ok out, bm') /\
    Ok <$> out = expected accs (fun p => (disk.ReadPage p disk_spec.three2).1).
Proof.
  intros accs.
  apply (pool_serves_like_a_page_store (cfgPool PolicyLRU) disk_spec.three2).
  - by apply pool2_new.
  - reflexivity.
  - apply three2_consistent.
  - reflexivity.
  - discriminate.
  - repeat constructor.
  - repeat constructor; apply page_valid; lia.
Defined.
End PoolMore.

(** * The heap-file manager: pointers, header and page list *)

Section HeapMore.
Import config strconv relation relation_spec heap_spec heap_ops pool_spec.

(** ** Pointer slots of a page *)

Lemma int32_uint32 v : - 2 ^ 31 <= v < 2 ^ 31 -> int32 (uint32 v) = v.
Proof. intros H. rewrite <- (int32_id v H) at 1. rewrite int32_uint32_int32. by apply int32_id. Qed.

Lemma PutUint32At_Ok d off u d1 :
  PutUint32At d off u = Ok d1 ->
  (off + 4 <= length d)%nat /\ d1 = store d off (le32 u) /\ length d1 = length d.
Proof.
  unfold PutUint32At. destruct (off + 4 <=? length d)%nat eqn:E; [|done].
  apply Nat.leb_le in E. intros [= <-]. split; [done|]. split; [done|].
  by rewrite length_store.
Qed.

Lemma readInt32_store d off v :
  (off + 4 <= length d)%nat ->
  readInt32 (store d off (le32 (uint32 v))) off = Ok (int32 (uint32 v)).
Proof.
  intros H. unfold readInt32, Uint32At. rewrite length_store by done.
  rewrite (proj2 (Nat.leb_le _ _) H).
  pose proof (slice_store d off (le32 (uint32 v)) H) as Hs.
  rewrite length_le32 in Hs. rewrite Hs.
  rewrite ofLe32_le32 by apply uint32_range. done.
Qed.

Lemma readInt32_store_after d off off' bs :
  (off' + length bs <= length d)%nat -> (off + 4 <= off')%nat ->
  readInt32 (store d off' bs) off = readInt32 d off.
Proof.
  intros H1 H2. unfold readInt32, Uint32At. rewrite length_store by done.
  destruct (off + 4 <=? length d)%nat; [|done].
  rewrite (slice_agree (store d off' bs) d off 4); [done|].
  replace (off + 4)%nat with (Nat.min (off + 4) off') by lia.
  rewrite <- !take_take. rewrite take_store by lia. done.
Qed.

Lemma putPageId_Ok d off p d1 :
  putPageId d off p = Ok d1 -> int32Page p ->
  length d1 = length d /\
  readInt32 d1 off = Ok (FileIdx p) /\ readInt32 d1 (off + 4) = Ok (PageIdx p).
Proof.
  intros Hput [Hf Hp].
  assert (exists d0, PutUint32At d off (uint32 (FileIdx p)) = Ok d0 /\
                     PutUint32At d0 (off + 4) (uint32 (PageIdx p)) = Ok d1) as (d0 & H0 & H1).
  { revert Hput. unfold putPageId, writeInt32. case_decide as E.
    - rewrite E. cbn [FileIdx PageIdx invalidPage].
      destruct (PutUint32At d off (uint32 (-1))) as [d0|e]; [eauto|done].
    - destruct (PutUint32At d off (uint32 (FileIdx p))) as [d0|e]; [eauto|done]. }
  apply PutUint32At_Ok in H0 as (Hl0 & -> & Hlen0).
  apply PutUint32At_Ok in H1 as (Hl1 & -> & Hlen1).
  split; [congruence|]. split.
  - rewrite readInt32_store_after by (rewrite ?length_le32; cbn; lia).
    rewrite readInt32_store by done. by rewrite int32_uint32.
  - rewrite readInt32_store by done. by rewrite int32_uint32.
Qed.

Lemma pageOf_indices p : pageOf (FileIdx p) (PageIdx p) = p.
Proof.
  unfold pageOf. case_decide as E.
  - destruct p as [a b]. cbn in E. destruct E as [-> ->]. done.
  - by destruct p.
Qed.

(** ** Writing a page through the manager, then reading it *)

(** The frame of a page after [GetPage], a change of its bytes, the dirty
    mark and [FreePage(pid, true)]. *)
Lemma write_through pid (g : list byte -> res (list byte)) rm rm1 :
  wellFormed (bm rm) ->
  (bf ← GetPage pid; d ← frameData bf; d1 ← liftRes (g d);
   setFrameData bf d1;; setDirty bf;; FreePage pid true) rm = (Ok tt, rm1) ->
  wellFormed (bm rm1) /\
  (Rel rm1, HeaderPageId rm1, SlotsPerPage rm1, hdrFile rm1) =
    (Rel rm, HeaderPageId rm, SlotsPerPage rm, hdrFile rm) /\
  exists el f d, buffer.lookup (bm rm1) !! pid = Some el /\
    buffer.frames (bm rm1) !! buffer.Value el = Some f /\
    g d = Ok (buffer.Data f).
Proof.
  intros Hwf. unfold mbind, M_bind, GetPage.
  destruct (buffer.GetPage pid (bm rm)) as [[bf|e] b1] eqn:Hget; [|intros ?; discriminate].
  pose proof (wellFormed_GetPage _ _ _ _ Hwf Hget) as Hwf1.
  destruct (GetPage_Ok_frame _ _ _ _ Hwf Hget) as (el & f & Hl & Hv & Hf & Hpid & Hpin & _).
  unfold frameData. cbn [bm set_bm]. rewrite Hf. unfold liftRes.
  destruct (g (buffer.Data f)) as [d1|e] eqn:Hg; [|done].
  unfold setFrameData, setDirty, updFrame, modify, FreePage. cbn [bm set_bm buffer.frames buffer.set_frames buffer.lookup].
  unfold buffer.FreePage. cbn [buffer.lookup buffer.set_frames buffer.frames]. rewrite Hl, Hv.
  rewrite (alter_insert (buffer.frames b1) bf f) by done.
  rewrite (alter_insert _ bf _ _ (list_lookup_insert_eq _ _ _ (lookup_lt_Some _ _ _ Hf))).
  rewrite list_lookup_insert_eq by (rewrite length_insert; by eapply lookup_lt_Some).
  intros [= <-]. cbn. rewrite !list_insert_insert_eq.
  split.
  - set (h := {| buffer.PageId := buffer.PageId f; buffer.Data := d1;
                 buffer.PinCount := if 0 <? buffer.PinCount f then buffer.PinCount f - 1
                                    else buffer.PinCount f;
                 buffer.Dirty := true |}).
    rewrite <- Hv.
    apply (wellFormed_update (buffer.Value el) f h (buffer.repl b1) b1); auto.
    + by rewrite Hv.
    + cbn. destruct (0 <? buffer.PinCount f); lia.
    + intros _. left. rewrite Hpid.
      destruct (proj1 Hwf1 _ _ Hl) as (Hne & _). done.
  - split; [done|]. exists el. eexists. exists (buffer.Data f). rewrite Hl. split; [done|].
    rewrite Hv, list_lookup_insert_eq by (by eapply lookup_lt_Some). done.
Qed.

(** Reading the two words of a pointer slot of a resident page. *)
Lemma pageNext_resident pid rm el f fx fy :
  buffer.lookup (bm rm) !! pid = Some el ->
  buffer.frames (bm rm) !! buffer.Value el = Some f ->
  readInt32 (buffer.Data f) 8 = Ok fx -> readInt32 (buffer.Data f) 12 = Ok fy ->
  (pageNext pid rm).1 = Ok (pageOf fx fy).
Proof.
  intros Hl Hf Hx Hy. unfold pageNext, mbind, M_bind, GetPage, buffer.GetPage.
  rewrite Hl. cbn [buffer.frames buffer.set_repl]. rewrite Hf.
  unfold frameData. cbn [bm set_bm buffer.frames buffer.set_frames].
  rewrite list_lookup_insert_eq by (by eapply lookup_lt_Some).
  unfold liftRes. cbn [buffer.Data buffer.pin]. rewrite Hx, Hy.
  unfold FreePage, buffer.FreePage. cbn [bm set_bm buffer.frames buffer.set_frames buffer.lookup buffer.set_repl].
  rewrite Hl. rewrite list_lookup_insert_eq by (by eapply lookup_lt_Some). done.
Qed.

Lemma headerRead_resident off strict rm el f fx fy :
  buffer.lookup (bm rm) !! HeaderPageId rm = Some el ->
  buffer.frames (bm rm) !! buffer.Value el = Some f ->
  readInt32 (buffer.Data f) off = Ok fx -> readInt32 (buffer.Data f) (off + 4) = Ok fy ->
  (headerRead off strict rm).1 = Ok (pageOf fx fy).
Proof.
  intros Hl Hf Hx Hy. unfold headerRead, mbind, M_bind, get, GetPage, buffer.GetPage.
  rewrite Hl. cbn [buffer.frames buffer.set_repl]. rewrite Hf.
  unfold frameData. cbn [bm set_bm buffer.frames buffer.set_frames].
  rewrite list_lookup_insert_eq by (by eapply lookup_lt_Some).
  unfold liftRes. cbn [buffer.Data buffer.pin]. rewrite Hx, Hy.
  destruct strict.
  - unfold FreePage, buffer.FreePage. cbn [bm set_bm buffer.frames buffer.set_frames buffer.lookup buffer.set_repl].
    rewrite Hl. rewrite list_lookup_insert_eq by (by eapply lookup_lt_Some). done.
  - done.
Qed.

(** X22.  After a successful [pageSetNext], a
    [pageNext] on the same page returns the page that was stored, the
    sentinel included, for every page whose indices fit 32 bits. *)
Theorem pageNext_after_pageSetNext pid next rm rm1 :
  wellFormed (bm rm) -> int32Page next ->
  pageSetNext pid next rm = (Ok tt, rm1) ->
  (pageNext pid rm1).1 = Ok next.
Proof.
  intros Hwf Hnext Hset.
  destruct (write_through pid (fun d => putPageId d 8 next) rm rm1 Hwf Hset)
    as (_ & _ & el & f & d & Hl & Hf & Hput).
  destruct (putPageId_Ok _ _ _ _ Hput Hnext) as (_ & Hx & Hy).
  rewrite (pageNext_resident pid rm1 el f _ _ Hl Hf Hx Hy). by rewrite pageOf_indices.
Qed.

(** X23.  After a successful
    [headerSetFirstWithSpace], [headerFirstWithSpace] returns the page that
    was stored as the head of the list of pages with space. *)
Theorem headerFirstWithSpace_after_set pid rm rm1 :
  wellFormed (bm rm) -> int32Page pid ->
  headerSetFirstWithSpace pid rm = (Ok tt, rm1) ->
  (headerFirstWithSpace rm1).1 = Ok pid.
Proof.
  intros Hwf Hpid. unfold headerSetFirstWithSpace, headerFirstWithSpace.
  unfold mbind at 1, M_bind at 1, get at 1. cbn beta iota.
  case_decide as Hh; [done|]. intros Hset.
  unfold headerWrite, mbind at 1, M_bind at 1, get at 1 in Hset. cbn beta iota in Hset.
  destruct (write_through (HeaderPageId rm) (fun d => putPageId d 8 pid) rm rm1 Hwf Hset)
    as (_ & Hsame & el & f & d & Hl & Hf & Hput).
  assert (Hhdr : HeaderPageId rm1 = HeaderPageId rm) by congruence.
  destruct (putPageId_Ok _ _ _ _ Hput Hpid) as (_ & Hx & Hy).
  unfold mbind at 1, M_bind at 1, get at 1. cbn beta iota.
  rewrite decide_False by congruence. rewrite <- Hhdr in Hl.
  rewrite (headerRead_resident 8 true rm1 el f _ _ Hl Hf Hx Hy). by rewrite pageOf_indices.
Qed.

Lemma onePage_wellFormed : wellFormed (bm onePage) /\ wellFormed (bm headed).
Proof.
  assert (H : wellFormed pool30) by (eapply wellFormed_new; apply opened_new).
  split; exact H.
Qed.

Lemma pageNext_after_pageSetNext_witness :
  (pageNext (dataPage 0) (pageSetNext (dataPage 0) (dataPage 7) onePage).2).1
    = Ok (dataPage 7).
Proof.
  apply (pageNext_after_pageSetNext (dataPage 0) (dataPage 7) onePage).
  - apply onePage_wellFormed.
  - split; split; vm_compute; done.
  - vm_compute. reflexivity.
Defined.

Lemma headerFirstWithSpace_after_set_witness :
  (headerFirstWithSpace (headerSetFirstWithSpace (dataPage 3) headed).2).1
    = Ok (dataPage 3).
Proof.
  apply (headerFirstWithSpace_after_set (dataPage 3) headed).
  - apply onePage_wellFormed.
  - split; split; vm_compute; done.
  - vm_compute. reflexivity.
Defined.

(** ** Page layout and slot scan *)

(** X24.  For a record size of at least 0 and
    operands of the division below [2^53] in absolute value, where the
    [float64] conversions and the floor of the [float64] quotient are exact:
    with [s = computeSlotsPerPage pageSize recordSize] slots, the 20 header
    bytes, the [s] bytes of the bytemap and the [s] records fit in a page,
    and one more slot would not. *)
Theorem computeSlotsPerPage_fits pageSize recordSize :
  - 2 ^ 53 < pageSize - 20 < 2 ^ 53 ->
  0 <= recordSize ->
  1 + recordSize < 2 ^ 53 ->
  let s := computeSlotsPerPage pageSize recordSize in
  20 + s + s * recordSize <= pageSize < 20 + (s + 1) + (s + 1) * recordSize.
Proof.
  intros _ Hr _ s. unfold s, computeSlotsPerPage.
  pose proof (Z.div_mod (pageSize - 20) (1 + recordSize) ltac:(lia)) as Hdm.
  pose proof (Z.mod_pos_bound (pageSize - 20) (1 + recordSize) ltac:(lia)) as Hb.
  nia.
Qed.

Lemma computeSlotsPerPage_fits_witness :
  20 + 2 + 2 * 4 <= 30 < 20 + (2 + 1) + (2 + 1) * 4.
Proof. apply (computeSlotsPerPage_fits 30 4); lia. Defined.

Lemma lookup_slice (d : list byte) off n j :
  (j < n)%nat -> slice d off n !! j = d !! (off + j)%nat.
Proof. intros Hj. unfold slice. by rewrite lookup_take_lt, lookup_drop. Qed.

(** X25.  The slot scan of [firstFreeSlotInPage]
    returns the lowest slot whose bytemap byte is zero: every slot below it
    is taken; and it reports no slot only when every one of the [slots]
    bytes is set. *)
Theorem scanBytemap_first_fit (d : list byte) slots r :
  scanBytemap d slots = Ok r ->
  match r with
  | Some i =>
      Z.of_nat i < slots /\ d !! (20 + i)%nat = Some 0 /\
      forall j, (j < i)%nat -> exists b, d !! (20 + j)%nat = Some b /\ b <> 0
  | None =>
      forall j, Z.of_nat j < slots -> exists b, d !! (20 + j)%nat = Some b /\ b <> 0
  end.
Proof.
  unfold scanBytemap.
  destruct (disk.firstZero (slice d 20 (Z.to_nat slots))) as [i|] eqn:Hz.
  - intros [= <-]. apply firstZero_Some in Hz as [Hi Hbelow].
    assert (Hlt : (i < Z.to_nat slots)%nat).
    { apply lookup_lt_Some in Hi. unfold slice in Hi. rewrite length_take in Hi. lia. }
    rewrite lookup_slice in Hi by done.
    split; [lia|]. split; [done|]. intros j Hj.
    destruct (d !! (20 + j)%nat) as [b|] eqn:Hb.
    + exists b. split; [done|]. apply (Hbelow j); [done|]. rewrite lookup_slice by lia. done.
    + apply lookup_ge_None_1 in Hb. apply lookup_lt_Some in Hi. lia.
  - destruct ((0 <? slots) && _) eqn:E; [done|]. intros [= <-] j Hj.
    apply firstZero_None in Hz.
    apply andb_false_iff in E as [E|E]; [apply Z.ltb_ge in E; lia|]. apply Z.ltb_ge in E.
    destruct (d !! (20 + j)%nat) as [b|] eqn:Hb.
    + exists b. split; [done|]. rewrite Forall_forall in Hz. apply Hz.
      apply list_elem_of_lookup. exists j. rewrite lookup_slice by lia. done.
    + apply lookup_ge_None_1 in Hb. unfold byte in *. lia.
Qed.

Lemma scanBytemap_first_fit_witness :
  let d := zeros 20 ++ [1; 0; 1; 0] ++ zeros 8 in
  2 < 4 /\ d !! 21%nat = Some 0 /\
  forall j, (j < 1)%nat -> exists b, d !! (20 + j)%nat = Some b /\ b <> 0.
Proof.
  intros d.
  destruct (scanBytemap_first_fit d 4 (Some 1%nat)) as (_ & H2 & H3);
    [vm_compute; reflexivity|].
  split; [lia|]. split; [exact H2|exact H3].
Defined.

(** ** The header file *)

(** X26.  The header file [saveHeaderLocation]
    writes for a page whose indices fit 32 bits is read back by
    [NewRelationManager] as that page; unless it is the sentinel, the
    manager also gets the slot count of the page layout. *)
Theorem header_location_round_trip rel b pid rm :
  int32Page pid ->
  exists rm',
    NewRelationManager rel b (hdrFile (saveHeaderLocation pid rm).2) = Ok rm' /\
    HeaderPageId rm' = pid /\ bm rm' = b /\
    (pid <> invalidPage ->
     SlotsPerPage rm' =
       computeSlotsPerPage (PageSize (disk.cfg (buffer.dm b))) (RecordSize rel)).
Proof.
  intros [Hf Hp]. unfold saveHeaderLocation, modify, NewRelationManager. cbn [snd hdrFile set_hdrFile].
  rewrite length_app, !length_le32. cbn [Nat.ltb Nat.leb Nat.add].
  assert (Hx : int32 (ofLe32 (slice (le32 (uint32 (FileIdx pid)) ++ le32 (uint32 (PageIdx pid))) 0 4))
               = FileIdx pid).
  { unfold slice. rewrite drop_0. rewrite (take_app_length' _ _ 4) by reflexivity.
    rewrite ofLe32_le32 by apply uint32_range. by apply int32_uint32. }
  assert (Hy : int32 (ofLe32 (slice (le32 (uint32 (FileIdx pid)) ++ le32 (uint32 (PageIdx pid))) 4 4))
               = PageIdx pid).
  { unfold slice. rewrite (drop_app_length' _ _ 4) by reflexivity.
    rewrite take_ge by (cbn; lia).
    rewrite ofLe32_le32 by apply uint32_range. by apply int32_uint32. }
  rewrite Hx, Hy. replace {| FileIdx := FileIdx pid; PageIdx := PageIdx pid |} with pid by (by destruct pid).
  case_decide as Hne; eexists; (split; [done|]); cbn; done.
Qed.

Lemma header_location_round_trip_witness :
  exists rm',
    NewRelationManager rel1 pool30 (hdrFile (saveHeaderLocation (dataPage 1) opened).2) = Ok rm' /\
    HeaderPageId rm' = dataPage 1 /\ bm rm' = pool30 /\
    (dataPage 1 <> invalidPage ->
     SlotsPerPage rm' =
       computeSlotsPerPage (PageSize (disk.cfg (buffer.dm pool30))) (RecordSize rel1)).
Proof.
  apply (header_location_round_trip rel1 pool30 (dataPage 1) opened).
  split; split; vm_compute; done.
Defined.

(** ** Creating the header *)

Lemma bind_inv {A B} (c : M A) (k : A -> M B) rm b rm' :
  (c ≫= k) rm = (Ok b, rm') ->
  exists a rm1, c rm = (Ok a, rm1) /\ k a rm1 = (Ok b, rm').
Proof.
  unfold mbind, M_bind. destruct (c rm) as [[a|e] rm1]; [eauto|done].
Qed.

Lemma sameHeader_refl rm : sameHeader rm rm.
Proof. done. Qed.

Lemma sameHeader_trans rm1 rm2 rm3 :
  sameHeader rm1 rm2 -> sameHeader rm2 rm3 -> sameHeader rm1 rm3.
Proof. unfold sameHeader. intros (?&?&?&?) (?&?&?&?). repeat split; congruence. Qed.

Lemma sameHeader_set_bm b rm : sameHeader rm (set_bm b rm).
Proof. done. Qed.

Lemma GetPage_sameHeader pid rm r rm' : GetPage pid rm = (r, rm') -> sameHeader rm rm'.
Proof.
  unfold GetPage. destruct (buffer.GetPage pid (bm rm)) as [r0 b]. by intros [= _ <-].
Qed.

Lemma FreePage_sameHeader pid v rm r rm' : FreePage pid v rm = (r, rm') -> sameHeader rm rm'.
Proof.
  unfold FreePage. destruct (buffer.FreePage pid v (bm rm)) as [r0 b]. by intros [= _ <-].
Qed.

Lemma AllocatePage_sameHeader rm r rm' : AllocatePage rm = (r, rm') -> sameHeader rm rm'.
Proof.
  unfold AllocatePage. destruct (disk.AllocatePage _) as [r0 d]. by intros [= _ <-].
Qed.

Lemma frameData_inv bf rm d rm' : frameData bf rm = (Ok d, rm') -> rm' = rm.
Proof. unfold frameData. destruct (_ !! bf); by intros [= _ <-]. Qed.

Lemma liftRes_inv {A} (r : res A) rm a rm' : liftRes r rm = (Ok a, rm') -> rm' = rm /\ r = Ok a.
Proof. unfold liftRes. by intros [= -> <-]. Qed.

Lemma updFrame_sameHeader bf g rm r rm' : updFrame bf g rm = (r, rm') -> sameHeader rm rm'.
Proof. unfold updFrame, modify. by intros [= _ <-]. Qed.

Lemma AllocatePage_page rm pid rm' :
  AllocatePage rm = (Ok pid, rm') ->
  FileIdx pid = 0 /\ 0 <= PageIdx pid /\ dmPageSize rm' = dmPageSize rm.
Proof.
  unfold AllocatePage, dmPageSize.
  destruct (disk.AllocatePage (buffer.dm (bm rm))) as [r d] eqn:Ha. intros [= -> <-].
  destruct (AllocatePage_effect _ _ _ Ha) as (Hf & Hp & _). cbv zeta in Hp.
  split; [done|]. split; [lia|]. cbn.
  apply AllocatePage_Ok in Ha as (_ & _ & -> & _).
  unfold disk.allocateIn. destruct (disk.firstZero _); cbn; by rewrite ensureLoaded_cfg.
Qed.

(** X27.  After a successful [EnsureHeader] the
    manager has a header page, and a second [EnsureHeader] changes
    nothing.  When the header was created by the call, it is a page of
    segment 0, its location is in the header file, and the manager has the
    positive slot count of the page layout. *)
Theorem EnsureHeader_sets_header rm rm1 :
  EnsureHeader rm = (Ok tt, rm1) ->
  HeaderPageId rm1 <> invalidPage /\
  EnsureHeader rm1 = (Ok tt, rm1) /\
  (HeaderPageId rm = invalidPage ->
   FileIdx (HeaderPageId rm1) = 0 /\ 0 <= PageIdx (HeaderPageId rm1) /\
   hdrFile rm1 = Some (le32 (uint32 (FileIdx (HeaderPageId rm1))) ++
                       le32 (uint32 (PageIdx (HeaderPageId rm1)))) /\
   0 < SlotsPerPage rm1 /\
   SlotsPerPage rm1 = computeSlotsPerPage (dmPageSize rm) (RecordSize (Rel rm))).
Proof.
  assert (Hidem : forall r, HeaderPageId r <> invalidPage -> EnsureHeader r = (Ok tt, r)).
  { intros r Hr. unfold EnsureHeader, mbind, M_bind, get. cbn. by rewrite decide_True. }
  unfold EnsureHeader. unfold mbind at 1, M_bind at 1, get at 1. cbn beta iota.
  case_decide as Hh.
  - intros [= <-]. split; [done|]. split; [by apply Hidem|]. done.
  - assert (Hinv : HeaderPageId rm = invalidPage) by (destruct (decide (HeaderPageId rm = invalidPage)); tauto).
    intros Hrun. apply bind_inv in Hrun as (pid & rmA & Hadd & Hret).
    injection Hret as <-.
    enough (Hgoal : FileIdx (HeaderPageId rmA) = 0 /\ 0 <= PageIdx (HeaderPageId rmA) /\
              hdrFile rmA = Some (le32 (uint32 (FileIdx (HeaderPageId rmA))) ++
                                  le32 (uint32 (PageIdx (HeaderPageId rmA)))) /\
              0 < SlotsPerPage rmA /\
              SlotsPerPage rmA = computeSlotsPerPage (dmPageSize rm) (RecordSize (Rel rm))).
    { assert (HeaderPageId rmA <> invalidPage).
      { intros E. destruct Hgoal as (Hf & _). rewrite E in Hf. done. }
      split; [done|]. split; [by apply Hidem|done]. }
    clear Hidem Hh. unfold addDataPage in Hadd.
    apply bind_inv in Hadd as (p0 & r1 & Halloc & Hadd).
    destruct (AllocatePage_page _ _ _ Halloc) as (_ & _ & Hps).
    pose proof (AllocatePage_sameHeader _ _ _ Halloc) as S1.
    apply bind_inv in Hadd as (r1' & r1'' & Hget & Hadd). injection Hget as <- <-.
    destruct (computeSlotsPerPage (dmPageSize r1) (RecordSize (Rel r1)) <=? 0) eqn:Hslots;
      [done|]. apply Z.leb_gt in Hslots.
    apply bind_inv in Hadd as (bf & r2 & Hg & Hadd).
    pose proof (GetPage_sameHeader _ _ _ _ Hg) as S2.
    apply bind_inv in Hadd as (d & r3 & Hfd & Hadd). apply frameData_inv in Hfd as ->.
    apply bind_inv in Hadd as (d1 & r3 & Hl1 & Hadd). apply liftRes_inv in Hl1 as [-> _].
    apply bind_inv in Hadd as (d2 & r3 & Hl2 & Hadd). apply liftRes_inv in Hl2 as [-> _].
    apply bind_inv in Hadd as ([] & r3 & Hs1 & Hadd).
    pose proof (updFrame_sameHeader _ _ _ _ _ Hs1) as S3.
    apply bind_inv in Hadd as ([] & r4 & Hs2 & Hadd).
    pose proof (updFrame_sameHeader _ _ _ _ _ Hs2) as S4.
    apply bind_inv in Hadd as ([] & r5 & Hfr & Hadd).
    pose proof (FreePage_sameHeader _ _ _ _ _ Hfr) as S5.
    apply bind_inv in Hadd as ([] & r6 & Hbranch & Hadd).
    assert (S15 : sameHeader rm r5) by eauto using sameHeader_trans.
    destruct S1 as (Hrel1 & Hhdr1 & _).
    rewrite decide_True in Hbranch by congruence.
    apply bind_inv in Hbranch as (hpid & q1 & Halloc2 & Hbranch).
    destruct (AllocatePage_page _ _ _ Halloc2) as (Hf0 & Hp0 & _).
    pose proof (AllocatePage_sameHeader _ _ _ Halloc2) as T1.
    apply bind_inv in Hbranch as (hbf & q2 & Hg2 & Hbranch).
    pose proof (GetPage_sameHeader _ _ _ _ Hg2) as T2.
    apply bind_inv in Hbranch as (hd & q3 & Hfd2 & Hbranch). apply frameData_inv in Hfd2 as ->.
    apply bind_inv in Hbranch as (hd1 & q3 & Hl3 & Hbranch). apply liftRes_inv in Hl3 as [-> _].
    apply bind_inv in Hbranch as ([] & q3 & Hs3 & Hbranch).
    pose proof (updFrame_sameHeader _ _ _ _ _ Hs3) as T3.
    apply bind_inv in Hbranch as ([] & q4 & Hs4 & Hbranch).
    pose proof (updFrame_sameHeader _ _ _ _ _ Hs4) as T4.
    apply bind_inv in Hbranch as ([] & q5 & Hfr2 & Hbranch).
    pose proof (FreePage_sameHeader _ _ _ _ _ Hfr2) as T5.
    apply bind_inv in Hbranch as ([] & q6 & Hm1 & Hsave).
    unfold modify in Hm1. injection Hm1 as <-.
    unfold saveHeaderLocation, modify in Hsave. injection Hsave as <-.
    apply bind_inv in Hadd as ([] & r7 & Hm2 & Hret).
    unfold modify in Hm2. injection Hm2 as <-. injection Hret as _ <-.
    rewrite Hrel1, Hps in Hslots. cbn. rewrite Hrel1, Hps. done.
Qed.

Lemma EnsureHeader_sets_header_witness :
  HeaderPageId created <> invalidPage /\ EnsureHeader created = (Ok tt, created).
Proof.
  destruct (EnsureHeader_sets_header opened created) as (H1 & H2 & _).
  - vm_compute. reflexivity.
  - split; [exact H1|exact H2].
Defined.

(** ** A delete that is rejected *)

(** X28.  When the page of the
    record can be brought into the pool and the slot is outside the slot
    count of the page or is free, [DeleteRecord] fails with the slot error
    and changes the contents of no page; only the pool may have moved
    pages. *)
Theorem DeleteRecord_rejected_changes_nothing fuel rid rm i b1 d slots :
  faithful (bm rm) ->
  buffer.GetPage (PageId rid) (bm rm) = (Ok i, b1) ->
  content (PageId rid) (bm rm) = Ok d -> Uint32At d 16 = Ok slots ->
  ~ (0 <= SlotIdx rid < slots) \/ d !! Z.to_nat (20 + SlotIdx rid) = Some 0 ->
  exists e rm',
    DeleteRecord fuel rid rm = (Err e, rm') /\
    (e = ErrInvalidSlot \/ e = ErrSlotFree) /\
    sameHeader rm rm' /\ faithful (bm rm') /\
    forall q, content q (bm rm') = content q (bm rm).
Proof.
  intros Hf Hget Hc Hslots Hbad.
  destruct (GetPage_effect _ _ _ _ Hf Hget) as ((fq & Hfq & _ & Hcq & _) & _ & _).
  destruct (GetPage_Ok_frame _ _ _ _ (proj1 Hf) Hget) as (el & f & Hl & Hv & Hfi & _).
  assert (fq = f) as ->.
  { unfold frameOf in Hfq. rewrite Hl in Hfq. cbn in Hfq. congruence. }
  assert (Hd : buffer.Data f = d) by congruence.
  assert (Hread : readOp (PageId rid) (bm rm) =
            (Ok d, buffer.set_frames (<[i := buffer.unpin false f]> (buffer.frames b1)) b1)).
  { unfold readOp. rewrite Hget, Hfi. unfold buffer.FreePage. by rewrite Hl, Hv, Hfi, Hd. }
  destruct (readOp_spec _ _ _ _ Hf Hread) as (_ & Hf' & Hsame).
  set (b2 := buffer.set_frames _ b1) in *.
  assert (Hfree : forall A (k : unit -> M A) (e : error),
            (ignoreErr (FreePage (PageId rid) false) ≫= (fun _ => fail e)) (set_bm b1 rm)
            = (@Err A e, set_bm b2 rm)).
  { intros A k e. unfold mbind, M_bind, ignoreErr, FreePage, fail, buffer.FreePage. cbn.
    by rewrite Hl, Hv, Hfi. }
  assert (Hstart : forall (k : nat -> M unit),
            (GetPage (PageId rid) ≫= k) rm = k i (set_bm b1 rm)).
  { intros k. unfold mbind, M_bind, GetPage. by rewrite Hget. }
  unfold DeleteRecord. unfold mbind at 1, M_bind at 1, get at 1. cbn beta iota.
  rewrite Hstart. unfold mbind at 1, M_bind at 1, frameData at 1. cbn [bm set_bm].
  rewrite Hfi, Hd. unfold mbind at 1, M_bind at 1, liftRes at 1. rewrite Hslots.
  destruct ((SlotIdx rid <? 0) || (slots <=? SlotIdx rid)) eqn:Hrange.
  - rewrite (Hfree unit (fun _ => mret tt)). eexists _, _. split; [done|].
    split; [by left|]. done.
  - apply orb_false_iff in Hrange as [H1 H2]. apply Z.ltb_ge in H1. apply Z.leb_gt in H2.
    destruct Hbad as [Hbad|Hbad]; [lia|].
    assert (Hb : byteAt d (20 + SlotIdx rid) = Ok 0).
    { unfold byteAt. destruct (20 + SlotIdx rid <? 0) eqn:E; [lia|].
      unfold byte in *. by rewrite Hbad. }
    unfold mbind at 1, M_bind at 1, liftRes at 1. rewrite Hb.
    rewrite decide_True by done.
    rewrite (Hfree unit (fun _ => mret tt)). eexists _, _. split; [done|].
    split; [by right|]. done.
Qed.

Lemma poolF_faithful : faithful poolF.
Proof.
  apply (faithful_new cfg30 diskF).
  - reflexivity.
  - reflexivity.
  - apply consistent_WritePage, consistent_AllocatePage, consistent_Init.
Qed.

Lemma DeleteRecord_rejected_changes_nothing_witness :
  exists e rm',
    DeleteRecord 16 {| PageId := dataPage 0; SlotIdx := 0 |} rmF = (Err e, rm') /\
    (e = ErrInvalidSlot \/ e = ErrSlotFree) /\
    sameHeader rmF rm' /\ faithful (bm rm') /\
    forall q, content q (bm rm') = content q (bm rmF).
Proof.
  apply (DeleteRecord_rejected_changes_nothing 16 {| PageId := dataPage 0; SlotIdx := 0 |} rmF
           O (buffer.GetPage (dataPage 0) poolF).2
           (zeros 16 ++ [2; 0; 0; 0] ++ zeros 10) 2).
  - apply poolF_faithful.
  - vm_compute. reflexivity.
  - vm_compute. reflexivity.
  - vm_compute. reflexivity.
  - right. vm_compute. reflexivity.
Defined.

(** ** The pages of a relation *)

Lemma collectPages_spec fuel : forall pid visited out rm v' out' rm',
  collectPages fuel pid visited out rm = (Ok (v', out'), rm') ->
  (forall x, x ∈ visited <-> x ∈ out) -> NoDup out -> (invalidPage ∉ out) ->
  (forall x, x ∈ v' <-> x ∈ out') /\ NoDup out' /\ (invalidPage ∉ out') /\
  out `prefix_of` out'.
Proof.
  induction fuel as [|fuel IH]; intros pid visited out rm v' out' rm'; cbn [collectPages]; [done|].
  case_decide as Hinv; [by intros [= <- <- _]|].
  case_decide as Hvis; [by intros [= <- <- _]|].
  intros Hrun Hset Hnd Hsent. apply bind_inv in Hrun as (nx & rm1 & _ & Hrun).
  destruct (IH _ _ _ _ _ _ _ Hrun) as (H1 & H2 & H3 & H4).
  - intros x. rewrite elem_of_union, elem_of_singleton, elem_of_app, list_elem_of_singleton.
    rewrite Hset. tauto.
  - apply NoDup_app. split; [done|]. split; [|apply NoDup_singleton].
    intros x Hx ->%list_elem_of_singleton. apply Hvis. by apply Hset.
  - rewrite elem_of_app, list_elem_of_singleton. intros [?|?]; [done|]. by apply Hinv.
  - split; [done|]. split; [done|]. split; [done|].
    etrans; [|exact H4]. by apply prefix_app_r.
Qed.

Lemma collectPages_more_fuel fuel : forall pid visited out rm r rm',
  collectPages fuel pid visited out rm = (Ok r, rm') ->
  collectPages (S fuel) pid visited out rm = (Ok r, rm').
Proof.
  induction fuel as [|fuel IH]; intros pid visited out rm r rm'; [done|].
  intros Hrun. cbn [collectPages] in Hrun |- *.
  case_decide; [done|]. case_decide; [done|].
  apply bind_inv in Hrun as (nx & rm1 & Hnx & Hrun).
  rewrite (bind_Ok _ _ _ _ _ Hnx). by apply IH.
Qed.

(** X29.  The list [AllPageIds] returns never holds
    the sentinel nor the same page twice, also when the lists on disk share
    pages or are cyclic; and a larger bound on the number of loop
    iterations gives the same list. *)
Theorem AllPageIds_distinct fuel rm out rm' :
  AllPageIds fuel rm = (Ok out, rm') ->
  NoDup out /\ (invalidPage ∉ out) /\ AllPageIds (S fuel) rm = (Ok out, rm').
Proof.
  assert (Hunfold : forall n, AllPageIds n rm =
            if decide (HeaderPageId rm = invalidPage) then (Ok [], rm)
            else (whead ← headerFirstWithSpace;
                  r ← collectPages n whead ∅ [];
                  fhead ← headerRead 0 false;
                  r2 ← collectPages n fhead r.1 r.2;
                  mret r2.2) rm).
  { intros n. unfold AllPageIds. unfold mbind at 1, M_bind at 1, get at 1. cbn beta iota.
    by case_decide. }
  rewrite !Hunfold. case_decide as Hh.
  - intros [= <- <-]. split; [constructor|]. split; [apply not_elem_of_nil|done].
  - intros Hrun.
    apply bind_inv in Hrun as (whead & rm1 & Hw & Hrun).
    apply bind_inv in Hrun as ([v1 o1] & rm2 & Hc1 & Hrun).
    apply bind_inv in Hrun as (fhead & rm3 & Hf & Hrun).
    apply bind_inv in Hrun as ([v2 o2] & rm4 & Hc2 & Hrun).
    injection Hrun as <- <-.
    destruct (collectPages_spec _ _ _ _ _ _ _ _ Hc1) as (S1 & N1 & I1 & _);
      [intros x; rewrite elem_of_empty; split; [done|apply not_elem_of_nil]
      |constructor|apply not_elem_of_nil|].
    destruct (collectPages_spec _ _ _ _ _ _ _ _ Hc2) as (S2 & N2 & I2 & _); [done..|].
    split; [done|]. split; [done|].
    rewrite (bind_Ok _ _ _ _ _ Hw).
    rewrite (bind_Ok _ _ _ _ _ (collectPages_more_fuel _ _ _ _ _ _ _ Hc1)).
    rewrite (bind_Ok _ _ _ _ _ Hf).
    rewrite (bind_Ok _ _ _ _ _ (collectPages_more_fuel _ _ _ _ _ _ _ Hc2)). done.
Qed.

Lemma AllPageIds_distinct_witness :
  NoDup [dataPage 0; dataPage 2] /\ (invalidPage ∉ [dataPage 0; dataPage 2]) /\
  AllPageIds 5 afterThirdDelete =
    (Ok [dataPage 0; dataPage 2], (AllPageIds 4 afterThirdDelete).2).
Proof.
  apply (AllPageIds_distinct 4 afterThirdDelete). vm_compute. reflexivity.
Defined.
End HeapMore.

(** * The heap-file manager: reading all records *)

Section HeapScan.
Import config strconv relation relation_spec heap_spec heap_ops pool_spec.

Variable FormatG : Z -> gostring.

(** ** Reading all records *)

(** A page scan moves the pool as [pageNext] does, and finds the same
    successor. *)
Lemma recordsInDataPage_pageNext pid rm r rm' :
  recordsInDataPage FormatG pid rm = (Ok r, rm') -> pageNext pid rm = (Ok r.2, rm').
Proof.
  unfold recordsInDataPage, pageNext.
  unfold mbind at 1, M_bind at 1, get at 1. cbn beta iota.
  intros Hrun. apply bind_inv in Hrun as (bf & rm1 & Hg & Hrun). rewrite (bind_Ok _ _ _ _ _ Hg).
  apply bind_inv in Hrun as (d & rm2 & Hd & Hrun). rewrite (bind_Ok _ _ _ _ _ Hd).
  apply bind_inv in Hrun as (slots & rm3 & Hs & Hrun).
  apply liftRes_inv in Hs as [-> _].
  destruct (readSlots FormatG (Rel rm) d (20 + slots) 0 (Z.to_nat slots)) as [recs|e].
  - apply bind_inv in Hrun as (nx & rm3 & Hx & Hrun). rewrite (bind_Ok _ _ _ _ _ Hx).
    apply bind_inv in Hrun as (ny & rm4 & Hy & Hrun). rewrite (bind_Ok _ _ _ _ _ Hy).
    apply bind_inv in Hrun as ([] & rm5 & Hf & Hrun). rewrite (bind_Ok _ _ _ _ _ Hf).
    injection Hrun as <- <-. done.
  - destruct e; try done; apply bind_inv in Hrun as (? & ? & _ & Hrun); done.
Qed.

Lemma recordsLoop_walkList fuel : forall pid out rm res rm',
  recordsLoop FormatG fuel pid out rm = (Ok res, rm') ->
  exists l, walkList fuel pid rm = (Ok l, rm').
Proof.
  induction fuel as [|fuel IH]; intros pid out rm res rm'; cbn [recordsLoop walkList]; [done|].
  case_decide; [intros [= _ <-]; by exists []|].
  intros Hrun. apply bind_inv in Hrun as (r & rm1 & Hr & Hrun).
  apply recordsInDataPage_pageNext in Hr. rewrite (bind_Ok _ _ _ _ _ Hr).
  destruct (IH _ _ _ _ _ Hrun) as [l Hl]. rewrite (bind_Ok _ _ _ _ _ Hl). by eexists.
Qed.

(** X30.  [GetAllRecords] keeps no set of
    visited pages: on a manager with a header whose list of pages with
    space is cyclic, so that no walk from its head along [pageNext] reaches
    the sentinel, it returns no list, whatever the number of loop
    iterations it is given. *)
Theorem GetAllRecords_needs_acyclic_list rm h rm0 :
  HeaderPageId rm <> invalidPage ->
  headerFirstWithSpace rm = (Ok h, rm0) ->
  (forall fuel, (walkList fuel h rm0).1 = Err OutOfFuel) ->
  forall fuel recs rm', GetAllRecords FormatG fuel rm <> (Ok recs, rm').
Proof.
  intros Hh Hhead Hcyc fuel recs rm'. unfold GetAllRecords.
  unfold mbind at 1, M_bind at 1, get at 1. cbn beta iota.
  rewrite decide_False by done. rewrite (bind_Ok _ _ _ _ _ Hhead).
  intros Hrun. apply bind_inv in Hrun as (out & rm1 & Hloop & _).
  destruct (recordsLoop_walkList _ _ _ _ _ _ Hloop) as [l Hl].
  specialize (Hcyc fuel). rewrite Hl in Hcyc. done.
Qed.

End HeapScan.

Section HeapScanExamples.
Import config strconv relation relation_spec heap_spec heap_ops pool_spec.

Lemma GetAllRecords_needs_acyclic_list_witness :
  headerFirstWithSpace afterThirdDelete = (Ok (dataPage 0), walk0) /\
  forall fuel recs rm', GetAllRecords noFormat fuel afterThirdDelete <> (Ok recs, rm').
Proof.
  split; [vm_compute; reflexivity|].
  assert (H1 : pageNext (dataPage 0) walk0 = (Ok (dataPage 2), walk1))
    by (vm_compute; reflexivity).
  assert (H2 : pageNext (dataPage 2) walk1 = (Ok (dataPage 0), walk2))
    by (vm_compute; reflexivity).
  assert (H3 : pageNext (dataPage 0) walk2 = (Ok (dataPage 2), walk3))
    by (vm_compute; reflexivity).
  assert (H4 : pageNext (dataPage 2) walk3 = (Ok (dataPage 0), walk2))
    by (vm_compute; reflexivity).
  apply (GetAllRecords_needs_acyclic_list noFormat afterThirdDelete (dataPage 0) walk0).
  - vm_compute. discriminate.
  - vm_compute. reflexivity.
  - intros fuel.
    destruct fuel as [|fuel]; [reflexivity|].
    eapply walkList_step; [discriminate|exact H1|].
    destruct fuel as [|fuel]; [reflexivity|].
    eapply walkList_step; [discriminate|exact H2|].
    apply (walkList_cycle (dataPage 0) (dataPage 2) walk2 walk3); [discriminate|discriminate|exact H3|exact H4].
Defined.

End HeapScanExamples.
